(** * The Pangolin viewer of DSO: state-sharing core

    A shallow embedding of [src/io_wrapper/pangolin/pangolin_dso_viewer.cc]
    (class [dso::IOWrap::PangolinDSOViewer]) and the properties of its
    publish operations, its deferred reset and its render-loop iteration.

    Conventions.
    - A C++ [int] is a [Z]; casts that can change the value are written out
      ([to_int32], [wrap_u64]).
    - A C++ [float] is a binary32 value and a [double] a binary64 value of
      [SpecFloat.spec_float]; every operation rounds to nearest-even.
    - A [KeyFrameDisplay*] is an address ([ptr]); [0] is the null pointer and
      the live objects are the domain of the [heap].
    - The wall clock ([gettimeofday]) and the widgets of the Pangolin panel
      are inputs of the operations that read them.
    - A publish operation is one critical section and is one step of the
      model. An iteration of the render loop is one step as well: its
      critical sections in program order, with no call of another thread
      in between; it also yields the trace of lock and presenter events it
      issues. *)

From Stdlib Require Import ZArith Bool Lia.
From Stdlib Require Import Floats.SpecFloat.
From stdpp Require Import gmap list sorting.

Local Open Scope Z_scope.

(** ** Machine integers *)

Definition wrap_u64 (z : Z) : Z := z mod 2 ^ 64.

(** [(int) x] for an unsigned [x]: the low 32 bits, read as two's complement. *)
Definition to_int32 (z : Z) : Z :=
  let r := z mod 2 ^ 32 in
  if r <? 2 ^ 31 then r else r - 2 ^ 32.

(** [a + b] on [int]; overflow is undefined in C++, the model wraps. *)
Definition add_int32 (a b : Z) : Z := to_int32 (a + b).

(** ** Floating point *)

Module F32.
Definition prec : Z := 24.
Definition emax : Z := 128.
Definition of_Z (z : Z) : spec_float := binary_normalize prec emax z 0 false.
Definition add : spec_float -> spec_float -> spec_float := SFadd prec emax.
Definition mul : spec_float -> spec_float -> spec_float := SFmul prec emax.
Definition div : spec_float -> spec_float -> spec_float := SFdiv prec emax.
Definition zero : spec_float := S754_zero false.
End F32.

Module F64.
Definition prec : Z := 53.
Definition emax : Z := 1024.
Definition of_Z (z : Z) : spec_float := binary_normalize prec emax z 0 false.
(** [float] to [double]: exact, the mantissa is realigned to 53 bits. *)
Definition of_f32 (x : spec_float) : spec_float :=
  match x with
  | S754_finite s m e => binary_round prec emax s m e
  | _ => x
  end.
Definition mul : spec_float -> spec_float -> spec_float := SFmul prec emax.
Definition div : spec_float -> spec_float -> spec_float := SFdiv prec emax.
Definition gtb (x y : spec_float) : bool := SFltb y x.
(** The literal [0.8]: the double nearest to 8/10. *)
Definition c_0_8 : spec_float := div (of_Z 8) (of_Z 10).
(** Truncation toward zero, as in a floating-to-integer conversion. *)
Definition trunc (x : spec_float) : Z :=
  match x with
  | S754_finite s m e =>
      let a := if 0 <=? e then Z.pos m * 2 ^ e else Z.pos m / 2 ^ (- e) in
      if s then - a else a
  | _ => 0
  end.
(** [double] to [unsigned char]. C++ defines it when the truncated value
    is in [0, 255]; elsewhere the model keeps the low 8 bits. *)
Definition to_uchar (x : spec_float) : Z := trunc x mod 256.
End F64.

(** ** Data *)

Definition ptr := N.
Definition null : ptr := 0%N.

Record Vec3b := mkVec3b { b0 : Z; b1 : Z; b2 : Z }.
Record Vec3f := mkVec3f { f0 : spec_float; f1 : spec_float; f2 : spec_float }.
Record Vector2i := mkVector2i { v0 : Z; v1 : Z }.
Record timeval := mkTimeval { tv_sec : Z; tv_usec : Z }.

Definition black : Vec3b := mkVec3b 0 0 0.

(** [MinimalImageB3]: [w * h] pixels of three bytes. *)
Record MinimalImageB3 := mkImage { img_w : Z; img_h : Z; data : list Vec3b }.

(** Modelled from the spec: [MinimalImage::setBlack] (util/minimal_image.h
    is not under src/) gives every pixel of the buffer its blacked-out
    value, all channels zero; the size of the buffer is kept. *)
Definition setBlack (img : MinimalImageB3) : MinimalImageB3 :=
  mkImage (img_w img) (img_h img) (replicate (length (data img)) black).

(** [new MinimalImageB3(w, h)] followed by [setBlack()]. *)
Definition new_black_image (w h : Z) : MinimalImageB3 :=
  setBlack (mkImage w h (replicate (Z.to_nat (w * h)) black)).

(** [GraphConnection] (declared in pangolin_dso_viewer.h): the fields are
    the ones the source file reads and writes. *)
Record GraphConnection := mkConn {
  from : ptr; to : ptr;
  fwdMarg : Z; bwdMarg : Z; fwdAct : Z; bwdAct : Z
}.

(** A value-initialised [GraphConnection], what [resize] appends to a
    vector of a struct without a constructor of its own. *)
Definition conn0 : GraphConnection := mkConn null null 0 0 0 0.

(** ** Collaborators

    [KeyFrameDisplay], [FrameHessian], [FrameShell] and [CalibHessian] are
    declared outside this source file; the viewer uses them only through
    the members below. *)
Class Collaborators := {
  KeyFrameDisplay : Type;
  FrameHessian : Type;
  FrameShell : Type;
  CalibHessian : Type;
  (** [new KeyFrameDisplay()] *)
  kfd_new : KeyFrameDisplay;
  (** [kfd->setFromKF(fh, HCalib)] *)
  setFromKF : FrameHessian -> CalibHessian -> KeyFrameDisplay -> KeyFrameDisplay;
  (** [kfd->setFromF(frame, HCalib)] *)
  setFromF : FrameShell -> CalibHessian -> KeyFrameDisplay -> KeyFrameDisplay;
  (** [kfd->refreshPC(canRefresh, scaledTH, absTH, mode, minBS, sparsity)] *)
  refreshPC : bool -> spec_float -> spec_float -> Z -> spec_float -> Z ->
              KeyFrameDisplay -> KeyFrameDisplay * bool;
  (** [kfd->camToWorld.translation().cast<float>()] *)
  kfd_translation : KeyFrameDisplay -> Vec3f;
  (** [fh->frameID] *)
  frameID : FrameHessian -> Z;
  (** [fh->dI[i][0]] *)
  dI0 : FrameHessian -> nat -> spec_float;
  (** [frame->camToWorld.translation().cast<float>()] *)
  shell_translation : FrameShell -> Vec3f
}.

(** [operator new]: the address it returns is not null and is not the
    address of a live object. *)
Class Allocator := {
  alloc : gset ptr -> ptr;
  alloc_nonnull : forall live, alloc live <> null;
  alloc_fresh : forall live, alloc live ∉ live
}.

(** ** The state of the viewer *)

(** The members guarded by [openImagesMutex]. *)
Record ImageState := mkImageState {
  internalVideoImg : MinimalImageB3;
  internalKFImg : MinimalImageB3;
  internalResImg : MinimalImageB3;
  videoImgChanged : bool;
  kfImgChanged : bool;
  resImgChanged : bool;
  last_map : timeval;
  lastNMappingMs : list spec_float
}.

(** The [this->settings_*] members. *)
Record ViewerSettings := mkViewerSettings {
  settings_pointCloudMode : Z;
  settings_showKFCameras : bool;
  settings_showCurrentCamera : bool;
  settings_showTrajectory : bool;
  settings_showFullTrajectory : bool;
  settings_showActiveConstraints : bool;
  settings_showAllConstraints : bool;
  settings_absVarTH : spec_float;
  settings_scaledVarTH : spec_float;
  settings_minRelBS : spec_float;
  settings_sparsity : Z
}.

(** The globals of util/settings.h that the viewer reads or writes. The
    numeric ones hold the panel's value as it is: their declared types, and
    with them the conversion on assignment, are not in this source file. *)
Record Globals := mkGlobals {
  disableAllDisplay : bool;
  setting_render_display3D : bool;
  setting_render_displayDepth : bool;
  setting_render_displayVideo : bool;
  setting_render_displayResidual : bool;
  setting_render_renderWindowFrames : bool;
  setting_render_plotTrackingFull : bool;
  setting_render_displayCoarseTrackingFull : bool;
  setting_desiredPointDensity : Z;
  setting_desiredImmatureDensity : Z;
  setting_maxFrames : Z;
  setting_kfGlobalWeight : spec_float;
  setting_minGradHistAdd : spec_float;
  setting_fullResetRequested : bool
}.

(** The values of the panel widgets ([pangolin::Var]) read in one iteration
    of the render loop, and [pangolin::ShouldQuit()]. *)
Record Panel := mkPanel {
  ui_PC_mode : Z;
  ui_KFCam : bool;
  ui_CurrCam : bool;
  ui_Trajectory : bool;
  ui_FullTrajectory : bool;
  ui_ActiveConst : bool;
  ui_AllConst : bool;
  ui_show3D : bool;
  ui_showDepth : bool;
  ui_showVideo : bool;
  ui_showResidual : bool;
  ui_showFramesWindow : bool;
  ui_showFullTracking : bool;
  ui_showCoarseTracking : bool;
  ui_sparsity : Z;
  ui_relVarTH : spec_float;
  ui_absVarTH : spec_float;
  ui_minRelativeBS : spec_float;
  ui_Reset : bool;
  ui_activePoints : Z;
  ui_pointCandidates : Z;
  ui_maxFrames : Z;
  ui_kfFrequency : spec_float;
  ui_minGradAdd : spec_float;
  ui_ShouldQuit : bool
}.

Section Viewer.
Context `{C : Collaborators} `{A : Allocator}.

(** The members guarded by [model3DMutex], with the [KeyFrameDisplay]
    objects they point to. *)
Record ModelState := mkModelState {
  heap : gmap ptr KeyFrameDisplay;
  currentCam : ptr;
  keyframes : list ptr;
  keyframesByKFID : gmap Z ptr;
  allFramePoses : list Vec3f;
  connections : list GraphConnection;
  last_track : timeval;
  lastNTrackingMs : list spec_float
}.

Record State := mkState {
  w : Z;
  h : Z;
  running : bool;
  needReset : bool;
  images : ImageState;
  model : ModelState;
  settings : ViewerSettings;
  globals : Globals;
  (** the two read-outs of the panel, [ui.Track fps] and [ui.KF fps] *)
  settings_trackFps : spec_float;
  settings_mapFps : spec_float
}.

Definition with_images (f : ImageState -> ImageState) (st : State) : State :=
  mkState (w st) (h st) (running st) (needReset st) (f (images st)) (model st)
          (settings st) (globals st) (settings_trackFps st) (settings_mapFps st).

Definition with_model (f : ModelState -> ModelState) (st : State) : State :=
  mkState (w st) (h st) (running st) (needReset st) (images st) (f (model st))
          (settings st) (globals st) (settings_trackFps st) (settings_mapFps st).

Definition with_needReset (b : bool) (st : State) : State :=
  mkState (w st) (h st) (running st) b (images st) (model st)
          (settings st) (globals st) (settings_trackFps st) (settings_mapFps st).

Definition with_running (b : bool) (st : State) : State :=
  mkState (w st) (h st) b (needReset st) (images st) (model st)
          (settings st) (globals st) (settings_trackFps st) (settings_mapFps st).

Definition with_connections (cs : list GraphConnection) (m : ModelState)
  : ModelState :=
  mkModelState (heap m) (currentCam m) (keyframes m) (keyframesByKFID m)
               (allFramePoses m) cs (last_track m) (lastNTrackingMs m).

(** ** Construction

    [PangolinDSOViewer(w, h, startRunThread)]. The constructor assigns the
    sizes, [running], the three buffers with their flags, [currentCam] and
    [needReset]; the containers start empty. The members it leaves
    unassigned (the settings, [last_track], [last_map]) and the globals are
    arguments. [startRunThread] only decides whether the thread of [run] is
    started here. *)
Definition PangolinDSOViewer (w h : Z) (cfg : ViewerSettings) (g : Globals)
    (track0 map0 : timeval) : State :=
  let cam := alloc ∅ in
  mkState w h true false
    (mkImageState (new_black_image w h) (new_black_image w h)
                  (new_black_image w h) true true true map0 [])
    (mkModelState {[ cam := kfd_new ]} cam [] ∅ [] [] track0 [])
    cfg g F32.zero F32.zero.

(** [close()] *)
Definition close (st : State) : State := with_running false st.

(** [reset()] *)
Definition reset (st : State) : State := with_needReset true st.

(** [reset_internal()]: under [model3DMutex] every keyframe is deleted and
    the four containers are cleared; under [openImagesMutex] the buffers are
    blacked out and flagged; then the request is cleared. *)
Definition reset_internal (st : State) : State :=
  let m := model st in
  let i := images st in
  let m' :=
    mkModelState (foldl (fun hp p => delete p hp) (heap m) (keyframes m))
                 (currentCam m) [] ∅ [] [] (last_track m) (lastNTrackingMs m) in
  let i' :=
    mkImageState (setBlack (internalVideoImg i)) (setBlack (internalKFImg i))
                 (setBlack (internalResImg i)) true true true
                 (last_map i) (lastNMappingMs i) in
  with_needReset false (with_images (fun _ => i') (with_model (fun _ => m') st)).

(** ** Publishing the connectivity graph *)

(** What a call leaves behind: it returns, a glog [CHECK] aborts the
    process, or [std::map::at] throws [std::out_of_range] out of the call
    (with the members as they were at the throw; [model3DMutex], locked
    without a guard object, stays locked). *)
Inductive outcome (T : Type) : Type :=
| Returned (x : T)
| CheckFailed
| OutOfRange (x : T).
Global Arguments Returned {T} x.
Global Arguments CheckFailed {T}.
Global Arguments OutOfRange {T} x.

(** The four locals [totalActFwd], [totalActBwd], [totalMargFwd],
    [totalMargBwd]. *)
Record GraphTotals := mkTotals {
  totalActFwd : Z; totalActBwd : Z; totalMargFwd : Z; totalMargBwd : Z
}.

(** The variables the loop of [publishGraph] updates. [runningID] is an
    [int] that counts records; it is an index here. *)
Record GraphLoop := mkGraphLoop {
  gl_connections : list GraphConnection;
  runningID : nat;
  gl_totals : GraphTotals
}.

Definition decode_host (key : Z) : Z := to_int32 (Z.shiftr key 32).
Definition decode_target (key : Z) : Z := to_int32 (Z.land key 0xFFFFFFFF).

(** [(((uint64_t)target) << 32) + ((uint64_t)host)] *)
Definition inverseKey (host target : Z) : Z :=
  wrap_u64 (wrap_u64 (Z.shiftl (wrap_u64 target) 32) + wrap_u64 host).

(** [keyframesByKFID.count(id) == 0 ? 0 : keyframesByKFID[id]] *)
Definition resolve (byid : gmap Z ptr) (id : Z) : ptr :=
  match byid !! id with
  | None => null
  | Some p => p
  end.

(** One round of the loop of [publishGraph], for the entry [p]. *)
Definition publishGraph_entry (byid : gmap Z ptr)
    (connectivity : gmap Z Vector2i) (acc : GraphLoop) (p : Z * Vector2i)
  : outcome GraphLoop :=
  let host := decode_host p.1 in
  let target := decode_target p.1 in
  if negb (0 <=? host) then CheckFailed
  else if negb (0 <=? target) then CheckFailed
  else if host =? target then
    if negb (v0 p.2 =? 0) then CheckFailed
    else if negb (v1 p.2 =? 0) then CheckFailed
    else Returned acc
  else if target <? host then Returned acc
  else
    let t := gl_totals acc in
    let cs1 :=
      alter (fun c => mkConn (resolve byid host) (resolve byid target)
                             (v1 p.2) (bwdMarg c) (v0 p.2) (bwdAct c))
            (runningID acc) (gl_connections acc) in
    let t1 := mkTotals (add_int32 (totalActFwd t) (v0 p.2)) (totalActBwd t)
                       (add_int32 (totalMargFwd t) (v1 p.2)) (totalMargBwd t) in
    match connectivity !! inverseKey host target with
    | None => OutOfRange (mkGraphLoop cs1 (runningID acc) t1)
    | Some st =>
        let cs2 :=
          alter (fun c => mkConn (from c) (to c) (fwdMarg c) (v1 st)
                                 (fwdAct c) (v0 st))
                (runningID acc) cs1 in
        let t2 := mkTotals (totalActFwd t1) (add_int32 (totalActBwd t1) (v0 st))
                           (totalMargFwd t1)
                           (add_int32 (totalMargBwd t1) (v1 st)) in
        Returned (mkGraphLoop cs2 (S (runningID acc)) t2)
    end.

(** The loop over the entries, in the order of the iteration. *)
Fixpoint publishGraph_loop (byid : gmap Z ptr) (connectivity : gmap Z Vector2i)
    (entries : list (Z * Vector2i)) (acc : GraphLoop) : outcome GraphLoop :=
  match entries with
  | [] => Returned acc
  | p :: rest =>
      match publishGraph_entry byid connectivity acc p with
      | Returned acc' => publishGraph_loop byid connectivity rest acc'
      | CheckFailed => CheckFailed
      | OutOfRange acc' => OutOfRange acc'
      end
  end.

Definition key_le (a b : Z * Vector2i) : Prop := a.1 <= b.1.
Global Instance key_le_dec : RelDecision key_le.
Proof. intros a b. unfold key_le. apply _. Defined.

(** A [std::map] is iterated by ascending key; the keys are [uint64_t]
    values, ordered as the integers they are. *)
Definition entries_in_order (connectivity : gmap Z Vector2i)
  : list (Z * Vector2i) :=
  merge_sort key_le (map_to_list connectivity).

(** The critical section of [publishGraph]: the list is resized to the
    number of entries of the map ([std::vector::resize] keeps the leading
    elements and appends value-initialised ones), then the loop runs. *)
Definition publishGraph_locked (byid : gmap Z ptr)
    (connectivity : gmap Z Vector2i) (old : list GraphConnection)
  : outcome GraphLoop :=
  publishGraph_loop byid connectivity (entries_in_order connectivity)
    (mkGraphLoop (resize (size connectivity) conn0 old) 0%nat
                 (mkTotals 0 0 0 0)).

Definition display3D_off (st : State) : bool :=
  disableAllDisplay (globals st) || negb (setting_render_display3D (globals st)).

(** [publishGraph(connectivity)] *)
Definition publishGraph (connectivity : gmap Z Vector2i) (st : State)
  : outcome State :=
  if display3D_off st then Returned st
  else
    let put (g : GraphLoop) :=
      with_model (with_connections (gl_connections g)) st in
    match publishGraph_locked (keyframesByKFID (model st)) connectivity
                              (connections (model st)) with
    | Returned g => Returned (put g)
    | CheckFailed => CheckFailed
    | OutOfRange g => OutOfRange (put g)
    end.

(** ** Publishing keyframes *)

(** One round of the loop of [publishKeyframes]. *)
Definition publishKeyframes_entry (HCalib : CalibHessian) (m : ModelState)
    (fh : FrameHessian) : ModelState :=
  let m1 :=
    match keyframesByKFID m !! frameID fh with
    | Some _ => m
    | None =>
        let kfd := alloc (dom (heap m)) in
        mkModelState (<[kfd := kfd_new]> (heap m)) (currentCam m)
                     (keyframes m ++ [kfd])
                     (<[frameID fh := kfd]> (keyframesByKFID m))
                     (allFramePoses m) (connections m)
                     (last_track m) (lastNTrackingMs m)
    end in
  let p := resolve (keyframesByKFID m1) (frameID fh) in
  mkModelState (alter (setFromKF fh HCalib) p (heap m1)) (currentCam m1)
               (keyframes m1) (keyframesByKFID m1) (allFramePoses m1)
               (connections m1) (last_track m1) (lastNTrackingMs m1).

(** [publishKeyframes(frames, final, HCalib)] *)
Definition publishKeyframes (frames : list FrameHessian) (final : bool)
    (HCalib : CalibHessian) (st : State) : State :=
  if display3D_off st then st
  else with_model (fun m => foldl (publishKeyframes_entry HCalib) m frames) st.

(** ** The rolling windows of call intervals *)

(** [(now.tv_sec - last.tv_sec) * 1000.0f + (now.tv_usec - last.tv_usec) / 1000.0f] *)
Definition elapsed_ms (last now : timeval) : spec_float :=
  F32.add (F32.mul (F32.of_Z (tv_sec now - tv_sec last)) (F32.of_Z 1000))
          (F32.div (F32.of_Z (tv_usec now - tv_usec last)) (F32.of_Z 1000)).

(** [lastN.emplace_back(d); if (lastN.size() > 10) lastN.pop_front();] *)
Definition push_window (d : spec_float) (lastN : list spec_float)
  : list spec_float :=
  let l := lastN ++ [d] in
  if decide (10 < length l)%nat then tail l else l.

(** [lastN.size() * 1000.0f / sd], with [sd] the sum of the window taken
    front to back from [0]. The panel read-out is a [double]; a [float]
    converts to it without rounding. *)
Definition window_rate (lastN : list spec_float) : spec_float :=
  let sd := foldl F32.add F32.zero lastN in
  F32.div (F32.mul (F32.of_Z (Z.of_nat (length lastN))) (F32.of_Z 1000)) sd.

(** [publishCamPose(frame, HCalib)], with the clock reading [time_now]. *)
Definition publishCamPose (frame : FrameShell) (HCalib : CalibHessian)
    (time_now : timeval) (st : State) : State :=
  if display3D_off st then st
  else
    let m := model st in
    let ticked :=
      mkModelState (heap m) (currentCam m) (keyframes m) (keyframesByKFID m)
                   (allFramePoses m) (connections m) time_now
                   (push_window (elapsed_ms (last_track m) time_now)
                                (lastNTrackingMs m)) in
    if negb (setting_render_display3D (globals st)) then
      with_model (fun _ => ticked) st
    else
      with_model (fun _ =>
        mkModelState (alter (setFromF frame HCalib) (currentCam m) (heap m))
                     (currentCam m) (keyframes m) (keyframesByKFID m)
                     (allFramePoses m ++ [shell_translation frame])
                     (connections m) (last_track ticked)
                     (lastNTrackingMs ticked)) st.

(** ** Publishing images *)

(** The value stored in each channel of pixel [i] by [pushLiveFrame]:
    [dI[i][0] * 0.8 > 255.0f ? 255.0 : dI[i][0] * 0.8], as a byte. *)
Definition live_pixel (image : FrameHessian) (i : nat) : Vec3b :=
  let x := F64.mul (F64.of_f32 (dI0 image i)) F64.c_0_8 in
  let v := if F64.gtb x (F64.of_f32 (F32.of_Z 255)) then F64.of_Z 255 else x in
  let b := F64.to_uchar v in
  mkVec3b b b b.

(** The loop [for (i = 0; i < w * h; ++i)] over the pixels of the buffer;
    the model writes the pixels the buffer has. *)
Definition write_live (n : nat) (image : FrameHessian) (px : list Vec3b)
  : list Vec3b :=
  foldl (fun acc i => <[i := live_pixel image i]> acc) px (seq 0 n).

(** [pushLiveFrame(image)] *)
Definition pushLiveFrame (image : FrameHessian) (st : State) : State :=
  if disableAllDisplay (globals st)
     || negb (setting_render_displayVideo (globals st)) then st
  else
    with_images (fun i =>
      let v := internalVideoImg i in
      mkImageState
        (mkImage (img_w v) (img_h v)
                 (write_live (Z.to_nat (w st * h st)) image (data v)))
        (internalKFImg i) (internalResImg i)
        true (kfImgChanged i) (resImgChanged i)
        (last_map i) (lastNMappingMs i)) st.

(** [needPushDepthImage()] *)
Definition needPushDepthImage (st : State) : bool :=
  setting_render_displayDepth (globals st).

(** [memcpy(dst, src, n * 3)] on pixel buffers: the first [n] pixels of
    [dst] become those of [src] (both hold at least [n] pixels in a
    well-defined call). *)
Definition memcpy_pixels (n : nat) (src dst : list Vec3b) : list Vec3b :=
  take n src ++ drop n dst.

(** [pushDepthImage(image)], with the clock reading [time_now]. *)
Definition pushDepthImage (image : MinimalImageB3) (time_now : timeval)
    (st : State) : State :=
  if disableAllDisplay (globals st)
     || negb (setting_render_displayDepth (globals st)) then st
  else
    with_images (fun i =>
      let k := internalKFImg i in
      mkImageState
        (internalVideoImg i)
        (mkImage (img_w k) (img_h k)
                 (memcpy_pixels (Z.to_nat (w st * h st)) (data image) (data k)))
        (internalResImg i)
        (videoImgChanged i) true (resImgChanged i)
        time_now
        (push_window (elapsed_ms (last_map i) time_now) (lastNMappingMs i))) st.

(** ** The render loop *)

Inductive mutex := openImagesMutex | model3DMutex.
Inductive texture := texVideo | texKFDepth | texResidual.
Inductive view := Visualization3D_display | d_video | d_kfDepth | d_residual.
Inductive gl_mode := GL_LINES | GL_LINE_STRIP.

(** What one iteration does to the locks and asks of the presenter
    (OpenGL, Pangolin and the drawing members of [KeyFrameDisplay]). *)
Inductive event :=
| Lock (m : mutex)
| Unlock (m : mutex)
| GlClear
| Activate (v : view)
| DrawCam (p : ptr)
| RefreshPC (p : ptr)
| DrawPC (p : ptr)
| GlLineWidth (n : Z)
| GlBegin (m : gl_mode)
| GlColor3f (r g b : Z)
| GlVertex3f (v : Vec3f)
| GlEnd
| Upload (t : texture) (px : list Vec3b)
| GlColor4f
| RenderToViewportFlipY (t : texture)
| SetMapFps (x : spec_float)
| SetTrackFps (x : spec_float)
| LogWarning
| ResetButtonReset
| FinishFrame.

(** [glVertex3f] at the position of the handle at [p]. Dereferencing a
    pointer to a deleted handle is undefined; the model emits nothing. *)
Definition vertex_of (hp : gmap ptr KeyFrameDisplay) (p : ptr) : list event :=
  match hp !! p with
  | Some k => [GlVertex3f (kfd_translation k)]
  | None => []
  end.

(** The body of the two loops over [connections] in [drawConstraints];
    [wanted nAct nMarg] is the test that selects the records drawn. *)
Definition constraint_lines (wanted : Z -> Z -> bool)
    (hp : gmap ptr KeyFrameDisplay) (c : GraphConnection) : list event :=
  if (N.eqb (to c) null || N.eqb (from c) null)%bool then []
  else
    let nAct := add_int32 (bwdAct c) (fwdAct c) in
    let nMarg := add_int32 (bwdMarg c) (fwdMarg c) in
    if wanted nAct nMarg then vertex_of hp (from c) ++ vertex_of hp (to c)
    else [].

(** [drawConstraints()] *)
Definition drawConstraints (st : State) : list event :=
  let m := model st in
  let s := settings st in
  (if settings_showAllConstraints s then
     [GlLineWidth 1; GlBegin GL_LINES; GlColor3f 0 1 0; GlBegin GL_LINES]
     ++ concat (map (constraint_lines
                       (fun nAct nMarg => (nAct =? 0) && (0 <? nMarg))
                       (heap m)) (connections m))
     ++ [GlEnd]
   else [])
  ++ (if settings_showActiveConstraints s then
        [GlLineWidth 3; GlColor3f 0 0 1; GlBegin GL_LINES]
        ++ concat (map (constraint_lines (fun nAct _ => 0 <? nAct) (heap m))
                       (connections m))
        ++ [GlEnd]
      else [])
  ++ (if settings_showTrajectory s then
        [GlColor3f 1 0 0; GlLineWidth 3; GlBegin GL_LINE_STRIP]
        ++ concat (map (vertex_of (heap m)) (keyframes m))
        ++ [GlEnd]
      else [])
  ++ (if settings_showFullTrajectory s then
        [GlColor3f 0 1 0; GlLineWidth 3; GlBegin GL_LINE_STRIP]
        ++ map GlVertex3f (allFramePoses m)
        ++ [GlEnd]
      else []).

(** One round of the loop over [keyframes] in [run]: the heap, the count
    [refreshed] and the events so far. *)
Definition draw_keyframe (s : ViewerSettings)
    (acc : gmap ptr KeyFrameDisplay * Z * list event) (fh : ptr)
  : gmap ptr KeyFrameDisplay * Z * list event :=
  let '(hp, refreshed, tr) := acc in
  let cam := if settings_showKFCameras s then [DrawCam fh] else [] in
  let '(hp', r) :=
    match hp !! fh with
    | Some k =>
        let '(k', r) :=
          refreshPC (refreshed <? 10) (settings_scaledVarTH s)
                    (settings_absVarTH s) (settings_pointCloudMode s)
                    (settings_minRelBS s) (settings_sparsity s) k in
        (<[fh := k']> hp, r)
    | None => (hp, false)
    end in
  (hp', add_int32 refreshed (if r then 1 else 0),
   tr ++ cam ++ [RefreshPC fh; DrawPC fh]).

(** The 3D part of an iteration, run when [setting_render_display3D]. *)
Definition render3D (st : State) : State * list event :=
  let m := model st in
  let '(hp, _, tr) :=
    foldl (draw_keyframe (settings st)) (heap m, 0, []) (keyframes m) in
  let st1 :=
    with_model (fun m =>
      mkModelState hp (currentCam m) (keyframes m) (keyframesByKFID m)
                   (allFramePoses m) (connections m) (last_track m)
                   (lastNTrackingMs m)) st in
  (st1,
   [Activate Visualization3D_display; Lock model3DMutex]
   ++ tr
   ++ (if settings_showCurrentCamera (settings st)
       then [DrawCam (currentCam m)] else [])
   ++ drawConstraints st1
   ++ [Unlock model3DMutex]).

(** The uploads of the buffers that changed, and the flags cleared. *)
Definition upload_images (st : State) : State * list event :=
  let i := images st in
  (with_images (fun i =>
     mkImageState (internalVideoImg i) (internalKFImg i) (internalResImg i)
                  false false false (last_map i) (lastNMappingMs i)) st,
   [Lock openImagesMutex]
   ++ (if videoImgChanged i
       then [Upload texVideo (data (internalVideoImg i))] else [])
   ++ (if kfImgChanged i
       then [Upload texKFDepth (data (internalKFImg i))] else [])
   ++ (if resImgChanged i
       then [Upload texResidual (data (internalResImg i))] else [])
   ++ [Unlock openImagesMutex]).

(** The two rates, each computed and assigned to its read-out of the panel
    ([settings_mapFps], [settings_trackFps], both [pangolin::Var<double>])
    under the lock of its window. *)
Definition update_fps (st : State) : State * list event :=
  let map_rate := window_rate (lastNMappingMs (images st)) in
  let track_rate := window_rate (lastNTrackingMs (model st)) in
  (mkState (w st) (h st) (running st) (needReset st) (images st) (model st)
           (settings st) (globals st) track_rate map_rate,
   [Lock openImagesMutex; SetMapFps map_rate; Unlock openImagesMutex;
    Lock model3DMutex; SetTrackFps track_rate; Unlock model3DMutex]).

(** The three textures drawn to their views. *)
Definition render_textures (st : State) : list event :=
  let g := globals st in
  (if setting_render_displayVideo g
   then [Activate d_video; GlColor4f; RenderToViewportFlipY texVideo] else [])
  ++ (if setting_render_displayDepth g
      then [Activate d_kfDepth; GlColor4f; RenderToViewportFlipY texKFDepth]
      else [])
  ++ (if setting_render_displayResidual g
      then [Activate d_residual; GlColor4f; RenderToViewportFlipY texResidual]
      else []).

(** The panel copied into the members and the globals. *)
Definition update_parameters (p : Panel) (st : State) : State * list event :=
  let g := globals st in
  (mkState (w st) (h st) (running st) (needReset st) (images st) (model st)
     (mkViewerSettings (ui_PC_mode p) (ui_KFCam p) (ui_CurrCam p)
        (ui_Trajectory p) (ui_FullTrajectory p) (ui_ActiveConst p)
        (ui_AllConst p) (ui_absVarTH p) (ui_relVarTH p) (ui_minRelativeBS p)
        (ui_sparsity p))
     (mkGlobals (disableAllDisplay g) (ui_show3D p) (ui_showDepth p)
        (ui_showVideo p) (ui_showResidual p) (ui_showFramesWindow p)
        (ui_showFullTracking p) (ui_showCoarseTracking p)
        (ui_activePoints p) (ui_pointCandidates p) (ui_maxFrames p)
        (ui_kfFrequency p) (ui_minGradAdd p)
        (if ui_Reset p then true else setting_fullResetRequested g))
     (settings_trackFps st) (settings_mapFps st),
   if ui_Reset p then [LogWarning; ResetButtonReset] else []).

(** The events of [reset_internal]. *)
Definition reset_internal_events : list event :=
  [Lock model3DMutex; Unlock model3DMutex;
   Lock openImagesMutex; Unlock openImagesMutex].

(** The body of [while (!pangolin::ShouldQuit() && running)] in [run], for
    the panel values [p] of this iteration. *)
Definition run_iteration (p : Panel) (st : State) : State * list event :=
  let '(st1, tr1) :=
    if setting_render_display3D (globals st) then render3D st else (st, []) in
  let '(st2, tr2) := upload_images st1 in
  let '(st3, tr3) := update_fps st2 in
  let tr4 := render_textures st3 in
  let '(st5, tr5) := update_parameters p st3 in
  let '(st6, tr6) :=
    if needReset st5 then (reset_internal st5, reset_internal_events)
    else (st5, []) in
  (st6, [GlClear] ++ tr1 ++ tr2 ++ tr3 ++ tr4 ++ tr5 ++ [FinishFrame] ++ tr6).

(** ** Calls from the threads of the pipeline *)

Inductive call :=
| CallPublishGraph (connectivity : gmap Z Vector2i)
| CallPublishKeyframes (frames : list FrameHessian) (final : bool)
                       (HCalib : CalibHessian)
| CallPublishCamPose (frame : FrameShell) (HCalib : CalibHessian)
                     (time_now : timeval)
| CallPushLiveFrame (image : FrameHessian)
| CallPushDepthImage (image : MinimalImageB3) (time_now : timeval)
| CallReset
| CallClose
| CallIterate (p : Panel).

(** The state after a call that returns. An iteration of the render loop
    happens only while the loop condition holds. *)
Definition step (c : call) (st : State) : option State :=
  match c with
  | CallPublishGraph connectivity =>
      match publishGraph connectivity st with
      | Returned st' => Some st'
      | _ => None
      end
  | CallPublishKeyframes frames final HCalib =>
      Some (publishKeyframes frames final HCalib st)
  | CallPublishCamPose frame HCalib time_now =>
      Some (publishCamPose frame HCalib time_now st)
  | CallPushLiveFrame image => Some (pushLiveFrame image st)
  | CallPushDepthImage image time_now =>
      Some (pushDepthImage image time_now st)
  | CallReset => Some (reset st)
  | CallClose => Some (close st)
  | CallIterate p =>
      if (negb (ui_ShouldQuit p) && running st)%bool
      then Some (run_iteration p st).1 else None
  end.

(** The states the viewer goes through, from its construction on. *)
Inductive reachable : State -> Prop :=
| reach_new w h cfg g track0 map0 :
    reachable (PangolinDSOViewer w h cfg g track0 map0)
| reach_step c st st' : reachable st -> step c st = Some st' -> reachable st'.

End Viewer.

(** ** Vocabulary of the properties *)

Section Vocabulary.
Context `{C : Collaborators} `{A : Allocator}.

(** The state in which the iteration tests [needReset]. *)
Definition before_reset_test (p : Panel) (st : State) : State :=
  let st1 :=
    if setting_render_display3D (globals st) then (render3D st).1 else st in
  (update_parameters p (update_fps (upload_images st1).1).1).1.

(** Both windows hold at most ten intervals. *)
Definition windows_bounded (st : State) : Prop :=
  (length (lastNTrackingMs (model st)) <= 10)%nat
  /\ (length (lastNMappingMs (images st)) <= 10)%nat.

(** The list and the map hold the same handles, and as many. *)
Definition same_handles (m : ModelState) : Prop :=
  (forall p, p ∈ keyframes m <-> exists id, keyframesByKFID m !! id = Some p)
  /\ length (keyframes m) = size (keyframesByKFID m).

(** The registry invariant: besides [same_handles], no handle is listed
    twice, no handle is registered under two identifiers, and every listed
    handle is a live object, not null. *)
Definition registry_ok (m : ModelState) : Prop :=
  same_handles m
  /\ NoDup (keyframes m)
  /\ (forall id1 id2 p,
        keyframesByKFID m !! id1 = Some p ->
        keyframesByKFID m !! id2 = Some p -> id1 = id2)
  /\ (forall p, p ∈ keyframes m -> is_Some (heap m !! p))
  /\ null ∉ keyframes m.

(** *** Connectivity *)

(** The keys of a connectivity map are [uint64_t] values. *)
Definition valid_keys (connectivity : gmap Z Vector2i) : Prop :=
  map_Forall (fun k _ => 0 <= k < 2 ^ 64) connectivity.

(** An entry the loop of [publishGraph] writes a record for. *)
Definition forward_entry (p : Z * Vector2i) : Prop :=
  decode_host p.1 < decode_target p.1.
Global Instance forward_entry_dec p : Decision (forward_entry p).
Proof. unfold forward_entry. apply _. Defined.

(** The record of a forward entry: its own counts forward, the counts of
    the inverse key backward, the endpoints as the registry resolves them. *)
Definition record_for (byid : gmap Z ptr) (connectivity : gmap Z Vector2i)
    (p : Z * Vector2i) : option GraphConnection :=
  match connectivity !! inverseKey (decode_host p.1) (decode_target p.1) with
  | None => None
  | Some st =>
      Some (mkConn (resolve byid (decode_host p.1))
                   (resolve byid (decode_target p.1))
                   (v1 p.2) (v1 st) (v0 p.2) (v0 st))
  end.

(** The records of the forward entries, by ascending key. *)
Definition written_records (byid : gmap Z ptr)
    (connectivity : gmap Z Vector2i) : list GraphConnection :=
  omap (record_for byid connectivity)
       (filter forward_entry (entries_in_order connectivity)).

(** The unordered pair a key stands for. *)
Definition unordered_pair_of (key : Z) : Z * Z :=
  (Z.min (decode_host key) (decode_target key),
   Z.max (decode_host key) (decode_target key)).

(** The unordered pairs with host and target different that occur among
    the keys of a map, each once. *)
Definition unordered_pairs (connectivity : gmap Z Vector2i) : gset (Z * Z) :=
  list_to_set
    (unordered_pair_of
       <$> filter (fun k => decode_host k <> decode_target k)
                  (map_to_list connectivity).*1).

(** A self-pair entry with a count that is not zero. *)
Definition bad_self_pair (k : Z) (v : Vector2i) : Prop :=
  decode_host k = decode_target k /\ (v0 v <> 0 \/ v1 v <> 0).
Global Instance bad_self_pair_dec k v : Decision (bad_self_pair k v).
Proof. unfold bad_self_pair. apply _. Defined.

(** Every key decodes to a host and a target that are not negative. *)
Definition nonnegative_ids (connectivity : gmap Z Vector2i) : Prop :=
  map_Forall (fun k _ => 0 <= decode_host k /\ 0 <= decode_target k)
             connectivity.

(** Every key with host below target has its inverse key in the map. *)
Definition inverse_keys_present (connectivity : gmap Z Vector2i) : Prop :=
  map_Forall
    (fun k _ =>
       decode_host k < decode_target k ->
       is_Some (connectivity !! inverseKey (decode_host k) (decode_target k)))
    connectivity.

(** The specification's reading of a publish: the list holds at most one
    record for each unordered pair of the input, and nothing but records of
    this publish. *)
Definition rebuilt_wholesale (byid : gmap Z ptr)
    (connectivity : gmap Z Vector2i) (cs : list GraphConnection) : Prop :=
  (length cs <= size (unordered_pairs connectivity))%nat
  /\ forall c, c ∈ cs -> c ∈ written_records byid connectivity.

(** The specification's reading of the check: the publish dies on a check
    exactly when some self-pair carries a count that is not zero. *)
Definition fatal_iff_bad_self_pair (connectivity : gmap Z Vector2i)
    (st : State) : Prop :=
  publishGraph connectivity st = CheckFailed
  <-> map_Exists bad_self_pair connectivity.

(** The key [(host << 32) + target] of a connectivity map. *)
Definition pair_key (host target : Z) : Z := host * 2 ^ 32 + target.

(** The connectivity [{(1,2):[3,0], (2,1):[0,1]}]. *)
Definition graph_1_2 : gmap Z Vector2i :=
  <[pair_key 1 2 := mkVector2i 3 0]> (<[pair_key 2 1 := mkVector2i 0 1]> ∅).

(** *** Locks and presenter calls in a trace *)

(** Which of the two locks the render thread holds. *)
Record held := mkHeld { holds_images : bool; holds_model : bool }.

Definition no_lock : held := mkHeld false false.

Definition holds (m : mutex) (hd : held) : bool :=
  match m with
  | openImagesMutex => holds_images hd
  | model3DMutex => holds_model hd
  end.

Definition after_event (hd : held) (e : event) : held :=
  match e with
  | Lock openImagesMutex => mkHeld true (holds_model hd)
  | Lock model3DMutex => mkHeld (holds_images hd) true
  | Unlock openImagesMutex => mkHeld false (holds_model hd)
  | Unlock model3DMutex => mkHeld (holds_images hd) false
  | _ => hd
  end.

Definition held_after (hd : held) (tr : list event) : held :=
  foldl after_event hd tr.

(** [respects allowed hd tr]: every event of [tr] is allowed under the
    locks held when it happens, starting with [hd]. *)
Fixpoint respects (allowed : held -> event -> bool) (hd : held)
    (tr : list event) : bool :=
  match tr with
  | [] => true
  | e :: tr' => allowed hd e && respects allowed (after_event hd e) tr'
  end.

(** The drawing of the 3D model: the drawing members of [KeyFrameDisplay]
    and the OpenGL primitives of [drawConstraints]. *)
Definition is_draw3D (e : event) : bool :=
  match e with
  | DrawCam _ | RefreshPC _ | DrawPC _ | GlLineWidth _ | GlBegin _
  | GlColor3f _ _ _ | GlVertex3f _ | GlEnd => true
  | _ => false
  end.

Definition is_lock_event (e : event) : bool :=
  match e with
  | Lock _ | Unlock _ => true
  | _ => false
  end.

(** The discipline as the specification words it: a call to the presenter
    happens only while no lock is held. *)
Definition calls_outside_locks (hd : held) (e : event) : bool :=
  is_lock_event e || (negb (holds_images hd) && negb (holds_model hd)).

(** The discipline of the code: a lock is taken only while none is held
    and released only while held; the 3D model is drawn and the read-out
    of the tracking rate is assigned under [model3DMutex] alone, a texture
    is uploaded and the read-out of the mapping rate is assigned under
    [openImagesMutex] alone, and every other call happens while no lock is
    held. *)
Definition code_discipline (hd : held) (e : event) : bool :=
  match e with
  | Lock _ => negb (holds_images hd) && negb (holds_model hd)
  | Unlock m => holds m hd
  | Upload _ _ | SetMapFps _ => holds_images hd && negb (holds_model hd)
  | SetTrackFps _ => holds_model hd && negb (holds_images hd)
  | _ =>
      if is_draw3D e then holds_model hd && negb (holds_images hd)
      else negb (holds_images hd) && negb (holds_model hd)
  end.

(** A trace that starts and ends with no lock held and follows the
    discipline of the code in between. *)
Definition balanced (tr : list event) : Prop :=
  respects code_discipline no_lock tr = true /\ held_after no_lock tr = no_lock.

(** *** Runs *)

(** The calls of a list, one after the other, while each returns. *)
Fixpoint exec (calls : list call) (st : State) : option State :=
  match calls with
  | [] => Some st
  | c :: rest =>
      match step c st with
      | Some st' => exec rest st'
      | None => None
      end
  end.

End Vocabulary.

(** ** The loop of [run] and the vocabulary of further properties *)

Section Loop.
Context `{C : Collaborators} `{A : Allocator}.

(** The loop [while (!pangolin::ShouldQuit() && running)] of [run()] and
    what follows it, for the panel values of the successive iterations.
    The result is the last state, the events, and whether the loop was
    left: then the two warnings are logged and [exit(1)] ends the process.
    ([false]: the panel values ran out with the loop still going.) *)
Fixpoint run_loop (panels : list Panel) (st : State)
  : State * list event * bool :=
  match panels with
  | [] => (st, [], false)
  | p :: rest =>
      if (negb (ui_ShouldQuit p) && running st)%bool then
        let '(st1, tr1) := run_iteration p st in
        let '(st2, tr2, exited) := run_loop rest st1 in
        (st2, tr1 ++ tr2, exited)
      else (st, [LogWarning; LogWarning], true)
  end.

Definition is_upload (e : event) : bool :=
  match e with
  | Upload _ _ => true
  | _ => false
  end.

Definition is_begin (e : event) : bool :=
  match e with
  | GlBegin _ => true
  | _ => false
  end.

Definition is_end (e : event) : bool :=
  match e with
  | GlEnd => true
  | _ => false
  end.

Definition is_vertex (e : event) : bool :=
  match e with
  | GlVertex3f _ => true
  | _ => false
  end.

(** The events of a trace that satisfy [f], and their number. *)
Definition events_of (f : event -> bool) (tr : list event) : list event :=
  filter (fun e => f e = true) tr.

Definition count_events (f : event -> bool) (tr : list event) : nat :=
  length (events_of f tr).

(** The uploads an iteration owes to the dirty flags of a state. *)
Definition dirty_uploads (i : ImageState) : list event :=
  (if videoImgChanged i
   then [Upload texVideo (data (internalVideoImg i))] else [])
  ++ (if kfImgChanged i
      then [Upload texKFDepth (data (internalKFImg i))] else [])
  ++ (if resImgChanged i
      then [Upload texResidual (data (internalResImg i))] else []).

(** Every pixel of a buffer is black. *)
Definition all_black (img : MinimalImageB3) : Prop :=
  Forall (fun px => px = black) (data img).

(** The live [KeyFrameDisplay] objects are the current camera and the
    listed keyframes, and the current camera is not one of the keyframes. *)
Definition heap_ok (m : ModelState) : Prop :=
  currentCam m <> null
  /\ (currentCam m ∉ keyframes m)
  /\ (dom (heap m) = {[ currentCam m ]} ∪ list_to_set (keyframes m)).

(** An endpoint of a connection record: null, or a listed keyframe. *)
Definition endpoint_ok (m : ModelState) (p : ptr) : Prop :=
  p = null \/ p ∈ keyframes m.

Definition endpoints_ok (m : ModelState) : Prop :=
  forall c, c ∈ connections m ->
            endpoint_ok m (from c) /\ endpoint_ok m (to c).

(** Every key with host and target different has its inverse key. *)
Definition symmetric_keys (connectivity : gmap Z Vector2i) : Prop :=
  map_Forall
    (fun k _ =>
       decode_host k <> decode_target k ->
       is_Some (connectivity !! inverseKey (decode_host k) (decode_target k)))
    connectivity.

(** An entry that lets the loop of [publishGraph] go on. *)
Definition entry_passes (connectivity : gmap Z Vector2i) (p : Z * Vector2i)
  : Prop :=
  0 <= decode_host p.1 /\ 0 <= decode_target p.1
  /\ ~ bad_self_pair p.1 p.2
  /\ (decode_host p.1 < decode_target p.1 ->
      is_Some (connectivity
                 !! inverseKey (decode_host p.1) (decode_target p.1))).

(** An entry on which a [CHECK] fails. *)
Definition entry_fails_check (p : Z * Vector2i) : Prop :=
  decode_host p.1 < 0 \/ decode_target p.1 < 0 \/ bad_self_pair p.1 p.2.

(** An entry on which [at] throws. *)
Definition entry_throws (connectivity : gmap Z Vector2i) (p : Z * Vector2i)
  : Prop :=
  0 <= decode_host p.1 /\ decode_host p.1 < decode_target p.1
  /\ connectivity !! inverseKey (decode_host p.1) (decode_target p.1) = None.

(** A buffer as the constructor leaves it: [w * h] pixels, all black. *)
Definition black_buffer (w h : Z) (img : MinimalImageB3) : Prop :=
  length (data img) = Z.to_nat (w * h) /\ all_black img.

(** The model and the buffers of a viewer nothing was ever published to. *)
Definition untouched (st : State) : Prop :=
  keyframes (model st) = []
  /\ keyframesByKFID (model st) = ∅
  /\ connections (model st) = []
  /\ allFramePoses (model st) = []
  /\ lastNTrackingMs (model st) = []
  /\ lastNMappingMs (images st) = []
  /\ black_buffer (w st) (h st) (internalVideoImg (images st))
  /\ black_buffer (w st) (h st) (internalKFImg (images st))
  /\ black_buffer (w st) (h st) (internalResImg (images st)).

(** The intervals between successive clock readings, from [last] on. *)
Fixpoint intervals (last : timeval) (ts : list timeval) : list spec_float :=
  match ts with
  | [] => []
  | t :: rest => elapsed_ms last t :: intervals t rest
  end.

(** Camera poses published one after the other. *)
Definition publish_poses (HCalib : CalibHessian)
    (poses : list (FrameShell * timeval)) (st : State) : State :=
  foldl (fun st ft => publishCamPose ft.1 HCalib ft.2 st) st poses.

(** The three textures drawn to their views, for the three display flags. *)
Definition is_texture_render (e : event) : bool :=
  match e with RenderToViewportFlipY _ => true | _ => false end.

Definition textures_shown (video depth residual : bool) : list event :=
  (if video then [RenderToViewportFlipY texVideo] else [])
  ++ (if depth then [RenderToViewportFlipY texKFDepth] else [])
  ++ (if residual then [RenderToViewportFlipY texResidual] else []).

Definition is_activate3D (e : event) : bool :=
  match e with Activate Visualization3D_display => true | _ => false end.

(** The two read-outs of the panel an iteration assigns: the mapping rate,
    then the tracking rate, from the windows as they are. *)
Definition is_readout (e : event) : bool :=
  match e with SetMapFps _ | SetTrackFps _ => true | _ => false end.

Definition readouts (st : State) : list event :=
  [SetMapFps (window_rate (lastNMappingMs (images st)));
   SetTrackFps (window_rate (lastNTrackingMs (model st)))].

(** The calls that feed the two windows of intervals. *)
Definition is_pose_call (c : call) : bool :=
  match c with CallPublishCamPose _ _ _ => true | _ => false end.

Definition is_depth_call (c : call) : bool :=
  match c with CallPushDepthImage _ _ => true | _ => false end.

End Loop.

(** ** A concrete set of collaborators

    Used to run the viewer on explicit inputs. *)
Module Sample.

(** Modelled from the spec: a KeyframeHandle ([KeyFrameDisplay],
    io_wrapper/pangolin/keyframe_display.h is not under src/) has a stable
    integer identifier, a current camera-to-world pose and a point cloud
    that is refreshed lazily; setting it from a frame refreshes the pose
    and marks it eligible for a refresh, and a refresh happens only while
    the budget of the iteration allows it. *)
Record Handle := mkHandle {
  h_id : Z; h_position : Vec3f; h_needRefresh : bool
}.

(** A frame as a publisher hands it over: identifier, position, and the
    intensity of each pixel. *)
Record Frame := mkFrame {
  fr_id : Z; fr_position : Vec3f; fr_intensity : list spec_float
}.

Definition origin : Vec3f := mkVec3f F32.zero F32.zero F32.zero.

#[export] Instance collaborators : Collaborators := {|
  KeyFrameDisplay := Handle;
  FrameHessian := Frame;
  FrameShell := Frame;
  CalibHessian := unit;
  kfd_new := mkHandle 0 origin false;
  setFromKF fh _ k := mkHandle (fr_id fh) (fr_position fh) true;
  setFromF fr _ k := mkHandle (fr_id fr) (fr_position fr) true;
  refreshPC can _ _ _ _ _ k :=
    if (can && h_needRefresh k)%bool
    then (mkHandle (h_id k) (h_position k) false, true)
    else (k, false);
  kfd_translation := h_position;
  frameID := fr_id;
  dI0 fh i := nth i (fr_intensity fh) F32.zero;
  shell_translation := fr_position
|}.

(** An allocator: the least address that is neither null nor live. *)
Definition next_free (live : gset ptr) : ptr := fresh ({[ null ]} ∪ live).

#[export] Instance allocator : Allocator.
Proof.
  refine {| alloc := next_free |}.
  - intros live E. apply (is_fresh ({[ null ]} ∪ live)).
    unfold next_free in E. rewrite E. set_solver.
  - intros live E. apply (is_fresh ({[ null ]} ∪ live)). set_solver.
Defined.

Definition settings0 : ViewerSettings :=
  mkViewerSettings 1 false true true false true false
                   (F32.of_Z 1) (F32.of_Z 1) (F32.of_Z 0) 1.

(** Every display switched on. *)
Definition globals_on : Globals :=
  mkGlobals false true true true true false false false
            2000 1500 7 (F32.of_Z 1) (F32.of_Z 7) false.

(** [disableAllDisplay] set. *)
Definition globals_off : Globals :=
  mkGlobals true true true true true false false false
            2000 1500 7 (F32.of_Z 1) (F32.of_Z 7) false.

Definition panel0 : Panel :=
  mkPanel 1 false true true false true false true true true false
          false false false 1 (F32.of_Z 1) (F32.of_Z 1) (F32.of_Z 0)
          false 2000 1500 7 (F32.of_Z 1) (F32.of_Z 7) false.

Definition t0 : timeval := mkTimeval 0 0.

(** A viewer of 2 x 1 pixels, just constructed. *)
Definition viewer_on : State :=
  PangolinDSOViewer 2 1 settings0 globals_on t0 t0.
Definition viewer_off : State :=
  PangolinDSOViewer 2 1 settings0 globals_off t0 t0.

Definition frame (id : Z) : Frame :=
  mkFrame id origin [F32.of_Z 100; F32.of_Z 400].

(** The viewer after the keyframes 1, 2 and 3 were published. *)
Definition viewer_kf : State :=
  publishKeyframes [frame 1; frame 2; frame 3] true tt viewer_on.

(** The state a publish of [connectivity] returns with. *)
Definition after_graph (connectivity : gmap Z Vector2i) (st : State) : State :=
  match publishGraph connectivity st with
  | Returned st' => st'
  | _ => st
  end.

(** The pairs (1,2) and (1,3), both ways. *)
Definition graph_12_13 : gmap Z Vector2i :=
  <[pair_key 1 2 := mkVector2i 5 0]>
    (<[pair_key 2 1 := mkVector2i 0 0]>
       (<[pair_key 1 3 := mkVector2i 2 1]>
          (<[pair_key 3 1 := mkVector2i 1 0]> ∅))).

(** The viewer after [graph_12_13] was published. *)
Definition viewer_12_13 : State := after_graph graph_12_13 viewer_kf.

(** The record that publish wrote for the pair (1,3): the handles at 2
    and 4, forward counts (2,1), backward counts (1,0). *)
Definition record_1_3 : GraphConnection := mkConn 2%N 4%N 1 0 2 1.

(** The panel with [ui.show3D] unticked. *)
Definition panel_hide3D : Panel :=
  mkPanel 1 false true true false true false false true true false
          false false false 1 (F32.of_Z 1) (F32.of_Z 1) (F32.of_Z 0)
          false 2000 1500 7 (F32.of_Z 1) (F32.of_Z 7) false.

(** The same viewer after an iteration that reads this panel: the 3D
    display is off from then on. *)
Definition viewer_12_13_hidden : State :=
  (run_iteration panel_hide3D viewer_12_13).1.

(** One key whose host has the top bit set; no self-pair. *)
Definition graph_negative_host : gmap Z Vector2i :=
  {[ pair_key (2 ^ 31) 1 := mkVector2i 0 0 ]}.

(** One self-pair with an active count of 1. *)
Definition graph_self_nonzero : gmap Z Vector2i :=
  {[ pair_key 3 3 := mkVector2i 1 0 ]}.

(** The pair (1,2) without its inverse key, and the self-pair of
    [graph_self_nonzero]. *)
Definition graph_missing_inverse : gmap Z Vector2i :=
  <[pair_key 1 2 := mkVector2i 1 1]> graph_self_nonzero.

(** The pair (1,2) without its inverse key, and nothing else. *)
Definition graph_missing_inverse_only : gmap Z Vector2i :=
  {[ pair_key 1 2 := mkVector2i 1 1 ]}.

(** Both ways of the pair (1,2) and a self-pair with counts zero. *)
Definition graph_self_zero : gmap Z Vector2i :=
  <[pair_key 2 2 := mkVector2i 0 0]> graph_1_2.

(** The clock at [ms] milliseconds. *)
Definition clock (ms : Z) : timeval :=
  mkTimeval (ms / 1000) (ms mod 1000 * 1000).

(** Camera poses published at the given times. *)
Definition ticks (times : list Z) : list call :=
  map (fun ms => CallPublishCamPose (frame 0) tt (clock ms)) times.

(** The state after the calls, or the state before if one does not
    return. *)
Definition run_calls (calls : list call) (st : State) : State :=
  match exec calls st with
  | Some st' => st'
  | None => st
  end.

(** Ten poses, 100 ms apart, the first 100 ms after the clock value the
    viewer was constructed with. *)
Definition ten_ticks : list call :=
  ticks [100; 200; 300; 400; 500; 600; 700; 800; 900; 1000].

Definition viewer_10_ticks : State := run_calls ten_ticks viewer_on.

(** An eleventh pose, 250 ms later. *)
Definition viewer_11_ticks : State := run_calls (ticks [1250]) viewer_10_ticks.

(** A depth image of 2 x 1 pixels. *)
Definition depth_image : MinimalImageB3 :=
  mkImage 2 1 [mkVec3b 10 20 30; mkVec3b 40 50 60].

(** Eleven poses, 100 ms apart. *)
Definition eleven_poses : list (Frame * timeval) :=
  map (fun ms => (frame 0, clock ms))
      [100; 200; 300; 400; 500; 600; 700; 800; 900; 1000; 1100].

(** Calls made to a viewer with all display disabled. *)
Definition calls_while_disabled : list call :=
  [CallPublishKeyframes (C := collaborators) [frame 1; frame 2] true tt;
   CallPublishGraph graph_1_2;
   CallPublishCamPose (frame 0) tt (clock 100);
   CallPushLiveFrame (frame 1);
   CallPushDepthImage depth_image (clock 200);
   CallReset;
   CallIterate panel0].

Definition viewer_off_after_calls : State :=
  run_calls calls_while_disabled viewer_off.

(** The panel with the reset button pressed. *)
Definition panel_reset : Panel :=
  mkPanel 1 false true true false true false true true true false
          false false false 1 (F32.of_Z 1) (F32.of_Z 1) (F32.of_Z 0)
          true 2000 1500 7 (F32.of_Z 1) (F32.of_Z 7) false.

End Sample.

(** * Properties *)

Section BasicProperties.
Context `{C : Collaborators} `{A : Allocator}.

Lemma setBlack_data (img : MinimalImageB3) :
  data (setBlack img) = replicate (length (data img)) black.
Proof. reflexivity. Qed.

Lemma setBlack_all_black (img : MinimalImageB3) (px : Vec3b) :
  px ∈ data (setBlack img) -> px = black.
Proof. rewrite setBlack_data. intros H. by apply elem_of_replicate in H as [-> _]. Qed.

Lemma setBlack_length (img : MinimalImageB3) :
  length (data (setBlack img)) = length (data img).
Proof. rewrite setBlack_data. apply length_replicate. Qed.

(** C5. After [reset_internal] the keyframe list and the map keyed by
    identifier are empty, the connection list and the trajectory log are
    empty, each of the three buffers is the blacked-out value of what it
    was (same size, every pixel black), the three dirty flags are set and
    the pending-reset flag is cleared. *)
Theorem reset_internal_clears_everything (st : State) :
  let st' := reset_internal st in
  keyframes (model st') = []
  /\ keyframesByKFID (model st') = ∅
  /\ connections (model st') = []
  /\ allFramePoses (model st') = []
  /\ internalVideoImg (images st') = setBlack (internalVideoImg (images st))
  /\ internalKFImg (images st') = setBlack (internalKFImg (images st))
  /\ internalResImg (images st') = setBlack (internalResImg (images st))
  /\ (forall px, px ∈ data (internalVideoImg (images st'))
                 ∨ px ∈ data (internalKFImg (images st'))
                 ∨ px ∈ data (internalResImg (images st')) -> px = black)
  /\ videoImgChanged (images st') = true
  /\ kfImgChanged (images st') = true
  /\ resImgChanged (images st') = true
  /\ needReset st' = false.
Proof.
  cbn. repeat split.
  intros px [H | [H | H]]; eapply setBlack_all_black; exact H.
Qed.

Lemma render3D_needReset (st : State) :
  needReset (render3D st).1 = needReset st.
Proof.
  unfold render3D. by destruct (foldl _ _ _) as [[hp n] tr].
Qed.

(** When a reset is pending, the iteration ends with [reset_internal]. *)
Lemma run_iteration_reset_pending (p : Panel) (st : State) :
  needReset st = true ->
  exists st5 tr,
    needReset st5 = true
    /\ run_iteration p st = (reset_internal st5, tr ++ reset_internal_events).
Proof.
  intros Hn. unfold run_iteration.
  destruct (if setting_render_display3D (globals st) then render3D st
            else (st, [])) as [st1 tr1] eqn:E1.
  assert (H1 : needReset st1 = true).
  { destruct (setting_render_display3D (globals st)).
    - rewrite <- Hn, <- (render3D_needReset st). by rewrite E1.
    - by inversion E1; subst. }
  destruct (upload_images st1) as [st2 tr2] eqn:E2.
  assert (H2 : needReset st2 = true) by (by inversion E2; subst).
  destruct (update_fps st2) as [st3 tr3] eqn:E3.
  assert (H3 : needReset st3 = true) by (by inversion E3; subst).
  destruct (update_parameters p st3) as [st5 tr5] eqn:E5.
  assert (H5 : needReset st5 = true) by (by inversion E5; subst).
  rewrite H5.
  exists st5,
    ([GlClear] ++ tr1 ++ tr2 ++ tr3 ++ render_textures st3 ++ tr5
     ++ [FinishFrame]).
  split; [exact H5 | ]. f_equal. by rewrite <- !app_assoc.
Qed.

(** C8. Two calls of [reset] before the render loop looks at the request
    leave the viewer as one call does; the next iteration of the loop is
    then the same in both cases, it runs [reset_internal] once, as its last
    step, and leaves the request cleared. *)
Theorem reset_twice_as_once (p : Panel) (st : State) :
  reset (reset st) = reset st
  /\ reset st = with_needReset true st
  /\ run_iteration p (reset (reset st)) = run_iteration p (reset st)
  /\ (exists st5 tr,
        needReset st5 = true
        /\ run_iteration p (reset st)
           = (reset_internal st5, tr ++ reset_internal_events))
  /\ needReset (run_iteration p (reset st)).1 = false.
Proof.
  assert (E : reset (reset st) = reset st) by reflexivity.
  destruct (run_iteration_reset_pending p (reset st) eq_refl)
    as (st5 & tr & H5 & Hrun).
  repeat split; try reflexivity.
  - exists st5, tr. by split.
  - by rewrite Hrun.
Qed.

(** C9. When all display is disabled, or the live video is not displayed,
    [pushLiveFrame] changes nothing: the three buffers and the three dirty
    flags are what they were. *)
Theorem pushLiveFrame_disabled_is_noop (image : FrameHessian) (st : State) :
  disableAllDisplay (globals st) = true
  \/ setting_render_displayVideo (globals st) = false ->
  let st' := pushLiveFrame image st in
  st' = st
  /\ internalVideoImg (images st') = internalVideoImg (images st)
  /\ internalKFImg (images st') = internalKFImg (images st)
  /\ internalResImg (images st') = internalResImg (images st)
  /\ videoImgChanged (images st') = videoImgChanged (images st)
  /\ kfImgChanged (images st') = kfImgChanged (images st)
  /\ resImgChanged (images st') = resImgChanged (images st).
Proof.
  intros Hoff. cbn zeta.
  assert (E : pushLiveFrame image st = st).
  { unfold pushLiveFrame. destruct Hoff as [-> | ->]; [reflexivity | ].
    by rewrite orb_true_r. }
  rewrite E. repeat split.
Qed.

End BasicProperties.

(** ** The state after an iteration of the render loop *)

Section Iteration.
Context `{C : Collaborators} `{A : Allocator}.

Lemma run_iteration_state (p : Panel) (st : State) :
  (run_iteration p st).1
  = if needReset st then reset_internal (before_reset_test p st)
    else before_reset_test p st.
Proof.
  unfold run_iteration, before_reset_test.
  assert (Hn : needReset
                 (if setting_render_display3D (globals st)
                  then (render3D st).1 else st) = needReset st).
  { destruct (setting_render_display3D (globals st)); [ | done ].
    apply render3D_needReset. }
  destruct (setting_render_display3D (globals st));
    [ destruct (render3D st) as [st1 tr1] | ];
    cbn in *; try rewrite Hn; by destruct (needReset st).
Qed.

(** Refreshing the point clouds keeps the set of live handles. *)
Lemma draw_keyframes_live (s : ViewerSettings) (l : list ptr)
    (acc : gmap ptr KeyFrameDisplay * Z * list event) (q : ptr) :
  is_Some ((foldl (draw_keyframe s) acc l).1.1 !! q) <-> is_Some (acc.1.1 !! q).
Proof.
  revert acc. induction l as [ | fh l IH]; intros acc; [ done | ].
  cbn [foldl]. rewrite IH. destruct acc as [[hp n] tr]. unfold draw_keyframe.
  destruct (hp !! fh) as [k | ] eqn:E; [ | done ].
  destruct (refreshPC _ _ _ _ _ _ k) as [k' r]. cbn [fst].
  destruct (decide (fh = q)) as [-> | Hne].
  - rewrite lookup_insert_eq, E. split; eauto.
  - by rewrite lookup_insert_ne.
Qed.

(** What the 3D part of an iteration leaves as it was. *)
Lemma render3D_frame (st : State) :
  let st' := (render3D st).1 in
  images st' = images st
  /\ globals st' = globals st
  /\ settings st' = settings st
  /\ keyframes (model st') = keyframes (model st)
  /\ keyframesByKFID (model st') = keyframesByKFID (model st)
  /\ connections (model st') = connections (model st)
  /\ allFramePoses (model st') = allFramePoses (model st)
  /\ lastNTrackingMs (model st') = lastNTrackingMs (model st)
  /\ (forall q, is_Some (heap (model st') !! q) <-> is_Some (heap (model st) !! q)).
Proof.
  cbn zeta. unfold render3D.
  pose proof (draw_keyframes_live (settings st) (keyframes (model st))
                (heap (model st), 0, [])) as Hl.
  destruct (foldl _ _ _) as [[hp n] tr]. cbn in *. repeat split; apply Hl.
Qed.

(** What an iteration without a pending reset leaves as it was. *)
Lemma before_reset_test_frame (p : Panel) (st : State) :
  let st' := before_reset_test p st in
  keyframes (model st') = keyframes (model st)
  /\ keyframesByKFID (model st') = keyframesByKFID (model st)
  /\ connections (model st') = connections (model st)
  /\ lastNTrackingMs (model st') = lastNTrackingMs (model st)
  /\ lastNMappingMs (images st') = lastNMappingMs (images st)
  /\ settings_trackFps st' = window_rate (lastNTrackingMs (model st))
  /\ settings_mapFps st' = window_rate (lastNMappingMs (images st))
  /\ (forall q, is_Some (heap (model st') !! q) <-> is_Some (heap (model st) !! q)).
Proof.
  cbn zeta. unfold before_reset_test.
  destruct (setting_render_display3D (globals st)); [ | cbn; by repeat split ].
  destruct (render3D_frame st)
    as (Hi & _ & _ & Hk & Hm & Hc & _ & Ht & Hl).
  cbn. rewrite Hi, Hk, Hm, Hc, Ht. repeat split; apply Hl.
Qed.

End Iteration.

(** ** The rolling windows *)

Section LatencyTracker.
Context `{C : Collaborators} `{A : Allocator}.

Lemma push_window_below (d : spec_float) (l : list spec_float) :
  (length l < 10)%nat -> push_window d l = l ++ [d].
Proof.
  intros Hl. unfold push_window. rewrite length_app. cbn [length].
  case_decide; [lia | reflexivity].
Qed.

Lemma push_window_full (d x : spec_float) (l : list spec_float) :
  length (x :: l) = 10%nat -> push_window d (x :: l) = l ++ [d].
Proof.
  intros Hl. unfold push_window. rewrite length_app, Hl. cbn [length Nat.add].
  case_decide; [reflexivity | lia].
Qed.

Lemma push_window_length (d : spec_float) (l : list spec_float) :
  (length l <= 10)%nat -> (length (push_window d l) <= 10)%nat.
Proof.
  intros Hl. destruct (decide (length l < 10)%nat) as [Hlt | Hge].
  - rewrite push_window_below by done. rewrite length_app. cbn. lia.
  - destruct l as [ | x l]; [cbn in Hge; lia | ].
    rewrite push_window_full by lia. rewrite length_app. cbn in *. lia.
Qed.

Lemma publishGraph_frame (connectivity : gmap Z Vector2i) (st st' : State) :
  publishGraph connectivity st = Returned st' ->
  images st' = images st
  /\ exists cs, model st' = with_connections cs (model st).
Proof.
  unfold publishGraph. destruct (display3D_off st).
  - intros [= <-]. split; [done | ]. exists (connections (model st)).
    by destruct (model st).
  - destruct (publishGraph_locked _ _ _) as [g | | g]; intros [= <-].
    split; [done | ]. by exists (gl_connections g).
Qed.

Lemma publishKeyframes_entry_window (HCalib : CalibHessian) (m : ModelState)
    (fh : FrameHessian) :
  lastNTrackingMs (publishKeyframes_entry HCalib m fh) = lastNTrackingMs m.
Proof.
  unfold publishKeyframes_entry. by destruct (keyframesByKFID m !! frameID fh).
Qed.

Lemma publishKeyframes_window (frames : list FrameHessian) (final : bool)
    (HCalib : CalibHessian) (st : State) :
  lastNTrackingMs (model (publishKeyframes frames final HCalib st))
  = lastNTrackingMs (model st)
  /\ images (publishKeyframes frames final HCalib st) = images st.
Proof.
  unfold publishKeyframes. destruct (display3D_off st); [done | ].
  split; [ | done ]. cbn. generalize (model st).
  induction frames as [ | fh frames IH]; intros m; [done | ].
  cbn [foldl]. by rewrite IH, publishKeyframes_entry_window.
Qed.

Lemma reset_internal_window_tracking (st : State) :
  lastNTrackingMs (model (reset_internal st)) = lastNTrackingMs (model st).
Proof. reflexivity. Qed.

Lemma reset_internal_window_mapping (st : State) :
  lastNMappingMs (images (reset_internal st)) = lastNMappingMs (images st).
Proof. reflexivity. Qed.

Lemma step_windows_bounded (c : call) (st st' : State) :
  windows_bounded st -> step c st = Some st' -> windows_bounded st'.
Proof.
  intros [Ht Hm] Hstep. unfold windows_bounded. destruct c; cbn in Hstep.
  - destruct (publishGraph connectivity st) as [s | | s] eqn:E; try done.
    injection Hstep as <-.
    destruct (publishGraph_frame _ _ _ E) as [-> [cs ->]]. done.
  - injection Hstep as <-.
    destruct (publishKeyframes_window frames final HCalib st) as [-> ->]. done.
  - injection Hstep as <-. unfold publishCamPose.
    destruct (display3D_off st); [done | ].
    destruct (negb _); cbn; (split; [by apply push_window_length | done]).
  - injection Hstep as <-. unfold pushLiveFrame.
    by destruct (_ || _)%bool.
  - injection Hstep as <-. unfold pushDepthImage.
    destruct (_ || _)%bool; [done | ]. cbn.
    split; [done | by apply push_window_length].
  - by injection Hstep as <-.
  - by injection Hstep as <-.
  - destruct (_ && _)%bool; [ | done ]. injection Hstep as <-.
    rewrite run_iteration_state.
    destruct (before_reset_test_frame p st)
      as (_ & _ & _ & Ht' & Hm' & _).
    destruct (needReset st);
      rewrite ?reset_internal_window_tracking, ?reset_internal_window_mapping;
      by rewrite Ht', Hm'.
Qed.

Lemma reachable_windows_bounded (st : State) :
  reachable st -> windows_bounded st.
Proof.
  induction 1 as [ | c st st' _ IH Hstep].
  - split; cbn; lia.
  - by eapply step_windows_bounded.
Qed.

(** C7. Each of the two windows holds at most ten intervals. A tick
    ([publishCamPose] for tracking, [pushDepthImage] for mapping, when
    their display is on) stores the clock and appends the time elapsed
    since the previous tick; a window that had ten intervals loses exactly
    its oldest one. The rate an iteration shows is the size of the window
    times 1000 over the sum of its intervals. Ten intervals of 100 ms give
    the rate 10, and an eleventh tick leaves the nine newest of them
    followed by the new interval. *)
Theorem latency_window_fifo_and_rate :
  (forall st, reachable st -> windows_bounded st)
  /\ (forall d l, (length l < 10)%nat -> push_window d l = l ++ [d])
  /\ (forall d x l, length (x :: l) = 10%nat -> push_window d (x :: l) = l ++ [d])
  /\ (forall frame HCalib now st,
        display3D_off st = false ->
        let st' := publishCamPose frame HCalib now st in
        last_track (model st') = now
        /\ lastNTrackingMs (model st')
           = push_window (elapsed_ms (last_track (model st)) now)
                         (lastNTrackingMs (model st)))
  /\ (forall image now st,
        disableAllDisplay (globals st) = false ->
        setting_render_displayDepth (globals st) = true ->
        let st' := pushDepthImage image now st in
        last_map (images st') = now
        /\ lastNMappingMs (images st')
           = push_window (elapsed_ms (last_map (images st)) now)
                         (lastNMappingMs (images st)))
  /\ (forall p st,
        let st' := (run_iteration p st).1 in
        settings_trackFps st' = window_rate (lastNTrackingMs (model st))
        /\ settings_mapFps st' = window_rate (lastNMappingMs (images st)))
  /\ (forall l,
        window_rate l
        = F32.div (F32.mul (F32.of_Z (Z.of_nat (length l))) (F32.of_Z 1000))
                  (foldl F32.add F32.zero l))
  /\ (forall s u,
        elapsed_ms (mkTimeval s u) (mkTimeval s (u + 100000)) = F32.of_Z 100)
  /\ window_rate (replicate 10 (F32.of_Z 100)) = F32.of_Z 10
  /\ (forall d,
        push_window d (replicate 10 (F32.of_Z 100))
        = replicate 9 (F32.of_Z 100) ++ [d]).
Proof.
  split; [exact reachable_windows_bounded | ].
  split; [exact push_window_below | ].
  split; [exact push_window_full | ].
  split.
  { intros frame HCalib now st Hon. cbn zeta. unfold publishCamPose.
    rewrite Hon. by destruct (negb _). }
  split.
  { intros image now st Hd Hk. cbn zeta. unfold pushDepthImage.
    by rewrite Hd, Hk. }
  split.
  { intros p st. cbn zeta. rewrite run_iteration_state.
    destruct (before_reset_test_frame p st)
      as (_ & _ & _ & _ & _ & Ht & Hm & _).
    by destruct (needReset st). }
  split; [reflexivity | ].
  split.
  { intros s u. unfold elapsed_ms. cbn [tv_sec tv_usec].
    replace (s - s) with 0 by lia.
    replace (u + 100000 - u) with 100000 by lia.
    vm_compute. reflexivity. }
  split; [vm_compute; reflexivity | ].
  intros d. by apply (push_window_full d).
Qed.

End LatencyTracker.

(** ** The keyframe registry *)

Section Registry.
Context `{C : Collaborators} `{A : Allocator}.

Lemma alter_live (f : KeyFrameDisplay -> KeyFrameDisplay) (q p : ptr)
    (hp : gmap ptr KeyFrameDisplay) :
  is_Some (alter f q hp !! p) <-> is_Some (hp !! p).
Proof.
  destruct (decide (q = p)) as [-> | Hne].
  - by rewrite lookup_alter_eq, fmap_is_Some.
  - by rewrite lookup_alter_ne.
Qed.

(** An entry whose identifier is registered: nothing is inserted, the
    handle found is set from the frame. *)
Lemma publishKeyframes_entry_known (HCalib : CalibHessian) (m : ModelState)
    (fh : FrameHessian) (p : ptr) :
  keyframesByKFID m !! frameID fh = Some p ->
  let m' := publishKeyframes_entry HCalib m fh in
  keyframes m' = keyframes m
  /\ keyframesByKFID m' = keyframesByKFID m
  /\ heap m' = alter (setFromKF fh HCalib) p (heap m).
Proof.
  intros Hp. cbn zeta. unfold publishKeyframes_entry, resolve.
  rewrite Hp. cbn. by rewrite Hp.
Qed.

(** An entry whose identifier is new: a fresh handle goes to the end of
    the list and into the map, and is set from the frame. *)
Lemma publishKeyframes_entry_new (HCalib : CalibHessian) (m : ModelState)
    (fh : FrameHessian) :
  keyframesByKFID m !! frameID fh = None ->
  let kfd := alloc (dom (heap m)) in
  let m' := publishKeyframes_entry HCalib m fh in
  keyframes m' = keyframes m ++ [kfd]
  /\ keyframesByKFID m' = <[frameID fh := kfd]> (keyframesByKFID m)
  /\ heap m' = <[kfd := setFromKF fh HCalib kfd_new]> (heap m).
Proof.
  intros Hp. cbn zeta. unfold publishKeyframes_entry, resolve.
  rewrite Hp. cbn. rewrite lookup_insert_eq. repeat split.
  apply map_eq. intros q. destruct (decide (alloc (dom (heap m)) = q)) as [<- | Hne].
  - by rewrite lookup_alter_eq, !lookup_insert_eq.
  - by rewrite lookup_alter_ne, !lookup_insert_ne.
Qed.

Lemma publishKeyframes_entry_same_handles (HCalib : CalibHessian)
    (m : ModelState) (fh : FrameHessian) :
  same_handles m -> same_handles (publishKeyframes_entry HCalib m fh).
Proof.
  intros [Hiff Hlen]. unfold same_handles.
  destruct (keyframesByKFID m !! frameID fh) as [p | ] eqn:E.
  - destruct (publishKeyframes_entry_known HCalib m fh p E) as (-> & -> & _).
    by split.
  - destruct (publishKeyframes_entry_new HCalib m fh E) as (-> & -> & _).
    split.
    + intros p. rewrite elem_of_app, list_elem_of_singleton, Hiff. split.
      * intros [[id Hid] | ->].
        -- exists id. rewrite lookup_insert_ne; [done | congruence].
        -- exists (frameID fh). by rewrite lookup_insert_eq.
      * intros [id Hid]. destruct (decide (frameID fh = id)) as [<- | Hne].
        -- rewrite lookup_insert_eq in Hid. right. congruence.
        -- rewrite lookup_insert_ne in Hid by done. left. by exists id.
    + rewrite length_app, map_size_insert_None by done. cbn. lia.
Qed.

Lemma publishKeyframes_entry_registry_ok (HCalib : CalibHessian)
    (m : ModelState) (fh : FrameHessian) :
  registry_ok m -> registry_ok (publishKeyframes_entry HCalib m fh).
Proof.
  intros (Hsame & Hnd & Hinj & Hlive & Hnull).
  split; [by apply publishKeyframes_entry_same_handles | ].
  destruct (keyframesByKFID m !! frameID fh) as [p | ] eqn:E.
  - destruct (publishKeyframes_entry_known HCalib m fh p E) as (-> & -> & ->).
    repeat split; try done. intros q Hq. apply alter_live. by apply Hlive.
  - destruct (publishKeyframes_entry_new HCalib m fh E) as (-> & -> & ->).
    set (kfd := alloc (dom (heap m))).
    assert (Hfresh : kfd ∉ keyframes m).
    { intros Hin. apply (alloc_fresh (dom (heap m))).
      apply elem_of_dom. by apply Hlive. }
    repeat split.
    + apply NoDup_app. repeat split; [done | | apply NoDup_singleton].
      intros x Hx Hx'. apply list_elem_of_singleton in Hx'. by subst.
    + intros id1 id2 p H1 H2.
      destruct (decide (frameID fh = id1)) as [<- | Hne1];
        destruct (decide (frameID fh = id2)) as [<- | Hne2]; [done | | | ].
      * rewrite lookup_insert_eq in H1. rewrite lookup_insert_ne in H2 by done.
        injection H1 as <-. exfalso. apply Hfresh, Hsame. by exists id2.
      * rewrite lookup_insert_eq in H2. rewrite lookup_insert_ne in H1 by done.
        injection H2 as <-. exfalso. apply Hfresh, Hsame. by exists id1.
      * rewrite lookup_insert_ne in H1, H2 by done. by eapply Hinj.
    + intros q Hq. apply elem_of_app in Hq as [Hq | Hq].
      * destruct (decide (kfd = q)) as [<- | Hne]; [done | ].
        rewrite lookup_insert_ne by done. by apply Hlive.
      * apply list_elem_of_singleton in Hq as ->. by rewrite lookup_insert_eq.
    + intros Hin. apply elem_of_app in Hin as [Hin | Hin]; [done | ].
      apply list_elem_of_singleton in Hin. by apply (alloc_nonnull (dom (heap m))).
Qed.

Lemma publishKeyframes_same_handles (frames : list FrameHessian) (final : bool)
    (HCalib : CalibHessian) (st : State) :
  same_handles (model st) ->
  same_handles (model (publishKeyframes frames final HCalib st)).
Proof.
  unfold publishKeyframes. destruct (display3D_off st); [done | ].
  cbn. generalize (model st).
  induction frames as [ | fh frames IH]; intros m Hm; [done | ].
  cbn [foldl]. by apply IH, publishKeyframes_entry_same_handles.
Qed.

Lemma publishKeyframes_registry_ok (frames : list FrameHessian) (final : bool)
    (HCalib : CalibHessian) (st : State) :
  registry_ok (model st) ->
  registry_ok (model (publishKeyframes frames final HCalib st)).
Proof.
  unfold publishKeyframes. destruct (display3D_off st); [done | ].
  cbn. generalize (model st).
  induction frames as [ | fh frames IH]; intros m Hm; [done | ].
  cbn [foldl]. by apply IH, publishKeyframes_entry_registry_ok.
Qed.

Lemma registry_ok_empty (hp : gmap ptr KeyFrameDisplay) (cam : ptr)
    (poses : list Vec3f) (cs : list GraphConnection) (t : timeval)
    (l : list spec_float) :
  registry_ok (mkModelState hp cam [] ∅ poses cs t l).
Proof.
  unfold registry_ok, same_handles. cbn.
  split; [split | ].
  - intros p. split.
    + intros Hp. by apply elem_of_nil in Hp.
    + intros [id Hid]. by rewrite lookup_empty in Hid.
  - by rewrite map_size_empty.
  - split; [apply NoDup_nil_2 | ].
    split; [intros id1 id2 p Hid; by rewrite lookup_empty in Hid | ].
    split; [intros p Hp | intros Hp]; by apply elem_of_nil in Hp.
Qed.

Lemma reset_internal_registry_ok (st : State) :
  registry_ok (model (reset_internal st)).
Proof. apply registry_ok_empty. Qed.

(** The invariant reads the list, the map and the set of live handles. *)
Lemma registry_ok_ext (m m' : ModelState) :
  keyframes m' = keyframes m ->
  keyframesByKFID m' = keyframesByKFID m ->
  (forall q, is_Some (heap m' !! q) <-> is_Some (heap m !! q)) ->
  registry_ok m -> registry_ok m'.
Proof.
  intros Hk Hm Hl (Hsame & Hnd & Hinj & Hlive & Hnull).
  unfold registry_ok, same_handles. rewrite Hk, Hm.
  repeat split; try done; try apply Hsame.
  intros q Hq. apply Hl. by apply Hlive.
Qed.

Lemma step_registry_ok (c : call) (st st' : State) :
  registry_ok (model st) -> step c st = Some st' -> registry_ok (model st').
Proof.
  intros Hok Hstep. destruct c; cbn in Hstep.
  - destruct (publishGraph connectivity st) as [s | | s] eqn:E; try done.
    injection Hstep as <-.
    destruct (publishGraph_frame _ _ _ E) as [_ [cs ->]].
    by apply (registry_ok_ext (model st)).
  - injection Hstep as <-. by apply publishKeyframes_registry_ok.
  - injection Hstep as <-. unfold publishCamPose.
    destruct (display3D_off st); [done | ].
    destruct (negb _); cbn; apply (registry_ok_ext (model st)); try done.
    intros q. apply alter_live.
  - injection Hstep as <-. unfold pushLiveFrame. by destruct (_ || _)%bool.
  - injection Hstep as <-. unfold pushDepthImage. by destruct (_ || _)%bool.
  - by injection Hstep as <-.
  - by injection Hstep as <-.
  - destruct (_ && _)%bool; [ | done ]. injection Hstep as <-.
    rewrite run_iteration_state.
    destruct (needReset st); [apply reset_internal_registry_ok | ].
    destruct (before_reset_test_frame p st) as (Hk & Hm & _ & _ & _ & _ & _ & Hl).
    by apply (registry_ok_ext (model st)).
Qed.

Lemma reachable_registry_ok (st : State) :
  reachable st -> registry_ok (model st).
Proof.
  induction 1 as [ | c st st' _ IH Hstep].
  - apply registry_ok_empty.
  - by eapply step_registry_ok.
Qed.

(** C4. In every state the viewer goes through, whatever the calls were,
    each handle of the keyframe list is registered under exactly one
    identifier, and two positions of the list whose handles are registered
    under one identifier are the same position: no identifier has two
    handles. A batch entry whose identifier is registered inserts nothing:
    the list and the map stay as they are and the handle found is updated
    by [setFromKF]; so does a published batch of one such entry while the
    3D display is on. *)
Theorem registry_one_handle_per_identifier :
  (forall st, reachable st ->
     let m := model st in
     (forall p, p ∈ keyframes m ->
        exists id, keyframesByKFID m !! id = Some p
                   /\ forall id', keyframesByKFID m !! id' = Some p -> id' = id)
     /\ (forall i j p q id,
           keyframes m !! i = Some p -> keyframes m !! j = Some q ->
           keyframesByKFID m !! id = Some p ->
           keyframesByKFID m !! id = Some q -> i = j))
  /\ (forall HCalib m fh p,
        keyframesByKFID m !! frameID fh = Some p ->
        let m' := publishKeyframes_entry HCalib m fh in
        keyframes m' = keyframes m
        /\ keyframesByKFID m' = keyframesByKFID m
        /\ heap m' = alter (setFromKF fh HCalib) p (heap m)
        /\ forall k, heap m !! p = Some k ->
                     heap m' !! p = Some (setFromKF fh HCalib k))
  /\ (forall HCalib final st fh p,
        display3D_off st = false ->
        keyframesByKFID (model st) !! frameID fh = Some p ->
        let st' := publishKeyframes [fh] final HCalib st in
        keyframes (model st') = keyframes (model st)
        /\ keyframesByKFID (model st') = keyframesByKFID (model st)
        /\ heap (model st') = alter (setFromKF fh HCalib) p (heap (model st))).
Proof.
  split; [ | split ]; [ | | intros HCalib final st fh p Hon Hp; cbn zeta;
                           unfold publishKeyframes; rewrite Hon;
                           exact (publishKeyframes_entry_known HCalib (model st)
                                    fh p Hp) ].
  - intros st Hr. cbn zeta.
    destruct (reachable_registry_ok st Hr) as ((Hiff & _) & Hnd & Hinj & _).
    split.
    + intros p Hp. apply Hiff in Hp as [id Hid]. exists id.
      split; [done | ]. intros id' Hid'. by eapply Hinj.
    + intros i j p q id Hi Hj Hp Hq.
      assert (p = q) as <- by congruence.
      by eapply NoDup_lookup.
  - intros HCalib m fh p Hp. cbn zeta.
    destruct (publishKeyframes_entry_known HCalib m fh p Hp) as (Hk & Hm & Hh).
    repeat split; try done.
    intros k Hk'. by rewrite Hh, lookup_alter_eq, Hk'.
Qed.

(** C10. In every state the viewer goes through, a handle is an element
    of the keyframe list exactly when it is a value of the map keyed by
    identifier, and the two containers have the same size. Each operation
    that touches them keeps this: [publishKeyframes], which puts a new
    handle into both, and [reset_internal], which clears both. *)
Theorem keyframes_and_map_hold_same_handles :
  (forall st, reachable st -> same_handles (model st))
  /\ (forall frames final HCalib st,
        same_handles (model st) ->
        same_handles (model (publishKeyframes frames final HCalib st)))
  /\ (forall HCalib m fh,
        keyframesByKFID m !! frameID fh = None ->
        let kfd := alloc (dom (heap m)) in
        let m' := publishKeyframes_entry HCalib m fh in
        keyframes m' = keyframes m ++ [kfd]
        /\ keyframesByKFID m' = <[frameID fh := kfd]> (keyframesByKFID m))
  /\ (forall st,
        same_handles (model (reset_internal st))
        /\ keyframes (model (reset_internal st)) = []
        /\ keyframesByKFID (model (reset_internal st)) = ∅).
Proof.
  split; [ | split; [ | split ] ].
  - intros st Hr. by destruct (reachable_registry_ok st Hr).
  - exact publishKeyframes_same_handles.
  - intros HCalib m fh Hnone. cbn zeta.
    by destruct (publishKeyframes_entry_new HCalib m fh Hnone) as (-> & -> & _).
  - intros st. split; [ | done ].
    by destruct (reset_internal_registry_ok st).
Qed.

End Registry.

(** ** The connectivity graph *)

Section Graph.
Context `{C : Collaborators} `{A : Allocator}.

Implicit Types (byid : gmap Z ptr) (connectivity : gmap Z Vector2i).
Implicit Types (acc : GraphLoop) (p : Z * Vector2i).

(** *** Decoding keys *)

Lemma to_int32_inj (a b : Z) :
  0 <= a < 2 ^ 32 -> 0 <= b < 2 ^ 32 -> to_int32 a = to_int32 b -> a = b.
Proof.
  unfold to_int32. intros Ha Hb.
  rewrite !Z.mod_small by lia.
  destruct (a <? 2 ^ 31) eqn:Ea; destruct (b <? 2 ^ 31) eqn:Eb; lia.
Qed.

Lemma decode_inj (k k' : Z) :
  0 <= k < 2 ^ 64 -> 0 <= k' < 2 ^ 64 ->
  decode_host k = decode_host k' -> decode_target k = decode_target k' ->
  k = k'.
Proof.
  unfold decode_host, decode_target. intros Hk Hk' Hh Ht.
  change 0xFFFFFFFF with (Z.ones 32) in Ht.
  rewrite !Z.land_ones in Ht by lia.
  rewrite !Z.shiftr_div_pow2 in Hh by lia.
  apply to_int32_inj in Hh;
    [ | split; [apply Z.div_pos; lia | apply Z.div_lt_upper_bound; lia]
      | split; [apply Z.div_pos; lia | apply Z.div_lt_upper_bound; lia] ].
  apply to_int32_inj in Ht; [ | apply Z.mod_pos_bound; lia .. ].
  rewrite (Z.div_mod k (2 ^ 32)), (Z.div_mod k' (2 ^ 32)) by lia.
  by rewrite Hh, Ht.
Qed.

(** *** One entry *)

Lemma list_alter_const {T} (f : T -> T) (c : T) (i : nat) (l : list T) :
  (forall x, f x = c) -> alter f i l = <[i := c]> l.
Proof.
  intros Hf. rewrite list_insert_alter. apply list_alter_ext; [ | done ].
  intros x _. apply Hf.
Qed.

(** The three ways an entry lets the loop go on. *)
Lemma publishGraph_entry_returned byid connectivity acc acc' p :
  publishGraph_entry byid connectivity acc p = Returned acc' ->
  0 <= decode_host p.1 /\ 0 <= decode_target p.1
  /\ ((decode_host p.1 = decode_target p.1
       /\ v0 p.2 = 0 /\ v1 p.2 = 0 /\ acc' = acc)
      \/ (decode_target p.1 < decode_host p.1 /\ acc' = acc)
      \/ (forward_entry p
          /\ exists c, record_for byid connectivity p = Some c
             /\ gl_connections acc'
                = <[runningID acc := c]> (gl_connections acc)
             /\ runningID acc' = S (runningID acc))).
Proof.
  unfold publishGraph_entry, forward_entry, record_for.
  destruct (0 <=? decode_host p.1) eqn:Eh; [ | done ].
  destruct (0 <=? decode_target p.1) eqn:Et; [ | done ].
  apply Z.leb_le in Eh, Et. cbn [negb].
  destruct (decode_host p.1 =? decode_target p.1) eqn:Eeq.
  - apply Z.eqb_eq in Eeq.
    destruct (v0 p.2 =? 0) eqn:E0; [ | done ].
    destruct (v1 p.2 =? 0) eqn:E1; [ | done ].
    apply Z.eqb_eq in E0, E1. intros [= <-]. auto 10.
  - apply Z.eqb_neq in Eeq.
    destruct (decode_target p.1 <? decode_host p.1) eqn:Egt.
    + apply Z.ltb_lt in Egt. intros [= <-]. auto 10.
    + apply Z.ltb_ge in Egt.
      destruct (connectivity !! inverseKey _ _) as [st | ]; [ | done ].
      intros [= <-]. cbn [gl_connections runningID].
      split; [done | ]. split; [done | ]. right. right.
      split; [lia | ]. eexists. split; [reflexivity | ].
      split; [ | done ].
      rewrite list_alter_alter_eq.
      by apply list_alter_const.
Qed.

(** A self-pair with both counts zero passes the checks and changes
    neither the records nor the totals. *)
Lemma publishGraph_entry_self_zero byid connectivity acc p :
  0 <= decode_host p.1 -> decode_host p.1 = decode_target p.1 ->
  v0 p.2 = 0 -> v1 p.2 = 0 ->
  publishGraph_entry byid connectivity acc p = Returned acc.
Proof.
  intros Hh Heq H0 H1. unfold publishGraph_entry.
  rewrite <- Heq, H0, H1, Z.eqb_refl.
  by rewrite (proj2 (Z.leb_le _ _) Hh).
Qed.

(** *** The loop *)

Lemma publishGraph_loop_returned byid connectivity entries acc acc' :
  publishGraph_loop byid connectivity entries acc = Returned acc' ->
  (runningID acc + length (filter forward_entry entries)
   <= length (gl_connections acc))%nat ->
  let written :=
    omap (record_for byid connectivity) (filter forward_entry entries) in
  length written = length (filter forward_entry entries)
  /\ runningID acc' = (runningID acc + length written)%nat
  /\ gl_connections acc'
     = take (runningID acc) (gl_connections acc) ++ written
       ++ drop (runningID acc + length written) (gl_connections acc).
Proof.
  cbn zeta. revert acc.
  induction entries as [ | p entries IH]; intros acc Hrun Hlen.
  - injection Hrun as <-. cbn. rewrite Nat.add_0_r.
    by rewrite take_drop.
  - cbn [publishGraph_loop] in Hrun.
    destruct (publishGraph_entry byid connectivity acc p) as [acc1 | | acc1] eqn:E;
      try done.
    apply publishGraph_entry_returned in E
      as (_ & _ & [(Heq & _ & _ & ->) | [(Hgt & ->) | (Hfw & c & Hc & Hcs & Hid)]]).
    + rewrite filter_cons_False in * by (unfold forward_entry; lia).
      by apply IH.
    + rewrite filter_cons_False in * by (unfold forward_entry; lia).
      by apply IH.
    + rewrite filter_cons_True in * by done. cbn [length] in Hlen.
      cbn [omap list_omap]. rewrite Hc.
      assert (Hi : (runningID acc < length (gl_connections acc))%nat) by lia.
      destruct (IH acc1 Hrun) as (IH1 & IH2 & IH3).
      { rewrite Hid, Hcs, length_insert. lia. }
      cbn [length]. split; [by rewrite IH1 | ].
      split; [lia | ].
      rewrite IH3, Hid, Hcs.
      rewrite (take_S_r _ _ c) by (by apply list_lookup_insert_eq).
      rewrite take_insert_ge by lia.
      rewrite drop_insert_lt by lia.
      rewrite <- app_assoc. cbn [app].
      by rewrite Nat.add_succ_r.
Qed.

(** The list keeps its length through the loop, whatever the outcome. *)
Lemma publishGraph_entry_length byid connectivity acc p :
  match publishGraph_entry byid connectivity acc p with
  | Returned acc' | OutOfRange acc' =>
      length (gl_connections acc') = length (gl_connections acc)
  | CheckFailed => True
  end.
Proof.
  unfold publishGraph_entry.
  destruct (negb (0 <=? decode_host p.1)); [done | ].
  destruct (negb (0 <=? decode_target p.1)); [done | ].
  destruct (decode_host p.1 =? decode_target p.1).
  { destruct (negb (v0 p.2 =? 0)); [done | ].
    by destruct (negb (v1 p.2 =? 0)). }
  destruct (decode_target p.1 <? decode_host p.1); [done | ].
  destruct (connectivity !! inverseKey _ _);
    cbn [gl_connections]; by rewrite ?length_alter.
Qed.

Global Instance key_le_total : Total key_le.
Proof. intros a b. unfold key_le. lia. Qed.

(** The entries come by ascending key. *)
Lemma entries_in_order_sorted connectivity :
  Sorted key_le (entries_in_order connectivity).
Proof. apply (Sorted_merge_sort key_le). Qed.

Lemma entries_in_order_perm connectivity :
  entries_in_order connectivity ≡ₚ map_to_list connectivity.
Proof. apply merge_sort_Permutation. Qed.

Lemma entries_in_order_length connectivity :
  length (entries_in_order connectivity) = size connectivity.
Proof.
  rewrite entries_in_order_perm. apply length_map_to_list.
Qed.

Lemma elem_of_entries_in_order connectivity k v :
  (k, v) ∈ entries_in_order connectivity <-> connectivity !! k = Some v.
Proof.
  rewrite entries_in_order_perm. apply elem_of_map_to_list.
Qed.

(** What a publish that returns leaves in the list: the records of the
    forward entries, then what [resize] had put after them. *)
Lemma publishGraph_locked_returned byid connectivity old g :
  publishGraph_locked byid connectivity old = Returned g ->
  let written := written_records byid connectivity in
  length written
  = length (filter forward_entry (entries_in_order connectivity))
  /\ runningID g = length written
  /\ gl_connections g
     = written ++ drop (length written) (resize (size connectivity) conn0 old)
  /\ length (gl_connections g) = size connectivity.
Proof.
  intros Hrun. cbn zeta. unfold publishGraph_locked in Hrun.
  apply publishGraph_loop_returned in Hrun as (H1 & H2 & H3).
  - cbn [runningID gl_connections Nat.add] in *.
    rewrite take_0 in H3. cbn [app] in H3. unfold written_records.
    split; [exact H1 | ]. split; [exact H2 | ]. split; [exact H3 | ].
    rewrite H3, length_app, length_drop, length_resize, H1.
    pose proof (length_filter forward_entry (entries_in_order connectivity)).
    rewrite entries_in_order_length in *. lia.
  - cbn [runningID gl_connections]. rewrite length_resize.
    rewrite <- entries_in_order_length. cbn. apply length_filter.
Qed.

(** *** Counting the forward entries *)

Lemma forward_entries_pairs_NoDup connectivity :
  valid_keys connectivity ->
  NoDup ((fun p => unordered_pair_of p.1)
           <$> filter forward_entry (entries_in_order connectivity)).
Proof.
  intros Hv. apply NoDup_fmap_2_strong.
  - intros [k v] [k' v'] [Hf Hin]%list_elem_of_filter
      [Hf' Hin']%list_elem_of_filter Heq.
    apply elem_of_entries_in_order in Hin, Hin'.
    unfold forward_entry, unordered_pair_of in *. cbn [fst] in *.
    assert (k = k') as <-.
    { apply decode_inj; [by eapply (Hv k) | by eapply (Hv k') | | ].
      - injection Heq. lia.
      - injection Heq. lia. }
    congruence.
  - apply NoDup_filter. rewrite entries_in_order_perm.
    apply NoDup_map_to_list.
Qed.

Lemma forward_entries_count connectivity :
  valid_keys connectivity ->
  (length (filter forward_entry (entries_in_order connectivity))
   <= size (unordered_pairs connectivity))%nat.
Proof.
  intros Hv.
  rewrite <- (length_fmap (fun p => unordered_pair_of p.1)).
  rewrite <- (size_list_to_set (C := gset (Z * Z)))
    by by apply forward_entries_pairs_NoDup.
  apply subseteq_size. intros pr.
  unfold unordered_pairs. rewrite !elem_of_list_to_set, !list_elem_of_fmap.
  intros ([k v] & -> & [Hf Hin]%list_elem_of_filter).
  exists k. split; [done | ]. apply list_elem_of_filter.
  unfold forward_entry in Hf. cbn [fst] in *. split; [lia | ].
  apply list_elem_of_fmap. exists (k, v). split; [done | ].
  by rewrite <- entries_in_order_perm.
Qed.

End Graph.

(** ** What a connectivity publish leaves in the list *)

Section GraphClaims.
Context `{C : Collaborators} `{A : Allocator}.

Implicit Types (byid : gmap Z ptr) (connectivity : gmap Z Vector2i).
Implicit Types (acc : GraphLoop) (p : Z * Vector2i).

Lemma publishGraph_gated connectivity st :
  display3D_off st = true -> publishGraph connectivity st = Returned st.
Proof. intros Hoff. unfold publishGraph. by rewrite Hoff. Qed.

Lemma publishGraph_running connectivity st :
  display3D_off st = false ->
  publishGraph connectivity st
  = match publishGraph_locked (keyframesByKFID (model st)) connectivity
                              (connections (model st)) with
    | Returned g =>
        Returned (with_model (with_connections (gl_connections g)) st)
    | CheckFailed => CheckFailed
    | OutOfRange g =>
        OutOfRange (with_model (with_connections (gl_connections g)) st)
    end.
Proof. intros Hon. unfold publishGraph. by rewrite Hon. Qed.

Lemma omap_length_le {T U} (f : T -> option U) (l : list T) :
  (length (omap f l) <= length l)%nat.
Proof.
  induction l as [ | x l IH]; [done | ]. cbn.
  destruct (f x); cbn; lia.
Qed.

Lemma omap_total {T U} (f : T -> option U) (l : list T) :
  length (omap f l) = length l ->
  Forall2 (fun x y => f x = Some y) l (omap f l).
Proof.
  induction l as [ | x l IH]; [constructor | ]. cbn.
  destruct (f x) as [y | ] eqn:E; cbn; intros Hlen.
  - constructor; [done | ]. apply IH. lia.
  - pose proof (omap_length_le f l). lia.
Qed.

(** C1, amended. A publish made while the 3D display is off leaves the
    viewer as it was. A publish that runs and returns gives the list the
    size of the input map, and its leading elements are the records this
    publish writes: one for each key with host below target, by ascending
    key, built from the input and the registry alone. Their number is at
    most the number of unordered pairs with host and target different in
    the input; no self-pair has a record, and the unordered pairs of the
    keys that have a record are all different. *)
Theorem publishGraph_writes_one_record_per_pair connectivity st :
  valid_keys connectivity ->
  (display3D_off st = true -> publishGraph connectivity st = Returned st)
  /\ (forall st',
        display3D_off st = false ->
        publishGraph connectivity st = Returned st' ->
        let fwd := filter forward_entry (entries_in_order connectivity) in
        let written :=
          written_records (keyframesByKFID (model st)) connectivity in
        length (connections (model st')) = size connectivity
        /\ take (length written) (connections (model st')) = written
        /\ Forall2 (fun p c =>
                      record_for (keyframesByKFID (model st)) connectivity p
                      = Some c) fwd written
        /\ (length written <= size (unordered_pairs connectivity))%nat
        /\ NoDup ((fun p => unordered_pair_of p.1) <$> fwd)
        /\ (forall p, p ∈ fwd -> decode_host p.1 <> decode_target p.1)).
Proof.
  intros Hv. split; [apply publishGraph_gated | ].
  intros st' Hon Hrun. cbn zeta.
  rewrite publishGraph_running in Hrun by done.
  destruct (publishGraph_locked _ _ _) as [g | | g] eqn:E; try done.
  injection Hrun as <-.
  apply publishGraph_locked_returned in E as (Hlen & Hid & Hcs & Hsize).
  cbn [model with_model with_connections connections].
  split; [exact Hsize | ].
  split; [by rewrite Hcs, take_app_length | ].
  split; [by apply omap_total | ].
  split; [rewrite Hlen; by apply forward_entries_count | ].
  split; [by apply forward_entries_pairs_NoDup | ].
  intros p [Hf _]%list_elem_of_filter. unfold forward_entry in Hf. lia.
Qed.

(** *** The checks *)

Lemma publishGraph_entry_cases byid connectivity acc p :
  0 <= decode_host p.1 -> 0 <= decode_target p.1 ->
  (decode_host p.1 < decode_target p.1 ->
   is_Some (connectivity !! inverseKey (decode_host p.1) (decode_target p.1))) ->
  (bad_self_pair p.1 p.2
   /\ publishGraph_entry byid connectivity acc p = CheckFailed)
  \/ (~ bad_self_pair p.1 p.2
      /\ exists acc', publishGraph_entry byid connectivity acc p = Returned acc').
Proof.
  intros Hh Ht Hinv. unfold publishGraph_entry, bad_self_pair.
  rewrite (proj2 (Z.leb_le _ _) Hh), (proj2 (Z.leb_le _ _) Ht). cbn [negb].
  destruct (decode_host p.1 =? decode_target p.1) eqn:Eeq.
  - apply Z.eqb_eq in Eeq.
    destruct (v0 p.2 =? 0) eqn:E0; cbn [negb].
    + destruct (v1 p.2 =? 0) eqn:E1; cbn [negb].
      * apply Z.eqb_eq in E0, E1. right. split; [lia | by eexists].
      * apply Z.eqb_neq in E1. left. by auto.
    + apply Z.eqb_neq in E0. left. by auto.
  - apply Z.eqb_neq in Eeq. right. split; [lia | ].
    destruct (decode_target p.1 <? decode_host p.1) eqn:Egt; [by eexists | ].
    apply Z.ltb_ge in Egt.
    destruct Hinv as [st ->]; [lia | ]. by eexists.
Qed.

Lemma publishGraph_loop_check byid connectivity entries acc :
  Forall (fun p =>
            0 <= decode_host p.1 /\ 0 <= decode_target p.1
            /\ (decode_host p.1 < decode_target p.1 ->
                is_Some (connectivity
                           !! inverseKey (decode_host p.1) (decode_target p.1))))
         entries ->
  publishGraph_loop byid connectivity entries acc = CheckFailed
  <-> Exists (uncurry bad_self_pair) entries.
Proof.
  intros Hall. revert acc.
  induction Hall as [ | p entries (Hh & Ht & Hinv) _ IH]; intros acc.
  - cbn. split; [done | ]. by intros ?%Exists_nil.
  - cbn [publishGraph_loop]. rewrite Exists_cons.
    destruct (publishGraph_entry_cases byid connectivity acc p Hh Ht Hinv)
      as [[Hbad ->] | [Hgood [acc' ->]]].
    + split; [ | done ]. intros _. left. by destruct p.
    + rewrite IH. split; [by right | ].
      intros [Hbad | Hex]; [ | done ]. by destruct p.
Qed.

(** *** The pair (1,2) *)

Lemma graph_1_2_entries :
  entries_in_order graph_1_2
  = [(pair_key 1 2, mkVector2i 3 0); (pair_key 2 1, mkVector2i 0 1)].
Proof. vm_compute. reflexivity. Qed.

Lemma graph_1_2_returns byid old :
  exists g, publishGraph_locked byid graph_1_2 old = Returned g.
Proof.
  unfold publishGraph_locked. rewrite graph_1_2_entries.
  set (acc0 := mkGraphLoop _ _ _). cbn [publishGraph_loop].
  destruct (publishGraph_entry_cases byid graph_1_2 acc0
              (pair_key 1 2, mkVector2i 3 0))
    as [[Hbad _] | [_ [acc1 ->]]].
  - vm_compute. discriminate.
  - vm_compute. discriminate.
  - intros _. vm_compute. by eexists.
  - exfalso. vm_compute in Hbad. by destruct Hbad.
  - destruct (publishGraph_entry_cases byid graph_1_2 acc1
                (pair_key 2 1, mkVector2i 0 1))
      as [[Hbad _] | [_ [acc2 ->]]].
    + vm_compute. discriminate.
    + vm_compute. discriminate.
    + intros Hlt. exfalso. vm_compute in Hlt. discriminate.
    + exfalso. vm_compute in Hbad. by destruct Hbad.
    + by eexists.
Qed.

Lemma graph_1_2_written byid :
  written_records byid graph_1_2
  = [mkConn (resolve byid 1) (resolve byid 2) 0 1 3 0].
Proof.
  unfold written_records. rewrite graph_1_2_entries.
  rewrite filter_cons_True by (vm_compute; reflexivity).
  rewrite filter_cons_False by (vm_compute; discriminate).
  rewrite filter_nil. cbn [omap list_omap]. unfold record_for.
  replace (inverseKey (decode_host (pair_key 1 2, mkVector2i 3 0).1)
             (decode_target (pair_key 1 2, mkVector2i 3 0).1))
    with (pair_key 2 1) by (vm_compute; reflexivity).
  replace (graph_1_2 !! pair_key 2 1) with (Some (mkVector2i 0 1))
    by (vm_compute; reflexivity).
  reflexivity.
Qed.

(** C3, amended. Published while the 3D display is on, the connectivity
    [{(1,2):[3,0], (2,1):[0,1]}] writes exactly one record, the first
    element of a list of two: forward counts (3,0), backward counts (0,1),
    each endpoint the handle registered under 1, respectively 2, or null
    when there is none. Published while the display is off it changes
    nothing. *)
Theorem publishGraph_pair_1_2 (st : State) :
  (display3D_off st = true -> publishGraph graph_1_2 st = Returned st)
  /\ (display3D_off st = false ->
      exists st' c second,
        publishGraph graph_1_2 st = Returned st'
        /\ written_records (keyframesByKFID (model st)) graph_1_2 = [c]
        /\ connections (model st') = [c; second]
        /\ (fwdAct c, fwdMarg c) = (3, 0)
        /\ (bwdAct c, bwdMarg c) = (0, 1)
        /\ from c = match keyframesByKFID (model st) !! 1 with
                    | Some handle => handle
                    | None => null
                    end
        /\ to c = match keyframesByKFID (model st) !! 2 with
                  | Some handle => handle
                  | None => null
                  end).
Proof.
  split; [apply publishGraph_gated | ]. intros Hon.
  destruct (graph_1_2_returns (keyframesByKFID (model st))
              (connections (model st))) as [g Hg].
  pose proof (publishGraph_locked_returned _ _ _ _ Hg) as (_ & _ & Hcs & Hlen).
  rewrite graph_1_2_written in Hcs. cbn [length app] in Hcs.
  assert (Hsize : size graph_1_2 = 2%nat) by (vm_compute; reflexivity).
  rewrite Hsize in Hcs, Hlen.
  destruct (gl_connections g) as [ | c [ | second [ | ? ?]]] eqn:Eg;
    try discriminate Hlen.
  injection Hcs as -> _.
  eexists _, _, second. rewrite publishGraph_running, Hg by done.
  split; [reflexivity | ].
  rewrite graph_1_2_written.
  cbn [model with_model with_connections connections]. rewrite Eg.
  by repeat split.
Qed.

(** C6, amended. While the 3D display is on, for a connectivity whose keys
    all decode to a host and a target that are not negative and whose keys
    with host below target all have their inverse key, [publishGraph] dies
    on a check exactly when some self-pair entry carries an active or
    marginalized count that is not zero. A self-pair whose counts are both
    zero passes the checks and leaves the records, their number and the
    four totals as they were. *)
Theorem publishGraph_fatal_on_bad_self_pair connectivity st :
  display3D_off st = false ->
  nonnegative_ids connectivity ->
  inverse_keys_present connectivity ->
  (publishGraph connectivity st = CheckFailed
   <-> map_Exists bad_self_pair connectivity)
  /\ (forall byid acc k v,
        0 <= decode_host k -> decode_host k = decode_target k ->
        v0 v = 0 -> v1 v = 0 ->
        publishGraph_entry byid connectivity acc (k, v) = Returned acc).
Proof.
  intros Hon Hnn Hinv. split.
  - rewrite publishGraph_running by done. unfold publishGraph_locked.
    set (acc0 := mkGraphLoop _ _ _).
    assert (Hall :
      Forall (fun p =>
                0 <= decode_host p.1 /\ 0 <= decode_target p.1
                /\ (decode_host p.1 < decode_target p.1 ->
                    is_Some (connectivity
                               !! inverseKey (decode_host p.1)
                                             (decode_target p.1))))
             (entries_in_order connectivity)).
    { apply Forall_forall. intros [k v] Hin%elem_of_entries_in_order.
      cbn [fst]. destruct (Hnn k v Hin) as [Hh Ht].
      split; [done | ]. split; [done | ]. by apply (Hinv k v). }
    pose proof (publishGraph_loop_check (keyframesByKFID (model st))
                  connectivity _ acc0 Hall) as Hloop.
    assert (Hex : map_Exists bad_self_pair connectivity
                  <-> Exists (uncurry bad_self_pair)
                             (entries_in_order connectivity)).
    { rewrite Exists_exists. split.
      - intros (k & v & Hin & Hbad). exists (k, v).
        by rewrite elem_of_entries_in_order.
      - intros ([k v] & Hin & Hbad). exists k, v.
        by rewrite <- elem_of_entries_in_order. }
    rewrite Hex, <- Hloop.
    by destruct (publishGraph_loop _ _ _ acc0) as [g | | g].
  - intros byid acc k v Hh Heq H0 H1.
    exact (publishGraph_entry_self_zero byid connectivity acc (k, v) Hh Heq H0 H1).
Qed.

End GraphClaims.

(** ** Locks and presenter calls in an iteration *)

Section LockDiscipline.
Context `{C : Collaborators} `{A : Allocator}.

Lemma respects_app allowed hd (t1 t2 : list event) :
  respects allowed hd (t1 ++ t2)
  = (respects allowed hd t1 && respects allowed (held_after hd t1) t2)%bool.
Proof.
  revert hd. induction t1 as [ | e t1 IH]; intros hd; [done | ].
  cbn. by rewrite IH, andb_assoc.
Qed.

Lemma held_after_app hd (t1 t2 : list event) :
  held_after hd (t1 ++ t2) = held_after (held_after hd t1) t2.
Proof. apply foldl_app. Qed.

Lemma balanced_nil : balanced [].
Proof. by split. Qed.

Lemma balanced_app (t1 t2 : list event) :
  balanced t1 -> balanced t2 -> balanced (t1 ++ t2).
Proof.
  intros [R1 H1] [R2 H2]. split.
  - by rewrite respects_app, R1, H1, R2.
  - by rewrite held_after_app, H1, H2.
Qed.

(** Drawing of the 3D model while [model3DMutex] alone is held. *)
Lemma draw3D_under_model_lock (tr : list event) :
  Forall (fun e => is_draw3D e = true) tr ->
  respects code_discipline (mkHeld false true) tr = true
  /\ held_after (mkHeld false true) tr = mkHeld false true.
Proof.
  induction 1 as [ | e tr He _ [IH1 IH2]]; [done | ].
  destruct e; try discriminate He; cbn; by rewrite ?IH1, ?IH2.
Qed.

Lemma vertex_of_draw3D hp q :
  Forall (fun e => is_draw3D e = true) (vertex_of hp q).
Proof. unfold vertex_of. destruct (hp !! q); by repeat constructor. Qed.

Lemma constraint_lines_draw3D wanted hp cs :
  Forall (fun e => is_draw3D e = true)
         (concat (map (constraint_lines wanted hp) cs)).
Proof.
  apply Forall_concat, Forall_fmap, Forall_forall. intros c _.
  unfold compose, constraint_lines.
  destruct (_ || _)%bool; [constructor | ].
  destruct (wanted _ _); [ | constructor ].
  apply Forall_app; split; apply vertex_of_draw3D.
Qed.

Lemma drawConstraints_draw3D (st : State) :
  Forall (fun e => is_draw3D e = true) (drawConstraints st).
Proof.
  unfold drawConstraints.
  repeat match goal with
  | |- Forall _ (if ?b then _ else _) => destruct b
  | |- Forall _ [] => constructor
  | |- Forall _ (_ :: _) => constructor; [reflexivity | ]
  | |- Forall _ (concat (map (constraint_lines _ _) _)) =>
      apply constraint_lines_draw3D
  | |- Forall _ (concat (map (vertex_of _) _)) =>
      apply Forall_concat, Forall_fmap, Forall_forall; intros ? _;
      apply vertex_of_draw3D
  | |- Forall _ (map GlVertex3f _) =>
      apply Forall_fmap, Forall_forall; by intros ? _
  | |- Forall _ (_ ++ _) => apply Forall_app; split
  end.
Qed.

Lemma draw_keyframes_draw3D (s : ViewerSettings) (l : list ptr)
    (acc : gmap ptr KeyFrameDisplay * Z * list event) :
  Forall (fun e => is_draw3D e = true) acc.2 ->
  Forall (fun e => is_draw3D e = true) (foldl (draw_keyframe s) acc l).2.
Proof.
  revert acc. induction l as [ | fh l IH]; intros acc Hacc; [done | ].
  cbn [foldl]. apply IH. destruct acc as [[hp n] tr]. unfold draw_keyframe.
  destruct (match hp !! fh with Some _ => _ | None => _ end) as [hp' r].
  cbn [snd] in *. apply Forall_app; split; [done | ].
  destruct (settings_showKFCameras s); by repeat constructor.
Qed.

Lemma model_section_balanced (seg : list event) :
  Forall (fun e => is_draw3D e = true) seg ->
  balanced ([Activate Visualization3D_display; Lock model3DMutex]
            ++ seg ++ [Unlock model3DMutex]).
Proof.
  intros Hseg. destruct (draw3D_under_model_lock _ Hseg) as [R H].
  split.
  - cbn [app respects code_discipline after_event no_lock holds_images
         holds_model negb andb is_draw3D].
    by rewrite respects_app, R, H.
  - cbn [app held_after foldl after_event no_lock holds_images holds_model].
    change (foldl after_event ?hd ?t) with (held_after hd t).
    by rewrite held_after_app, H.
Qed.

Lemma render3D_balanced (st : State) : balanced (render3D st).2.
Proof.
  unfold render3D.
  pose proof (draw_keyframes_draw3D (settings st) (keyframes (model st))
                (heap (model st), 0, []) (Forall_nil_2 _)) as Htr.
  destruct (foldl _ _ _) as [[hp n] tr]. cbn [snd] in *.
  set (st1 := with_model _ st).
  assert (Hseg :
    Forall (fun e => is_draw3D e = true)
           (tr ++ (if settings_showCurrentCamera (settings st)
                   then [DrawCam (currentCam (model st))] else [])
               ++ drawConstraints st1)).
  { apply Forall_app; split; [done | ]. apply Forall_app; split.
    - destruct (settings_showCurrentCamera _); by repeat constructor.
    - apply drawConstraints_draw3D. }
  eapply (eq_ind _ balanced (model_section_balanced _ Hseg)).
  by rewrite <- !app_assoc.
Qed.

Lemma upload_images_balanced (st : State) : balanced (upload_images st).2.
Proof.
  unfold upload_images. cbn [snd].
  by destruct (videoImgChanged _), (kfImgChanged _), (resImgChanged _).
Qed.

Lemma update_fps_balanced (st : State) : balanced (update_fps st).2.
Proof. by split. Qed.

Lemma render_textures_balanced (st : State) : balanced (render_textures st).
Proof.
  unfold render_textures.
  by destruct (setting_render_displayVideo _),
              (setting_render_displayDepth _),
              (setting_render_displayResidual _).
Qed.

Lemma update_parameters_balanced (p : Panel) (st : State) :
  balanced (update_parameters p st).2.
Proof. unfold update_parameters. cbn [snd]. by destruct (ui_Reset p). Qed.

Lemma reset_internal_events_balanced : balanced reset_internal_events.
Proof. by split. Qed.

(** The events of one kind in an iteration. *)
Lemma events_of_app (f : event -> bool) (t1 t2 : list event) :
  events_of f (t1 ++ t2) = events_of f t1 ++ events_of f t2.
Proof. apply filter_app. Qed.

Lemma events_of_none (f : event -> bool) (tr : list event) :
  Forall (fun e => f e = false) tr -> events_of f tr = [].
Proof.
  induction 1 as [ | e tr He _ IH]; [done | ].
  unfold events_of in *. rewrite filter_cons_False by congruence. done.
Qed.

Lemma render3D_3D_events (f : event -> bool) (st : State) :
  (forall e, is_draw3D e = true -> f e = false) ->
  (forall m, f (Lock m) = false) -> (forall m, f (Unlock m) = false) ->
  events_of f (render3D st).2
  = events_of f [Activate Visualization3D_display].
Proof.
  intros Hd Hl Hu. unfold render3D.
  pose proof (draw_keyframes_draw3D (settings st) (keyframes (model st))
                (heap (model st), 0, []) (Forall_nil_2 _)) as Htr.
  destruct (foldl _ _ _) as [[hp n] tr]. cbn [snd] in *.
  set (st1 := with_model _ st).
  pose proof (drawConstraints_draw3D st1) as Hdc.
  generalize dependent (drawConstraints st1). intros dc Hdc.
  change ([Activate Visualization3D_display; Lock model3DMutex])
    with ([Activate Visualization3D_display] ++ [Lock model3DMutex]).
  rewrite <- app_assoc, events_of_app.
  rewrite <- (app_nil_r (events_of f [_])) at 2. f_equal.
  apply events_of_none.
  repeat (apply Forall_app; split).
  - repeat constructor. apply Hl.
  - eapply Forall_impl; [exact Htr | ]. intros e. apply Hd.
  - destruct (settings_showCurrentCamera _); repeat constructor. by apply Hd.
  - eapply Forall_impl; [exact Hdc | ]. intros e. apply Hd.
  - repeat constructor. apply Hu.
Qed.

Lemma update_fps_events (f : event -> bool) (st : State) :
  (forall m, f (Lock m) = false) -> (forall m, f (Unlock m) = false) ->
  events_of f (update_fps st).2 = events_of f (readouts st).
Proof.
  intros Hl Hu. unfold update_fps, readouts. cbn [snd].
  set (a := SetMapFps _). set (b := SetTrackFps _).
  change (events_of f ([Lock openImagesMutex] ++ [a]
                       ++ [Unlock openImagesMutex; Lock model3DMutex]
                       ++ [b] ++ [Unlock model3DMutex])
          = events_of f ([a] ++ [b])).
  rewrite !events_of_app.
  rewrite (events_of_none f [Lock openImagesMutex]),
    (events_of_none f [Unlock openImagesMutex; Lock model3DMutex]),
    (events_of_none f [Unlock model3DMutex]);
    [ by rewrite app_nil_r | .. ];
    repeat constructor; first [apply Hl | apply Hu].
Qed.

Lemma run_iteration_events (f : event -> bool) (p : Panel) (st : State) :
  (forall e, is_draw3D e = true -> f e = false) ->
  (forall m, f (Lock m) = false) -> (forall m, f (Unlock m) = false) ->
  (forall t px, f (Upload t px) = false) ->
  f GlClear = false -> f LogWarning = false -> f ResetButtonReset = false ->
  f FinishFrame = false ->
  events_of f (run_iteration p st).2
  = (if setting_render_display3D (globals st)
     then events_of f [Activate Visualization3D_display] else [])
    ++ events_of f (readouts st)
    ++ events_of f (render_textures st).
Proof.
  intros Hd Hl Hu Hup Hc Hw Hr Hf. unfold run_iteration.
  assert (H3D : exists st1 tr1,
            (if setting_render_display3D (globals st) then render3D st
             else (st, [])) = (st1, tr1)
            /\ images st1 = images st /\ globals st1 = globals st
            /\ lastNTrackingMs (model st1) = lastNTrackingMs (model st)
            /\ events_of f tr1
               = if setting_render_display3D (globals st)
                 then events_of f [Activate Visualization3D_display] else []).
  { destruct (setting_render_display3D (globals st)).
    - exists (render3D st).1, (render3D st).2.
      split; [by destruct (render3D st) | ].
      split; [apply render3D_frame | ].
      split; [apply render3D_frame | ].
      split; [apply render3D_frame | by apply render3D_3D_events].
    - by exists st, []. }
  destruct H3D as (st1 & tr1 & -> & Hi & Hg & Ht & H1).
  assert (H2 : events_of f (upload_images st1).2 = []
               /\ globals (upload_images st1).1 = globals st
               /\ readouts (upload_images st1).1 = readouts st).
  { split; [ | split; [exact Hg | ] ].
    - unfold upload_images. cbn [snd].
      apply events_of_none.
      repeat (apply Forall_app; split); repeat constructor; try apply Hl;
        try apply Hu.
      + destruct (videoImgChanged _); repeat constructor. apply Hup.
      + destruct (kfImgChanged _); repeat constructor. apply Hup.
      + destruct (resImgChanged _); repeat constructor. apply Hup.
    - unfold readouts, upload_images. cbn. by rewrite Hi, Ht. }
  destruct (upload_images st1) as [st2 tr2]. cbn [fst snd] in H2.
  destruct H2 as (H2 & Hg2 & Hro).
  pose proof (update_fps_events f st2 Hl Hu) as H3. rewrite Hro in H3.
  assert (Hg3 : globals (update_fps st2).1 = globals st) by exact Hg2.
  destruct (update_fps st2) as [st3 tr3]. cbn [fst snd] in *.
  assert (H4 : render_textures st3 = render_textures st).
  { unfold render_textures. by rewrite Hg3. }
  destruct (update_parameters p st3) as [st5 tr5] eqn:E5.
  assert (H5 : events_of f tr5 = []).
  { inversion E5. apply events_of_none.
    destruct (ui_Reset p); by repeat constructor. }
  assert (H6 : events_of f
                 (if needReset st5 then (reset_internal st5, reset_internal_events)
                  else (st5, [])).2 = []).
  { apply events_of_none.
    destruct (needReset st5); repeat constructor; try apply Hl; apply Hu. }
  destruct (if needReset st5 then _ else _) as [st6 tr6]. cbn [snd] in *.
  rewrite !events_of_app, H1, H2, H3, H4, H5, H6.
  rewrite (events_of_none f [GlClear]) by (by repeat constructor).
  rewrite (events_of_none f [FinishFrame]) by (by repeat constructor).
  cbn [app]. by rewrite !app_nil_r.
Qed.

(** The trace of an iteration, part by part. *)
Lemma run_iteration_trace (p : Panel) (st : State) :
  exists t3D st1 st3 tend,
    (run_iteration p st).2
    = [GlClear] ++ t3D ++ (upload_images st1).2 ++ (update_fps st3).2
      ++ render_textures (update_fps st3).1 ++ (update_parameters p
                                                  (update_fps st3).1).2
      ++ [FinishFrame] ++ tend
    /\ (t3D = (render3D st).2 \/ t3D = [])
    /\ (tend = reset_internal_events \/ tend = []).
Proof.
  unfold run_iteration.
  destruct (if setting_render_display3D (globals st) then render3D st
            else (st, [])) as [st1 tr1] eqn:E1.
  destruct (upload_images st1) as [st2 tr2] eqn:E2.
  destruct (update_fps st2) as [st3 tr3] eqn:E3.
  destruct (update_parameters p st3) as [st5 tr5] eqn:E5.
  exists tr1, st1, st2,
    (if needReset st5 then reset_internal_events else []).
  rewrite E2, E3. cbn [fst snd]. rewrite E5. cbn [snd].
  split; [by destruct (needReset st5) | ].
  split.
  - destruct (setting_render_display3D (globals st));
      [left; by rewrite E1 | right; by inversion E1].
  - destruct (needReset st5); auto.
Qed.

(** C2, amended. In every iteration of the render loop a lock is taken
    only while none is held and is released before the next one is taken,
    so the two are never held together, and none is held when the
    iteration ends. The 3D model is drawn (cameras, point clouds,
    constraints and trajectories) and the read-out of the tracking rate is
    assigned while [model3DMutex] is held; the changed buffers are
    uploaded to their textures and the read-out of the mapping rate is
    assigned while [openImagesMutex] is held; every other call to the
    presenter (clearing the screen, activating a view, drawing a texture
    to its view, logging and resetting the reset button, finishing the
    frame) happens while no lock is held. Every iteration assigns the two
    read-outs, the mapping rate first, each once, from the windows as the
    iteration finds them. *)
Theorem render_iteration_lock_discipline (p : Panel) (st : State) :
  let tr := (run_iteration p st).2 in
  respects code_discipline no_lock tr = true
  /\ held_after no_lock tr = no_lock
  /\ events_of is_readout tr = readouts st.
Proof.
  cbn zeta.
  assert (Hb : balanced (run_iteration p st).2).
  { destruct (run_iteration_trace p st)
      as (t3D & st1 & st3 & tend & -> & H3D & Hend).
    change (balanced ([GlClear] ++ t3D ++ (upload_images st1).2
                      ++ (update_fps st3).2
                      ++ render_textures (update_fps st3).1
                      ++ (update_parameters p (update_fps st3).1).2
                      ++ [FinishFrame] ++ tend)).
    apply balanced_app; [by split | ].
    apply balanced_app.
    { destruct H3D as [-> | ->];
        [apply render3D_balanced | apply balanced_nil]. }
    apply balanced_app; [apply upload_images_balanced | ].
    apply balanced_app; [apply update_fps_balanced | ].
    apply balanced_app; [apply render_textures_balanced | ].
    apply balanced_app; [apply update_parameters_balanced | ].
    apply balanced_app; [by split | ].
    destruct Hend as [-> | ->];
      [apply reset_internal_events_balanced | apply balanced_nil]. }
  destruct Hb as [Hr Hh]. split; [exact Hr | ]. split; [exact Hh | ].
  rewrite run_iteration_events; try done; [ | by intros [] ].
  assert (Hno : events_of is_readout (render_textures st) = []).
  { unfold render_textures.
    by destruct (setting_render_displayVideo _),
                (setting_render_displayDepth _),
                (setting_render_displayResidual _). }
  rewrite Hno, app_nil_r. by destruct (setting_render_display3D _).
Qed.

End LockDiscipline.

(** * Further properties *)

(** ** The image buffers *)

Section ImageBuffers.
Context `{C : Collaborators} `{A : Allocator}.

Lemma write_live_S (n : nat) (image : FrameHessian) (px : list Vec3b) :
  write_live (S n) image px
  = <[n := live_pixel image n]> (write_live n image px).
Proof. unfold write_live. by rewrite seq_S, foldl_app. Qed.

Lemma write_live_length (n : nat) (image : FrameHessian) (px : list Vec3b) :
  length (write_live n image px) = length px.
Proof.
  induction n as [ | n IH]; [done | ].
  by rewrite write_live_S, length_insert.
Qed.

Lemma write_live_lookup_lt (n i : nat) (image : FrameHessian)
    (px : list Vec3b) :
  (i < n)%nat -> (i < length px)%nat ->
  write_live n image px !! i = Some (live_pixel image i).
Proof.
  intros Hn Hl. induction n as [ | n IH]; [lia | ].
  rewrite write_live_S. destruct (decide (i = n)) as [-> | Hne].
  - apply list_lookup_insert_eq. by rewrite write_live_length.
  - rewrite list_lookup_insert_ne by done. apply IH. lia.
Qed.

Lemma write_live_lookup_ge (n i : nat) (image : FrameHessian)
    (px : list Vec3b) :
  (n <= i)%nat -> write_live n image px !! i = px !! i.
Proof.
  intros Hn. induction n as [ | n IH]; [done | ].
  rewrite write_live_S, list_lookup_insert_ne by lia. apply IH. lia.
Qed.

(** X1. With the live video displayed, [pushLiveFrame] writes the pixels
    [0 .. w*h-1] of the video buffer, each from the intensity of the frame
    at the same index, keeps the size of the buffer and the pixels beyond
    [w*h], sets the video flag, and leaves the two other buffers, their
    flags and the 3D model as they were. *)
Theorem pushLiveFrame_writes_video_buffer (image : FrameHessian) (st : State) :
  disableAllDisplay (globals st) = false ->
  setting_render_displayVideo (globals st) = true ->
  let st' := pushLiveFrame image st in
  let n := Z.to_nat (w st * h st) in
  let old := data (internalVideoImg (images st)) in
  let new := data (internalVideoImg (images st')) in
  length new = length old
  /\ (forall i, (i < n)%nat -> (i < length old)%nat ->
                new !! i = Some (live_pixel image i))
  /\ (forall i, (n <= i)%nat -> new !! i = old !! i)
  /\ videoImgChanged (images st') = true
  /\ internalKFImg (images st') = internalKFImg (images st)
  /\ internalResImg (images st') = internalResImg (images st)
  /\ kfImgChanged (images st') = kfImgChanged (images st)
  /\ resImgChanged (images st') = resImgChanged (images st)
  /\ model st' = model st.
Proof.
  intros Hd Hv. cbn zeta. unfold pushLiveFrame. rewrite Hd, Hv. cbn.
  split; [apply write_live_length | ].
  split; [intros i; apply write_live_lookup_lt | ].
  split; [intros i; apply write_live_lookup_ge | done].
Qed.

(** The byte stored for an integral intensity. *)
Lemma intensity_bytes_upto_4096 :
  forallb
    (fun z =>
       F64.to_uchar
         (let x := F64.mul (F64.of_f32 (F32.of_Z z)) F64.c_0_8 in
          if F64.gtb x (F64.of_f32 (F32.of_Z 255)) then F64.of_Z 255 else x)
       =? Z.min 255 (z * 4 / 5))
    (seqZ 0 4097)
  = true.
Proof. vm_compute. reflexivity. Qed.

(** X2. For a pixel whose intensity is an integer between 0 and 4096 the
    three channels written by [pushLiveFrame] are equal, and their value is
    four fifths of the intensity, rounded down, or 255 if that is more:
    intensities are scaled by 0.8 and saturate, they do not wrap. *)
Theorem live_pixel_scales_and_saturates (image : FrameHessian) (i : nat)
    (z : Z) :
  0 <= z <= 4096 ->
  dI0 image i = F32.of_Z z ->
  live_pixel image i
  = mkVec3b (Z.min 255 (z * 4 / 5)) (Z.min 255 (z * 4 / 5))
            (Z.min 255 (z * 4 / 5)).
Proof.
  intros Hz Hd. unfold live_pixel. rewrite Hd.
  pose proof intensity_bytes_upto_4096 as Hall.
  rewrite forallb_forall in Hall.
  specialize (Hall z). cbn zeta in Hall.
  apply Z.eqb_eq in Hall; [by rewrite Hall | ].
  apply list_elem_of_In, elem_of_seqZ. lia.
Qed.

Lemma memcpy_pixels_length (n : nat) (src dst : list Vec3b) :
  (n <= length src)%nat -> (n <= length dst)%nat ->
  length (memcpy_pixels n src dst) = length dst.
Proof.
  intros Hs Hd. unfold memcpy_pixels.
  rewrite length_app, length_take, length_drop. lia.
Qed.

Lemma memcpy_pixels_lookup_lt (n i : nat) (src dst : list Vec3b) :
  (n <= length src)%nat -> (i < n)%nat ->
  memcpy_pixels n src dst !! i = src !! i.
Proof.
  intros Hs Hi. unfold memcpy_pixels.
  rewrite lookup_app_l by (rewrite length_take; lia).
  by apply lookup_take_lt.
Qed.

Lemma memcpy_pixels_lookup_ge (n i : nat) (src dst : list Vec3b) :
  (n <= length src)%nat -> (n <= i)%nat ->
  memcpy_pixels n src dst !! i = dst !! i.
Proof.
  intros Hs Hi. unfold memcpy_pixels.
  rewrite lookup_app_r by (rewrite length_take; lia).
  rewrite length_take, lookup_drop. f_equal. lia.
Qed.

(** X3. [pushDepthImage] does nothing when [needPushDepthImage] answers
    no (or all display is disabled): a producer that skips building the
    image after a negative answer loses nothing. Otherwise, for an image
    of at least [w*h] pixels and a buffer of at least as many, the first
    [w*h] pixels of the depth buffer become those of the image, the rest
    and the size stay, the depth flag is set, the clock is stored, and the
    video and residual buffers with their flags and the 3D model are left
    as they were. *)
Theorem pushDepthImage_copies_when_wanted (image : MinimalImageB3)
    (time_now : timeval) (st : State) :
  (needPushDepthImage st = false \/ disableAllDisplay (globals st) = true ->
   pushDepthImage image time_now st = st)
  /\ (needPushDepthImage st = true ->
      disableAllDisplay (globals st) = false ->
      let st' := pushDepthImage image time_now st in
      let n := Z.to_nat (w st * h st) in
      let old := data (internalKFImg (images st)) in
      let new := data (internalKFImg (images st')) in
      (n <= length (data image))%nat -> (n <= length old)%nat ->
      length new = length old
      /\ (forall i, (i < n)%nat -> new !! i = data image !! i)
      /\ (forall i, (n <= i)%nat -> new !! i = old !! i)
      /\ kfImgChanged (images st') = true
      /\ last_map (images st') = time_now
      /\ internalVideoImg (images st') = internalVideoImg (images st)
      /\ internalResImg (images st') = internalResImg (images st)
      /\ videoImgChanged (images st') = videoImgChanged (images st)
      /\ resImgChanged (images st') = resImgChanged (images st)
      /\ model st' = model st).
Proof.
  unfold needPushDepthImage. split.
  - intros Hoff. unfold pushDepthImage.
    destruct Hoff as [-> | ->]; [by rewrite orb_true_r | done].
  - intros Hk Hd. cbn zeta. intros Hs Ho.
    unfold pushDepthImage. rewrite Hd, Hk. cbn.
    split; [by apply memcpy_pixels_length | ].
    split; [intros i; by apply memcpy_pixels_lookup_lt | ].
    split; [intros i; by apply memcpy_pixels_lookup_ge | done].
Qed.

End ImageBuffers.

(** ** The registry, the heap and the trajectory *)

Section RegistryGrowth.
Context `{C : Collaborators} `{A : Allocator}.

(** What an entry of a batch never touches. *)
Lemma publishKeyframes_entry_rest (HCalib : CalibHessian) (m : ModelState)
    (fh : FrameHessian) :
  let m' := publishKeyframes_entry HCalib m fh in
  currentCam m' = currentCam m
  /\ allFramePoses m' = allFramePoses m
  /\ connections m' = connections m
  /\ last_track m' = last_track m.
Proof.
  cbn zeta. unfold publishKeyframes_entry.
  by destruct (keyframesByKFID m !! frameID fh).
Qed.

Lemma publishKeyframes_entry_grows (HCalib : CalibHessian) (m : ModelState)
    (fh : FrameHessian) :
  let m' := publishKeyframes_entry HCalib m fh in
  keyframes m `prefix_of` keyframes m'
  /\ keyframesByKFID m ⊆ keyframesByKFID m'
  /\ is_Some (keyframesByKFID m' !! frameID fh)
  /\ (forall id, is_Some (keyframesByKFID m' !! id) ->
                 is_Some (keyframesByKFID m !! id) \/ id = frameID fh).
Proof.
  cbn zeta. destruct (keyframesByKFID m !! frameID fh) as [p | ] eqn:E.
  - destruct (publishKeyframes_entry_known HCalib m fh p E) as (-> & -> & _).
    rewrite E. repeat split; eauto.
  - destruct (publishKeyframes_entry_new HCalib m fh E) as (-> & -> & _).
    split; [by apply prefix_app_r | ].
    split; [by apply insert_subseteq | ].
    split; [by rewrite lookup_insert_eq | ].
    intros id Hid. destruct (decide (frameID fh = id)) as [<- | Hne]; [by right | ].
    left. by rewrite lookup_insert_ne in Hid.
Qed.

Lemma publishKeyframes_loop_grows (HCalib : CalibHessian)
    (frames : list FrameHessian) (m : ModelState) :
  let m' := foldl (publishKeyframes_entry HCalib) m frames in
  keyframes m `prefix_of` keyframes m'
  /\ keyframesByKFID m ⊆ keyframesByKFID m'
  /\ (forall fh, fh ∈ frames -> is_Some (keyframesByKFID m' !! frameID fh))
  /\ (forall id, is_Some (keyframesByKFID m' !! id) ->
                 is_Some (keyframesByKFID m !! id)
                 \/ exists fh, fh ∈ frames /\ frameID fh = id)
  /\ currentCam m' = currentCam m
  /\ allFramePoses m' = allFramePoses m
  /\ connections m' = connections m
  /\ last_track m' = last_track m.
Proof.
  cbn zeta. revert m. induction frames as [ | fh frames IH]; intros m.
  - cbn. repeat split; try done.
    + by intros fh ?%elem_of_nil.
    + by left.
  - cbn [foldl].
    destruct (publishKeyframes_entry_grows HCalib m fh) as (Hp & Hs & Hfh & Hnew).
    destruct (publishKeyframes_entry_rest HCalib m fh) as (Hc & Ha & Hn & Ht).
    destruct (IH (publishKeyframes_entry HCalib m fh))
      as (IHp & IHs & IHall & IHnew & IHc & IHa & IHn & IHt).
    split; [by etrans | ]. split; [by etrans | ].
    split.
    { intros fh' [-> | Hin]%elem_of_cons; [ | by apply IHall ].
      by eapply lookup_weaken_is_Some. }
    split.
    { intros id Hid. destruct (IHnew id Hid) as [Hold | (fh' & Hin & <-)].
      - destruct (Hnew id Hold) as [? | ->]; [by left | ].
        right. exists fh. split; [apply list_elem_of_here | done].
      - right. exists fh'. split; [by apply list_elem_of_further | done]. }
    by rewrite IHc, IHa, IHn, IHt.
Qed.

(** A batch whose identifiers are all registered inserts nothing. *)
Lemma publishKeyframes_loop_known (HCalib : CalibHessian)
    (frames : list FrameHessian) (m : ModelState) :
  (forall fh, fh ∈ frames -> is_Some (keyframesByKFID m !! frameID fh)) ->
  let m' := foldl (publishKeyframes_entry HCalib) m frames in
  keyframes m' = keyframes m /\ keyframesByKFID m' = keyframesByKFID m.
Proof.
  cbn zeta. revert m. induction frames as [ | fh frames IH]; intros m Hall.
  - done.
  - cbn [foldl].
    destruct (Hall fh (list_elem_of_here _ _)) as [p Hp].
    destruct (publishKeyframes_entry_known HCalib m fh p Hp) as (Hk & Hm & _).
    destruct (IH (publishKeyframes_entry HCalib m fh)) as [IHk IHm].
    { intros fh' Hin. rewrite Hm. apply Hall. by apply list_elem_of_further. }
    by rewrite IHk, IHm.
Qed.

(** X4. While the 3D display is off [publishKeyframes] changes nothing.
    Otherwise, after it every identifier of the batch is registered; every
    identifier registered before still has the same handle, and the
    handles listed before are still listed, in the same order and from
    the front; nothing is registered besides what was and what the batch
    names; and the connections, the trajectory, the current camera and the
    image buffers are left as they were. *)
Theorem publishKeyframes_registers_the_batch (frames : list FrameHessian)
    (final : bool) (HCalib : CalibHessian) (st : State) :
  (display3D_off st = true -> publishKeyframes frames final HCalib st = st)
  /\ (display3D_off st = false ->
      let m := model st in
      let m' := model (publishKeyframes frames final HCalib st) in
      (forall fh, fh ∈ frames -> is_Some (keyframesByKFID m' !! frameID fh))
      /\ keyframesByKFID m ⊆ keyframesByKFID m'
      /\ keyframes m `prefix_of` keyframes m'
      /\ (forall id, is_Some (keyframesByKFID m' !! id) ->
                     is_Some (keyframesByKFID m !! id)
                     \/ exists fh, fh ∈ frames /\ frameID fh = id)
      /\ connections m' = connections m
      /\ allFramePoses m' = allFramePoses m
      /\ currentCam m' = currentCam m
      /\ images (publishKeyframes frames final HCalib st) = images st).
Proof.
  unfold publishKeyframes. split; intros Hd; rewrite Hd; [done | ].
  cbn zeta. cbn [model with_model images].
  destruct (publishKeyframes_loop_grows HCalib frames (model st))
    as (Hp & Hs & Hall & Hnew & Hc & Ha & Hn & _).
  by repeat split.
Qed.

(** X5. Publishing a batch of keyframes a second time, whatever the
    calibration and the flag [final], inserts no handle: the list and the
    map stay as the first publish left them. *)
Theorem publishKeyframes_again_inserts_nothing (frames : list FrameHessian)
    (final final' : bool) (HCalib HCalib' : CalibHessian) (st : State) :
  let st1 := publishKeyframes frames final HCalib st in
  let st2 := publishKeyframes frames final' HCalib' st1 in
  keyframes (model st2) = keyframes (model st1)
  /\ keyframesByKFID (model st2) = keyframesByKFID (model st1).
Proof.
  cbn zeta. unfold publishKeyframes.
  destruct (display3D_off st) eqn:Hd; [by rewrite Hd | ].
  change (display3D_off (with_model _ st)) with (display3D_off st).
  rewrite Hd. cbn [model with_model].
  apply publishKeyframes_loop_known.
  apply (publishKeyframes_loop_grows HCalib frames (model st)).
Qed.

(** *** The live handles *)

Lemma delete_all_dom (l : list ptr) (hp : gmap ptr KeyFrameDisplay) :
  dom (foldl (fun hp p => delete p hp) hp l) = dom hp ∖ list_to_set l.
Proof.
  revert hp. induction l as [ | p l IH]; intros hp; cbn [foldl].
  - set_solver.
  - rewrite IH, dom_delete_L. set_solver.
Qed.

Lemma same_live_dom (hp hp' : gmap ptr KeyFrameDisplay) :
  (forall q, is_Some (hp' !! q) <-> is_Some (hp !! q)) -> dom hp' = dom hp.
Proof. intros Hl. apply set_eq. intros q. by rewrite !elem_of_dom. Qed.

Lemma heap_ok_ext (m m' : ModelState) :
  currentCam m' = currentCam m -> keyframes m' = keyframes m ->
  dom (heap m') = dom (heap m) -> heap_ok m -> heap_ok m'.
Proof. unfold heap_ok. by intros -> -> ->. Qed.

Lemma publishKeyframes_entry_heap_ok (HCalib : CalibHessian) (m : ModelState)
    (fh : FrameHessian) :
  heap_ok m -> heap_ok (publishKeyframes_entry HCalib m fh).
Proof.
  intros (Hnull & Hcam & Hdom).
  destruct (publishKeyframes_entry_rest HCalib m fh) as (Hc & _).
  unfold heap_ok. rewrite Hc.
  destruct (keyframesByKFID m !! frameID fh) as [p | ] eqn:E.
  - destruct (publishKeyframes_entry_known HCalib m fh p E) as (-> & _ & ->).
    by rewrite dom_alter_L.
  - destruct (publishKeyframes_entry_new HCalib m fh E) as (-> & _ & ->).
    pose proof (alloc_fresh (dom (heap m))) as Hfresh.
    split; [done | ]. split.
    + intros [Hin | Hin%list_elem_of_singleton]%elem_of_app; [done | ].
      apply Hfresh. rewrite <- Hin, Hdom. set_solver.
    + rewrite dom_insert_L, Hdom, list_to_set_app_L. set_solver.
Qed.

Lemma before_reset_test_rest (p : Panel) (st : State) :
  let st' := before_reset_test p st in
  currentCam (model st') = currentCam (model st)
  /\ allFramePoses (model st') = allFramePoses (model st)
  /\ internalVideoImg (images st') = internalVideoImg (images st)
  /\ internalKFImg (images st') = internalKFImg (images st)
  /\ internalResImg (images st') = internalResImg (images st)
  /\ disableAllDisplay (globals st') = disableAllDisplay (globals st)
  /\ running st' = running st.
Proof.
  cbn zeta. unfold before_reset_test.
  destruct (setting_render_display3D (globals st)); [ | done ].
  destruct (render3D_frame st) as (Hi & Hg & _ & _ & _ & _ & Ha & _).
  assert (Hc : currentCam (model (render3D st).1) = currentCam (model st)
               /\ running (render3D st).1 = running st).
  { unfold render3D. by destruct (foldl _ _ _) as [[hp n] tr]. }
  destruct Hc as [Hc Hr]. cbn. by rewrite Hi, Hg, Ha, Hc, Hr.
Qed.

Lemma reset_internal_heap_ok (st : State) :
  heap_ok (model st) -> heap_ok (model (reset_internal st)).
Proof.
  intros (Hnull & Hcam & Hdom). unfold heap_ok. cbn. split; [done | ].
  split; [by intros ?%elem_of_nil | ].
  rewrite delete_all_dom, Hdom. set_solver.
Qed.

Lemma step_heap_ok (c : call) (st st' : State) :
  heap_ok (model st) -> step c st = Some st' -> heap_ok (model st').
Proof.
  intros Hok Hstep. destruct c; cbn in Hstep.
  - destruct (publishGraph connectivity st) as [s | | s] eqn:E; try done.
    injection Hstep as <-.
    destruct (publishGraph_frame _ _ _ E) as [_ [cs ->]]. done.
  - injection Hstep as <-. unfold publishKeyframes.
    destruct (display3D_off st); [done | ]. cbn [model with_model].
    revert Hok. generalize (model st).
    induction frames as [ | fh frames IH]; intros m Hm; [done | ].
    cbn [foldl]. by apply IH, publishKeyframes_entry_heap_ok.
  - injection Hstep as <-. unfold publishCamPose.
    destruct (display3D_off st); [done | ].
    destruct (negb _); cbn; [done | ].
    apply (heap_ok_ext (model st)); try done. cbn. apply dom_alter_L.
  - injection Hstep as <-. unfold pushLiveFrame. by destruct (_ || _)%bool.
  - injection Hstep as <-. unfold pushDepthImage. by destruct (_ || _)%bool.
  - by injection Hstep as <-.
  - by injection Hstep as <-.
  - destruct (_ && _)%bool; [ | done ]. injection Hstep as <-.
    rewrite run_iteration_state.
    destruct (before_reset_test_frame p st) as (Hk & _ & _ & _ & _ & _ & _ & Hl).
    destruct (before_reset_test_rest p st) as (Hc & _).
    assert (Hb : heap_ok (model (before_reset_test p st))).
    { apply (heap_ok_ext (model st)); try done. by apply same_live_dom. }
    destruct (needReset st); [ | done ].
    by apply reset_internal_heap_ok.
Qed.

Lemma reachable_heap_ok (st : State) : reachable st -> heap_ok (model st).
Proof.
  induction 1 as [ | c st st' _ IH Hstep].
  - unfold heap_ok. cbn. split; [apply alloc_nonnull | ].
    split; [by intros ?%elem_of_nil | ].
    rewrite dom_singleton_L. set_solver.
  - by eapply step_heap_ok.
Qed.

(** X6. In every state the viewer goes through, the live
    [KeyFrameDisplay] objects are exactly the current camera and the
    listed keyframes: no handle leaks and none is listed after its
    deletion. The current camera is not null and not a keyframe, so a
    reset, which leaves it as the only live object, never deletes it. *)
Theorem live_handles_are_camera_and_keyframes :
  (forall st, reachable st ->
     currentCam (model st) <> null
     /\ (currentCam (model st) ∉ keyframes (model st))
     /\ (forall q, is_Some (heap (model st) !! q)
                   <-> q = currentCam (model st) \/ q ∈ keyframes (model st)))
  /\ (forall st, reachable st ->
        dom (heap (model (reset_internal st))) = {[ currentCam (model st) ]}
        /\ currentCam (model (reset_internal st)) = currentCam (model st)).
Proof.
  split; intros st Hr; destruct (reachable_heap_ok st Hr) as (Hnull & Hcam & Hdom).
  - split; [done | ]. split; [done | ].
    intros q. rewrite <- elem_of_dom, Hdom. set_solver.
  - split; [ | done ]. cbn. rewrite delete_all_dom, Hdom. set_solver.
Qed.

End RegistryGrowth.

(** ** The endpoints of the connection records *)

Section Endpoints.
Context `{C : Collaborators} `{A : Allocator}.

Lemma resolve_endpoint_ok (m : ModelState) (id : Z) :
  same_handles m -> endpoint_ok m (resolve (keyframesByKFID m) id).
Proof.
  intros [Hiff _]. unfold endpoint_ok, resolve.
  destruct (keyframesByKFID m !! id) as [p | ] eqn:E; [ | by left ].
  right. apply Hiff. by exists id.
Qed.

Lemma elem_of_resize {T} (n : nat) (y x : T) (l : list T) :
  x ∈ resize n y l -> x ∈ l \/ x = y.
Proof.
  rewrite resize_spec, elem_of_app.
  intros [Hin%subseteq_take | [-> _]%elem_of_replicate]; auto.
Qed.

Lemma endpoints_ok_grow (m m' : ModelState) :
  keyframes m `prefix_of` keyframes m' -> connections m' = connections m ->
  endpoints_ok m -> endpoints_ok m'.
Proof.
  intros Hp Hc Hok c Hin. rewrite Hc in Hin.
  destruct (Hok c Hin) as [Hf Ht]. unfold endpoint_ok in *.
  split; [destruct Hf as [? | ?] | destruct Ht as [? | ?]];
    (by left) || (right; by eapply elem_of_prefix).
Qed.

Lemma publishGraph_endpoints_ok (connectivity : gmap Z Vector2i)
    (st st' : State) :
  same_handles (model st) -> endpoints_ok (model st) ->
  publishGraph connectivity st = Returned st' ->
  endpoints_ok (model st').
Proof.
  intros Hsame Hok Hrun.
  destruct (display3D_off st) eqn:Hd.
  { rewrite publishGraph_gated in Hrun by done. by injection Hrun as <-. }
  rewrite publishGraph_running in Hrun by done.
  destruct (publishGraph_locked _ _ _) as [g | | g] eqn:E; try done.
  injection Hrun as <-.
  apply publishGraph_locked_returned in E as (_ & _ & Hcs & _).
  intros c. cbn [model with_model with_connections connections keyframes].
  rewrite Hcs, elem_of_app.
  intros [([k v] & _ & Hrec)%list_elem_of_omap | Hin%subseteq_drop].
  - unfold record_for in Hrec.
    destruct (connectivity !! inverseKey _ _) as [inv | ]; [ | done ].
    injection Hrec as <-. cbn [from to].
    split; by apply (resolve_endpoint_ok (model st)).
  - apply elem_of_resize in Hin as [Hin | ->]; [by apply Hok | ].
    split; by left.
Qed.

Lemma step_endpoints_ok (c : call) (st st' : State) :
  same_handles (model st) -> endpoints_ok (model st) ->
  step c st = Some st' -> endpoints_ok (model st').
Proof.
  intros Hsame Hok Hstep. destruct c; cbn in Hstep.
  - destruct (publishGraph connectivity st) as [s | | s] eqn:E; try done.
    injection Hstep as <-. by eapply publishGraph_endpoints_ok.
  - injection Hstep as <-. unfold publishKeyframes.
    destruct (display3D_off st); [done | ]. cbn [model with_model].
    destruct (publishKeyframes_loop_grows HCalib frames (model st))
      as (Hp & _ & _ & _ & _ & _ & Hc & _).
    by eapply endpoints_ok_grow.
  - injection Hstep as <-. unfold publishCamPose.
    destruct (display3D_off st); [done | ].
    by destruct (negb _).
  - injection Hstep as <-. unfold pushLiveFrame. by destruct (_ || _)%bool.
  - injection Hstep as <-. unfold pushDepthImage. by destruct (_ || _)%bool.
  - by injection Hstep as <-.
  - by injection Hstep as <-.
  - destruct (_ && _)%bool; [ | done ]. injection Hstep as <-.
    rewrite run_iteration_state.
    destruct (needReset st); [by intros c ?%elem_of_nil | ].
    destruct (before_reset_test_frame p st) as (Hk & _ & Hc & _).
    apply (endpoints_ok_grow (model st)); [by rewrite Hk | done | done].
Qed.

Lemma reachable_endpoints_ok (st : State) :
  reachable st -> endpoints_ok (model st).
Proof.
  induction 1 as [ | c st st' Hr IH Hstep].
  - by intros c ?%elem_of_nil.
  - eapply step_endpoints_ok; [ | done | done ].
    by destruct (reachable_registry_ok st Hr).
Qed.

(** X7. In every state the viewer goes through, each endpoint of each
    element of the connection list, whether written by the last publish,
    left from an earlier one or appended by the resize, is null or a
    listed keyframe, hence a live object: [drawConstraints] never reads a
    deleted handle, and a record it draws yields two vertices. *)
Theorem connection_endpoints_never_dangle (st : State) :
  reachable st ->
  forall c, c ∈ connections (model st) ->
    (from c = null \/ (from c ∈ keyframes (model st)
                       /\ is_Some (heap (model st) !! from c)))
    /\ (to c = null \/ (to c ∈ keyframes (model st)
                        /\ is_Some (heap (model st) !! to c)))
    /\ (forall wanted,
          constraint_lines wanted (heap (model st)) c = []
          \/ exists a b,
               constraint_lines wanted (heap (model st)) c
               = [GlVertex3f a; GlVertex3f b]).
Proof.
  intros Hr c Hin.
  destruct (reachable_registry_ok st Hr) as (_ & _ & _ & Hlive & Hnn).
  destruct (reachable_endpoints_ok st Hr c Hin) as [Hf Ht].
  assert (Hf' : from c = null
                \/ (from c ∈ keyframes (model st)
                    /\ is_Some (heap (model st) !! from c))).
  { destruct Hf as [? | ?]; [by left | right; split; [done | by apply Hlive]]. }
  assert (Ht' : to c = null
                \/ (to c ∈ keyframes (model st)
                    /\ is_Some (heap (model st) !! to c))).
  { destruct Ht as [? | ?]; [by left | right; split; [done | by apply Hlive]]. }
  split; [done | ]. split; [done | ].
  intros wanted. unfold constraint_lines.
  destruct (N.eqb (to c) null) eqn:Eto; [by left | ].
  destruct (N.eqb (from c) null) eqn:Efrom; [by left | ].
  apply N.eqb_neq in Eto, Efrom. cbn [orb].
  destruct (wanted _ _); [ | by left ]. right.
  destruct Hf' as [? | [_ [kf Hkf]]]; [done | ].
  destruct Ht' as [? | [_ [kt Hkt]]]; [done | ].
  unfold vertex_of. rewrite Hkf, Hkt. by eexists _, _.
Qed.

(** X8. In every state the viewer goes through each listed keyframe is
    live, so the trajectory strip of [drawConstraints] has exactly one
    vertex for each keyframe, in the order of the list. *)
Theorem trajectory_strip_has_one_vertex_per_keyframe (st : State) :
  reachable st ->
  exists ks,
    Forall2 (fun p k => heap (model st) !! p = Some k) (keyframes (model st)) ks
    /\ concat (map (vertex_of (heap (model st))) (keyframes (model st)))
       = map (fun k => GlVertex3f (kfd_translation k)) ks.
Proof.
  intros Hr.
  destruct (reachable_registry_ok st Hr) as (_ & _ & _ & Hlive & _).
  revert Hlive. generalize (heap (model st)) as hp.
  induction (keyframes (model st)) as [ | p l IH]; intros hp Hlive.
  - exists []. by split; [constructor | ].
  - destruct (Hlive p (list_elem_of_here _ _)) as [k Hk].
    destruct (IH hp) as (ks & Hks & Heq).
    { intros q Hq. apply Hlive. by apply list_elem_of_further. }
    exists (k :: ks). split; [by constructor | ].
    cbn. unfold vertex_of at 1. rewrite Hk. cbn. by rewrite Heq.
Qed.

End Endpoints.

(** ** The trajectory log *)

Section Trajectory.
Context `{C : Collaborators} `{A : Allocator}.

(** X9. While the 3D display is off [publishCamPose] changes nothing, not
    even the window of intervals. Otherwise it appends the position of the
    frame to the trajectory, sets the current camera from the frame and
    leaves the keyframes, the map and the connections as they were. Along
    any call that returns the trajectory only grows at its end, unless an
    iteration with a pending reset empties it. *)
Theorem trajectory_is_append_only :
  (forall frame HCalib now st,
     display3D_off st = true -> publishCamPose frame HCalib now st = st)
  /\ (forall frame HCalib now st,
        display3D_off st = false ->
        let m := model st in
        let m' := model (publishCamPose frame HCalib now st) in
        allFramePoses m' = allFramePoses m ++ [shell_translation frame]
        /\ heap m' = alter (setFromF frame HCalib) (currentCam m) (heap m)
        /\ currentCam m' = currentCam m
        /\ keyframes m' = keyframes m
        /\ keyframesByKFID m' = keyframesByKFID m
        /\ connections m' = connections m)
  /\ (forall c st st',
        step c st = Some st' ->
        allFramePoses (model st) `prefix_of` allFramePoses (model st')
        \/ (allFramePoses (model st') = []
            /\ exists p, c = CallIterate p /\ needReset st = true)).
Proof.
  split; [ | split ].
  - intros frame HCalib now st Hd. unfold publishCamPose. by rewrite Hd.
  - intros frame HCalib now st Hd. cbn zeta. unfold publishCamPose.
    rewrite Hd. unfold display3D_off in Hd.
    apply orb_false_iff in Hd as [_ Hd]. by rewrite Hd.
  - intros c st st' Hstep. destruct c; cbn in Hstep.
    + destruct (publishGraph connectivity st) as [s | | s] eqn:E; try done.
      injection Hstep as <-.
      destruct (publishGraph_frame _ _ _ E) as [_ [cs ->]]. by left.
    + injection Hstep as <-. left. unfold publishKeyframes.
      destruct (display3D_off st); [done | ]. cbn [model with_model].
      destruct (publishKeyframes_loop_grows HCalib frames (model st))
        as (_ & _ & _ & _ & _ & -> & _). done.
    + injection Hstep as <-. left. unfold publishCamPose.
      destruct (display3D_off st); [done | ].
      destruct (negb _); cbn; [done | by apply prefix_app_r].
    + injection Hstep as <-. left. unfold pushLiveFrame.
      by destruct (_ || _)%bool.
    + injection Hstep as <-. left. unfold pushDepthImage.
      by destruct (_ || _)%bool.
    + injection Hstep as <-. by left.
    + injection Hstep as <-. by left.
    + destruct (_ && _)%bool; [ | done ]. injection Hstep as <-.
      rewrite run_iteration_state.
      destruct (needReset st); [right; split; [done | by exists p] | left].
      by destruct (before_reset_test_rest p st) as (_ & -> & _).
Qed.

End Trajectory.

(** ** Keys, outcomes and counts of a connectivity publish *)

Section GraphOutcomes.
Context `{C : Collaborators} `{A : Allocator}.

Implicit Types (byid : gmap Z ptr) (connectivity : gmap Z Vector2i).
Implicit Types (acc : GraphLoop) (p : Z * Vector2i).

Lemma to_int32_small (x : Z) : 0 <= x < 2 ^ 31 -> to_int32 x = x.
Proof.
  intros Hx. unfold to_int32. rewrite Z.mod_small by lia.
  by rewrite (proj2 (Z.ltb_lt _ _)) by lia.
Qed.

Lemma to_int32_range (x : Z) : - 2 ^ 31 <= to_int32 x < 2 ^ 31.
Proof.
  unfold to_int32. pose proof (Z.mod_pos_bound x (2 ^ 32)).
  destruct (x mod 2 ^ 32 <? 2 ^ 31) eqn:E;
    [apply Z.ltb_lt in E | apply Z.ltb_ge in E]; lia.
Qed.

Lemma inverseKey_pair_key (h t : Z) :
  0 <= h < 2 ^ 31 -> 0 <= t < 2 ^ 31 -> inverseKey h t = pair_key t h.
Proof.
  intros Hh Ht. unfold inverseKey, wrap_u64, pair_key.
  rewrite Z.shiftl_mul_pow2 by lia.
  rewrite (Z.mod_small t), (Z.mod_small h) by lia.
  rewrite (Z.mod_small (t * 2 ^ 32)) by lia.
  rewrite Z.mod_small by lia. done.
Qed.

Lemma decode_pair_key (h t : Z) :
  0 <= h < 2 ^ 31 -> 0 <= t < 2 ^ 31 ->
  decode_host (pair_key h t) = h /\ decode_target (pair_key h t) = t.
Proof.
  intros Hh Ht. unfold decode_host, decode_target, pair_key. split.
  - rewrite Z.shiftr_div_pow2 by lia.
    rewrite Z.div_add_l by lia. rewrite (Z.div_small t) by lia.
    rewrite Z.add_0_r. by apply to_int32_small.
  - change 0xFFFFFFFF with (Z.ones 32). rewrite Z.land_ones by lia.
    rewrite Z.add_comm, Z.mod_add by lia. rewrite Z.mod_small by lia.
    by apply to_int32_small.
Qed.

Lemma pair_key_decode (k : Z) :
  0 <= k < 2 ^ 64 -> 0 <= decode_host k -> 0 <= decode_target k ->
  pair_key (decode_host k) (decode_target k) = k.
Proof.
  unfold decode_host, decode_target, pair_key. intros Hk.
  change 0xFFFFFFFF with (Z.ones 32). rewrite Z.land_ones by lia.
  rewrite Z.shiftr_div_pow2 by lia.
  assert (Hq : 0 <= k / 2 ^ 32 < 2 ^ 32).
  { split; [apply Z.div_pos; lia | apply Z.div_lt_upper_bound; lia]. }
  pose proof (Z.mod_pos_bound k (2 ^ 32)) as Hr.
  unfold to_int32. rewrite (Z.mod_small (k / 2 ^ 32)) by lia.
  rewrite Z.mod_mod by lia.
  destruct (k / 2 ^ 32 <? 2 ^ 31) eqn:E1; [ | apply Z.ltb_ge in E1; lia ].
  destruct (k mod 2 ^ 32 <? 2 ^ 31) eqn:E2; [ | apply Z.ltb_ge in E2; lia ].
  intros _ _. rewrite (Z.div_mod k (2 ^ 32)) at 3 by lia. lia.
Qed.

(** X10. The packing of a pair of identifiers into a key and its decoding
    are inverse to each other on identifiers that fit an [int] and are not
    negative: the inverse key of (host, target) is the key of (target,
    host), it decodes to target and host, and a key whose two halves decode
    to numbers that are not negative is the key of what it decodes to. *)
Theorem key_packing_round_trip :
  (forall h t,
     0 <= h < 2 ^ 31 -> 0 <= t < 2 ^ 31 ->
     inverseKey h t = pair_key t h
     /\ decode_host (inverseKey h t) = t
     /\ decode_target (inverseKey h t) = h
     /\ inverseKey (decode_host (inverseKey h t))
                   (decode_target (inverseKey h t)) = pair_key h t)
  /\ (forall k,
        0 <= k < 2 ^ 64 -> 0 <= decode_host k -> 0 <= decode_target k ->
        pair_key (decode_host k) (decode_target k) = k).
Proof.
  split; [ | exact pair_key_decode ].
  intros h t Hh Ht. rewrite (inverseKey_pair_key h t) by done.
  destruct (decode_pair_key t h Ht Hh) as [-> ->].
  by rewrite (inverseKey_pair_key t h).
Qed.

(** *** When a publish returns *)

Lemma publishGraph_entry_outcome byid connectivity acc p :
  match publishGraph_entry byid connectivity acc p with
  | Returned _ => entry_passes connectivity p
  | CheckFailed => entry_fails_check p
  | OutOfRange _ => entry_throws connectivity p
  end.
Proof.
  unfold publishGraph_entry, entry_passes, entry_fails_check, entry_throws,
    bad_self_pair.
  destruct (0 <=? decode_host p.1) eqn:Eh; cbn [negb];
    [apply Z.leb_le in Eh | apply Z.leb_gt in Eh; by left].
  destruct (0 <=? decode_target p.1) eqn:Et; cbn [negb];
    [apply Z.leb_le in Et | apply Z.leb_gt in Et; right; by left].
  destruct (decode_host p.1 =? decode_target p.1) eqn:Eeq;
    [apply Z.eqb_eq in Eeq | apply Z.eqb_neq in Eeq].
  - destruct (v0 p.2 =? 0) eqn:E0; cbn [negb];
      [apply Z.eqb_eq in E0 | apply Z.eqb_neq in E0; right; right; by auto].
    destruct (v1 p.2 =? 0) eqn:E1; cbn [negb];
      [apply Z.eqb_eq in E1 | apply Z.eqb_neq in E1; right; right; by auto].
    repeat split; first [done | lia | (intros; lia)].
  - destruct (decode_target p.1 <? decode_host p.1) eqn:Egt;
      [apply Z.ltb_lt in Egt | apply Z.ltb_ge in Egt].
    + repeat split; first [done | lia | (intros; lia)].
    + destruct (connectivity !! inverseKey _ _) as [inv | ] eqn:Einv.
      * repeat split; first [done | lia | (intros; by eexists)].
      * repeat split; first [done | lia].
Qed.

Lemma publishGraph_loop_outcome byid connectivity entries acc :
  match publishGraph_loop byid connectivity entries acc with
  | Returned _ => Forall (entry_passes connectivity) entries
  | CheckFailed => Exists entry_fails_check entries
  | OutOfRange _ => Exists (entry_throws connectivity) entries
  end.
Proof.
  revert acc. induction entries as [ | p entries IH]; intros acc;
    [constructor | ].
  cbn [publishGraph_loop].
  pose proof (publishGraph_entry_outcome byid connectivity acc p) as Hp.
  destruct (publishGraph_entry byid connectivity acc p) as [acc1 | | acc1].
  - specialize (IH acc1).
    destruct (publishGraph_loop byid connectivity entries acc1).
    + by constructor.
    + by apply Exists_cons_tl.
    + by apply Exists_cons_tl.
  - by apply Exists_cons_hd.
  - by apply Exists_cons_hd.
Qed.

Lemma publishGraph_loop_passes_returned byid connectivity entries acc :
  Forall (entry_passes connectivity) entries ->
  exists acc', publishGraph_loop byid connectivity entries acc = Returned acc'.
Proof.
  intros Hall. revert acc.
  induction Hall as [ | p entries (Hh & Ht & Hgood & Hinv) _ IH]; intros acc.
  - by eexists.
  - cbn [publishGraph_loop].
    destruct (publishGraph_entry_cases byid connectivity acc p Hh Ht Hinv)
      as [[Hbad _] | [_ [acc' ->]]]; [done | apply IH].
Qed.

Lemma entries_pass_iff connectivity :
  Forall (entry_passes connectivity) (entries_in_order connectivity)
  <-> nonnegative_ids connectivity
      /\ inverse_keys_present connectivity
      /\ ~ map_Exists bad_self_pair connectivity.
Proof.
  rewrite Forall_forall. split.
  - intros Hall. split; [ | split ].
    + intros k v Hkv.
      by destruct (Hall (k, v) (proj2 (elem_of_entries_in_order _ k v) Hkv))
        as (? & ? & _).
    + intros k v Hkv.
      by destruct (Hall (k, v) (proj2 (elem_of_entries_in_order _ k v) Hkv))
        as (_ & _ & _ & ?).
    + intros (k & v & Hkv & Hbad).
      by destruct (Hall (k, v) (proj2 (elem_of_entries_in_order _ k v) Hkv))
        as (_ & _ & ? & _).
  - intros (Hnn & Hinv & Hgood) [k v] Hin%elem_of_entries_in_order.
    destruct (Hnn k v Hin) as [Hh Ht]. unfold entry_passes. cbn [fst snd].
    split; [done | ]. split; [done | ].
    split; [intros Hbad; apply Hgood; by exists k, v | by apply (Hinv k v)].
Qed.

(** X11. While the 3D display is on, [publishGraph] returns exactly when
    every key decodes to a host and a target that are not negative, no
    self-pair carries a count that is not zero, and every key with host
    below target has its inverse key in the map. When the first two hold
    and an inverse key is missing, the call ends in the [std::out_of_range]
    of [at]: a missing inverse key is the only way to that exception. *)
Theorem publishGraph_returns_iff connectivity st :
  display3D_off st = false ->
  ((exists st', publishGraph connectivity st = Returned st')
   <-> nonnegative_ids connectivity
       /\ inverse_keys_present connectivity
       /\ ~ map_Exists bad_self_pair connectivity)
  /\ ((exists st', publishGraph connectivity st = OutOfRange st') ->
      ~ inverse_keys_present connectivity)
  /\ (nonnegative_ids connectivity ->
      ~ map_Exists bad_self_pair connectivity ->
      ~ inverse_keys_present connectivity ->
      exists st', publishGraph connectivity st = OutOfRange st').
Proof.
  intros Hon. rewrite publishGraph_running by done.
  unfold publishGraph_locked. set (acc0 := mkGraphLoop _ _ _).
  rewrite <- entries_pass_iff.
  pose proof (publishGraph_loop_outcome (keyframesByKFID (model st))
                connectivity (entries_in_order connectivity) acc0) as Hout.
  pose proof (publishGraph_loop_passes_returned (keyframesByKFID (model st))
                connectivity (entries_in_order connectivity) acc0) as Hret.
  destruct (publishGraph_loop _ _ _ acc0) as [g | | g].
  - split; [split; [done | by eexists] | ].
    split; [by intros [st' ?] | ].
    intros Hnn Hgood Hinv. exfalso. apply Hinv.
    by apply entries_pass_iff in Hout as (_ & ? & _).
  - split; [split; [by intros [st' ?] | ] | ].
    { intros Hall. by destruct (Hret Hall). }
    split; [by intros [st' ?] | ].
    intros Hnn Hgood _. exfalso.
    apply Exists_exists in Hout as ([k v] & Hin%elem_of_entries_in_order & Hbad).
    destruct (Hnn k v Hin) as [Hh Ht]. unfold entry_fails_check in Hbad.
    cbn [fst snd] in Hbad. destruct Hbad as [? | [? | Hbad]]; [lia | lia | ].
    apply Hgood. by exists k, v.
  - split; [split; [by intros [st' ?] | ] | ].
    { intros Hall. by destruct (Hret Hall). }
    split; [ | intros _ _ _; by eexists ].
    intros _ Hinv.
    apply Exists_exists in Hout as ([k v] & Hin%elem_of_entries_in_order & Hthr).
    destruct Hthr as (_ & Hlt & Hnone). cbn [fst] in *.
    destruct (Hinv k v Hin Hlt) as [inv Hsome]. congruence.
Qed.

End GraphOutcomes.

(** ** Maps that hold every pair both ways *)

Section CompleteMaps.
Context `{C : Collaborators} `{A : Allocator}.

Implicit Types (connectivity : gmap Z Vector2i).

Lemma decode_host_range (k : Z) : - 2 ^ 31 <= decode_host k < 2 ^ 31.
Proof. apply to_int32_range. Qed.

Lemma decode_target_range (k : Z) : - 2 ^ 31 <= decode_target k < 2 ^ 31.
Proof. apply to_int32_range. Qed.

Lemma unordered_pairs_covered connectivity :
  nonnegative_ids connectivity -> symmetric_keys connectivity ->
  unordered_pairs connectivity
  ⊆ list_to_set ((fun p => unordered_pair_of p.1)
                   <$> filter forward_entry (entries_in_order connectivity)).
Proof.
  intros Hnn Hsym pr. unfold unordered_pairs.
  rewrite !elem_of_list_to_set, !list_elem_of_fmap.
  intros (k & -> & [Hne ([k' v] & Hk & Hin)%list_elem_of_fmap]%list_elem_of_filter).
  cbn [fst] in Hk. subst k'. apply elem_of_map_to_list in Hin.
  destruct (Hnn k v Hin) as [Hh Ht].
  pose proof (decode_host_range k). pose proof (decode_target_range k).
  destruct (Z_lt_dec (decode_host k) (decode_target k)) as [Hlt | Hge].
  - exists (k, v). split; [done | ].
    apply list_elem_of_filter. split; [done | ].
    by apply elem_of_entries_in_order.
  - destruct (Hsym k v Hin Hne) as [v' Hv'].
    rewrite inverseKey_pair_key in Hv' by lia.
    destruct (decode_pair_key (decode_target k) (decode_host k)) as [Hdh Hdt];
      [lia | lia | ].
    exists (pair_key (decode_target k) (decode_host k), v'). split.
    + unfold unordered_pair_of. cbn [fst]. rewrite Hdh, Hdt.
      f_equal; lia.
    + apply list_elem_of_filter. split.
      * unfold forward_entry. cbn [fst]. rewrite Hdh, Hdt. lia.
      * by apply elem_of_entries_in_order.
Qed.

(** X12. For a map of [uint64_t] keys whose identifiers are not negative
    and which holds the inverse of every key with host and target
    different, the loop of [publishGraph] writes a record for exactly one
    key of each unordered pair. When the publish returns, with [n] the
    number of unordered pairs of the map, the list it leaves has as many
    elements as the map has keys; its first [n] elements are the records
    of the keys with host below target, in the order of the keys, one for
    each pair; and its elements from [n] on are those of the list before
    the call, resized to the size of the map: not one more or less than
    [n] elements is written. *)
Theorem complete_map_one_record_per_pair connectivity :
  valid_keys connectivity ->
  nonnegative_ids connectivity ->
  symmetric_keys connectivity ->
  length (filter forward_entry (entries_in_order connectivity))
  = size (unordered_pairs connectivity)
  /\ (forall st st',
        display3D_off st = false ->
        publishGraph connectivity st = Returned st' ->
        let n := size (unordered_pairs connectivity) in
        let cs' := connections (model st') in
        length cs' = size connectivity
        /\ (n <= length cs')%nat
        /\ Forall2 (fun p c =>
                      record_for (keyframesByKFID (model st)) connectivity p
                      = Some c)
                   (filter forward_entry (entries_in_order connectivity))
                   (take n cs')
        /\ drop n cs'
           = drop n (resize (size connectivity) conn0
                            (connections (model st)))).
Proof.
  intros Hv Hnn Hsym.
  assert (Heq : length (filter forward_entry (entries_in_order connectivity))
                = size (unordered_pairs connectivity)).
  { apply Nat.le_antisymm; [by apply forward_entries_count | ].
    rewrite <- (length_fmap (fun p => unordered_pair_of p.1)).
    rewrite <- (size_list_to_set (C := gset (Z * Z)))
      by by apply forward_entries_pairs_NoDup.
    by apply subseteq_size, unordered_pairs_covered. }
  split; [exact Heq | ].
  intros st st' Hon Hrun. cbn zeta.
  rewrite publishGraph_running in Hrun by done.
  destruct (publishGraph_locked _ _ _) as [g | | g] eqn:E; try done.
  injection Hrun as <-.
  apply publishGraph_locked_returned in E as (Hlen & _ & Hcs & Hsize).
  cbn [model with_model with_connections connections].
  pose proof (omap_total _ _ Hlen) as Hrec.
  fold (written_records (keyframesByKFID (model st)) connectivity) in Hrec.
  rewrite Heq in Hlen. rewrite <- Hlen.
  split; [exact Hsize | ].
  split; [rewrite Hcs, length_app; lia | ].
  split.
  - by rewrite Hcs, take_app_length.
  - by rewrite Hcs, drop_app_length.
Qed.

End CompleteMaps.

(** ** The window over a sequence of calls *)

Section WindowOverCalls.
Context `{C : Collaborators} `{A : Allocator}.

Lemma push_window_drop (d : spec_float) (l : list spec_float) :
  (length l <= 10)%nat ->
  push_window d l = drop (length (l ++ [d]) - 10) (l ++ [d]).
Proof.
  intros Hl. rewrite length_app. cbn [length].
  destruct (decide (length l < 10)%nat) as [Hlt | Hge].
  - rewrite push_window_below by done.
    by replace (length l + 1 - 10)%nat with 0%nat by lia.
  - destruct l as [ | x l]; [cbn in Hge; lia | ].
    rewrite push_window_full by lia.
    by replace (length (x :: l) + 1 - 10)%nat with 1%nat by lia.
Qed.

Lemma push_windows_last_ten (ds l : list spec_float) :
  (length l <= 10)%nat ->
  foldl (fun l d => push_window d l) l ds
  = drop (length (l ++ ds) - 10) (l ++ ds).
Proof.
  revert l. induction ds as [ | d ds IH]; intros l Hl.
  - cbn. rewrite app_nil_r.
    by replace (length l - 10)%nat with 0%nat by lia.
  - cbn [foldl]. rewrite IH by by apply push_window_length.
    rewrite push_window_drop by done.
    set (k := (length (l ++ [d]) - 10)%nat).
    assert (Hk : (k <= length (l ++ [d]))%nat) by lia.
    rewrite <- (drop_app_le (l ++ [d]) ds k) by done.
    rewrite drop_drop, length_drop.
    replace (l ++ d :: ds) with ((l ++ [d]) ++ ds)
      by (by rewrite <- app_assoc).
    f_equal. subst k. rewrite !length_app. cbn [length]. lia.
Qed.

Lemma publish_poses_window (HCalib : CalibHessian)
    (poses : list (FrameShell * timeval)) (st : State) :
  display3D_off st = false ->
  let st' := publish_poses HCalib poses st in
  display3D_off st' = false
  /\ lastNTrackingMs (model st')
     = foldl (fun l d => push_window d l) (lastNTrackingMs (model st))
             (intervals (last_track (model st)) poses.*2)
  /\ allFramePoses (model st')
     = allFramePoses (model st) ++ map shell_translation poses.*1.
Proof.
  cbn zeta. unfold publish_poses. revert st.
  induction poses as [ | [frame t] poses IH]; intros st Hon.
  - cbn. by rewrite app_nil_r.
  - cbn [foldl fst snd].
    set (st1 := publishCamPose frame HCalib t st).
    assert (H1 : display3D_off st1 = false
                 /\ lastNTrackingMs (model st1)
                    = push_window (elapsed_ms (last_track (model st)) t)
                                  (lastNTrackingMs (model st))
                 /\ last_track (model st1) = t
                 /\ allFramePoses (model st1)
                    = allFramePoses (model st) ++ [shell_translation frame]).
    { unfold st1, publishCamPose. rewrite Hon.
      pose proof Hon as Hon'. unfold display3D_off in Hon'.
      apply orb_false_iff in Hon' as [_ Hon']. by rewrite Hon'. }
    destruct H1 as (Hon1 & Hw & Ht & Hp).
    destruct (IH st1 Hon1) as (IH1 & IH2 & IH3).
    split; [done | ]. split.
    + rewrite IH2, Hw, Ht. done.
    + rewrite IH3, Hp, <- app_assoc. done.
Qed.

(** X13. After any number of camera poses published while the 3D display
    is on, the window of the tracking rate holds the last ten of the
    intervals it held before followed by the intervals between the
    successive clock readings, oldest first, and the trajectory has grown
    by the positions of the frames, in the order of the calls. *)
Theorem window_holds_last_ten_intervals (HCalib : CalibHessian)
    (poses : list (FrameShell * timeval)) (st : State) :
  display3D_off st = false ->
  (length (lastNTrackingMs (model st)) <= 10)%nat ->
  let st' := publish_poses HCalib poses st in
  let all := lastNTrackingMs (model st)
             ++ intervals (last_track (model st)) poses.*2 in
  lastNTrackingMs (model st') = drop (length all - 10) all
  /\ length (lastNTrackingMs (model st')) = Nat.min 10 (length all)
  /\ allFramePoses (model st')
     = allFramePoses (model st) ++ map shell_translation poses.*1.
Proof.
  intros Hon Hl. cbn zeta.
  destruct (publish_poses_window HCalib poses st Hon) as (_ & Hw & Hp).
  rewrite Hw, push_windows_last_ten by done.
  split; [done | ]. split; [ | done ].
  rewrite length_drop. lia.
Qed.

End WindowOverCalls.

(** ** A viewer with all display disabled *)

Section DisplayDisabled.
Context `{C : Collaborators} `{A : Allocator}.

(** No call changes [disableAllDisplay]. *)
Lemma step_disableAllDisplay (c : call) (st st' : State) :
  step c st = Some st' ->
  disableAllDisplay (globals st') = disableAllDisplay (globals st).
Proof.
  intros Hstep. destruct c; cbn in Hstep.
  - destruct (publishGraph connectivity st) as [s | | s] eqn:E; try done.
    injection Hstep as <-. unfold publishGraph in E.
    destruct (display3D_off st); [by injection E as <- | ].
    destruct (publishGraph_locked _ _ _); [by injection E as <- | done | done].
  - injection Hstep as <-. unfold publishKeyframes.
    by destruct (display3D_off st).
  - injection Hstep as <-. unfold publishCamPose.
    destruct (display3D_off st); [done | ]. by destruct (negb _).
  - injection Hstep as <-. unfold pushLiveFrame. by destruct (_ || _)%bool.
  - injection Hstep as <-. unfold pushDepthImage. by destruct (_ || _)%bool.
  - by injection Hstep as <-.
  - by injection Hstep as <-.
  - destruct (_ && _)%bool; [ | done ]. injection Hstep as <-.
    rewrite run_iteration_state.
    destruct (before_reset_test_rest p st) as (_ & _ & _ & _ & _ & Hd & _).
    by destruct (needReset st).
Qed.

Lemma setBlack_is_all_black (img : MinimalImageB3) : all_black (setBlack img).
Proof. apply Forall_forall. intros px. apply setBlack_all_black. Qed.

Lemma setBlack_black_buffer (w h : Z) (img : MinimalImageB3) :
  black_buffer w h img -> black_buffer w h (setBlack img).
Proof.
  intros [Hl _]. split; [by rewrite setBlack_length | ].
  apply setBlack_is_all_black.
Qed.

Lemma new_black_image_black_buffer (w h : Z) :
  black_buffer w h (new_black_image w h).
Proof.
  split; [ | apply setBlack_is_all_black ].
  unfold new_black_image. rewrite setBlack_length. apply length_replicate.
Qed.

Lemma before_reset_test_size (p : Panel) (st : State) :
  w (before_reset_test p st) = w st /\ h (before_reset_test p st) = h st.
Proof.
  unfold before_reset_test.
  destruct (setting_render_display3D (globals st)); [ | done ].
  unfold render3D. by destruct (foldl _ _ _) as [[hp n] tr].
Qed.

Lemma step_size (c : call) (st st' : State) :
  step c st = Some st' -> w st' = w st /\ h st' = h st.
Proof.
  intros Hstep. destruct c; cbn in Hstep.
  - destruct (publishGraph connectivity st) as [s | | s] eqn:E; try done.
    injection Hstep as <-. unfold publishGraph in E.
    destruct (display3D_off st); [by injection E as <- | ].
    destruct (publishGraph_locked _ _ _); [by injection E as <- | done | done].
  - injection Hstep as <-. unfold publishKeyframes.
    by destruct (display3D_off st).
  - injection Hstep as <-. unfold publishCamPose.
    destruct (display3D_off st); [done | ]. by destruct (negb _).
  - injection Hstep as <-. unfold pushLiveFrame. by destruct (_ || _)%bool.
  - injection Hstep as <-. unfold pushDepthImage. by destruct (_ || _)%bool.
  - by injection Hstep as <-.
  - by injection Hstep as <-.
  - destruct (negb _ && _)%bool; [ | done ]. injection Hstep as <-.
    rewrite run_iteration_state.
    destruct (before_reset_test_size p st) as [Hw Hh].
    by destruct (needReset st).
Qed.

Lemma step_untouched (c : call) (st st' : State) :
  disableAllDisplay (globals st) = true ->
  untouched st -> step c st = Some st' -> untouched st'.
Proof.
  intros Hd Hu Hstep.
  assert (Hoff : display3D_off st = true) by (unfold display3D_off; by rewrite Hd).
  destruct c; cbn in Hstep.
  - rewrite publishGraph_gated in Hstep by done. by injection Hstep as <-.
  - injection Hstep as <-. unfold publishKeyframes. by rewrite Hoff.
  - injection Hstep as <-. unfold publishCamPose. by rewrite Hoff.
  - injection Hstep as <-. unfold pushLiveFrame. by rewrite Hd.
  - injection Hstep as <-. unfold pushDepthImage. by rewrite Hd.
  - by injection Hstep as <-.
  - by injection Hstep as <-.
  - destruct (_ && _)%bool; [ | done ]. injection Hstep as <-.
    rewrite run_iteration_state.
    destruct Hu as (H1 & H2 & H3 & H4 & H5 & H6 & H7 & H8 & H9).
    destruct (before_reset_test_frame p st) as (Hk & Hm & Hc & Ht & Hmp & _).
    destruct (before_reset_test_rest p st) as (_ & Ha & Hv & Hkf & Hr & _).
    destruct (before_reset_test_size p st) as [Hw Hh].
    assert (Hb : untouched (before_reset_test p st)).
    { unfold untouched.
      by rewrite Hk, Hm, Hc, Ha, Ht, Hmp, Hv, Hkf, Hr, Hw, Hh. }
    destruct (needReset st); [ | done ].
    destruct Hb as (_ & _ & _ & _ & B5 & B6 & B7 & B8 & B9).
    unfold untouched.
    rewrite reset_internal_window_tracking, reset_internal_window_mapping.
    do 6 (split; [done | ]).
    split; [exact (setBlack_black_buffer _ _ _ B7) | ].
    split; [exact (setBlack_black_buffer _ _ _ B8) | ].
    exact (setBlack_black_buffer _ _ _ B9).
Qed.

(** X14. No call changes [disableAllDisplay], nor the size [w], [h] given
    to the constructor. A viewer constructed with [disableAllDisplay] set
    therefore stays as it was constructed, whatever is published and
    however often the loop runs or resets: no keyframe, no connection, no
    pose, no interval, and three buffers of [w * h] pixels, all black. *)
Theorem disabled_viewer_stays_untouched :
  (forall c st st',
     step c st = Some st' ->
     disableAllDisplay (globals st') = disableAllDisplay (globals st)
     /\ w st' = w st /\ h st' = h st)
  /\ (forall st,
        reachable st -> disableAllDisplay (globals st) = true ->
        untouched st).
Proof.
  split.
  { intros c st st' Hstep. split; [by eapply step_disableAllDisplay | ].
    by eapply step_size. }
  induction 1 as [ | c st st' Hr IH Hstep]; intros Hd.
  - unfold untouched. cbn. do 6 (split; [done | ]).
    split; [ | split ]; apply new_black_image_black_buffer.
  - rewrite (step_disableAllDisplay c st st' Hstep) in Hd.
    by eapply step_untouched; [ | apply IH | ].
Qed.

End DisplayDisabled.

(** ** Uploads *)

Section Uploads.
Context `{C : Collaborators} `{A : Allocator}.

Lemma draw3D_not_upload (tr : list event) :
  Forall (fun e => is_draw3D e = true) tr ->
  Forall (fun e => is_upload e = false) tr.
Proof. intros H. eapply Forall_impl; [exact H | ]. by intros []. Qed.

Lemma render3D_no_upload (st : State) :
  events_of is_upload (render3D st).2 = [].
Proof.
  unfold render3D.
  pose proof (draw_keyframes_draw3D (settings st) (keyframes (model st))
                (heap (model st), 0, []) (Forall_nil_2 _)) as Htr.
  destruct (foldl _ _ _) as [[hp n] tr]. cbn [snd] in *.
  set (st1 := with_model _ st).
  pose proof (draw3D_not_upload _ (drawConstraints_draw3D st1)) as Hdc.
  generalize dependent (drawConstraints st1). intros dc Hdc.
  apply events_of_none.
  repeat (apply Forall_app; split); try by repeat constructor.
  - by apply draw3D_not_upload.
  - destruct (settings_showCurrentCamera _); by repeat constructor.
Qed.

Lemma upload_images_uploads (st : State) :
  events_of is_upload (upload_images st).2 = dirty_uploads (images st).
Proof.
  unfold upload_images, dirty_uploads. cbn [snd].
  by destruct (videoImgChanged _), (kfImgChanged _), (resImgChanged _).
Qed.

Lemma render_textures_no_upload (st : State) :
  events_of is_upload (render_textures st) = [].
Proof.
  unfold render_textures.
  by destruct (setting_render_displayVideo _),
              (setting_render_displayDepth _),
              (setting_render_displayResidual _).
Qed.

Lemma run_iteration_uploads (p : Panel) (st : State) :
  events_of is_upload (run_iteration p st).2 = dirty_uploads (images st).
Proof.
  unfold run_iteration.
  assert (H3D : exists st1 tr1,
            (if setting_render_display3D (globals st) then render3D st
             else (st, [])) = (st1, tr1)
            /\ images st1 = images st /\ events_of is_upload tr1 = []).
  { destruct (setting_render_display3D (globals st)).
    - exists (render3D st).1, (render3D st).2.
      split; [by destruct (render3D st) | ].
      split; [apply render3D_frame | apply render3D_no_upload].
    - by exists st, []. }
  destruct H3D as (st1 & tr1 & -> & Hi & Hno).
  pose proof (upload_images_uploads st1) as Hup.
  destruct (upload_images st1) as [st2 tr2]. cbn [snd] in Hup.
  destruct (update_fps st2) as [st3 tr3] eqn:E3.
  assert (H3 : events_of is_upload tr3 = []) by (by inversion E3).
  pose proof (render_textures_no_upload st3) as H4.
  destruct (update_parameters p st3) as [st5 tr5] eqn:E5.
  assert (H5 : events_of is_upload tr5 = []).
  { inversion E5. by destruct (ui_Reset p). }
  assert (H6 : events_of is_upload
                 (if needReset st5 then (reset_internal st5, reset_internal_events)
                  else (st5, [])).2 = []) by (by destruct (needReset st5)).
  destruct (if needReset st5 then _ else _) as [st6 tr6]. cbn [snd] in *.
  rewrite !events_of_app, Hno, Hup, H3, H4, H5, H6, Hi.
  cbn. by rewrite !app_nil_r.
Qed.

Lemma before_reset_test_flags (p : Panel) (st : State) :
  let i := images (before_reset_test p st) in
  videoImgChanged i = false /\ kfImgChanged i = false
  /\ resImgChanged i = false.
Proof.
  cbn zeta. unfold before_reset_test.
  by destruct (setting_render_display3D (globals st)).
Qed.

(** X15. The uploads of an iteration are those of the buffers whose dirty
    flag is set, each with the content of its buffer, in the order video,
    depth, residual, whatever else the iteration draws. An iteration
    without a pending reset leaves the three flags clear and the three
    buffers as they were, so that the iteration after it, if nothing is
    published in between, uploads nothing. *)
Theorem iteration_uploads_the_dirty_buffers (p : Panel) (st : State) :
  events_of is_upload (run_iteration p st).2 = dirty_uploads (images st)
  /\ (needReset st = false ->
      let i' := images (run_iteration p st).1 in
      videoImgChanged i' = false /\ kfImgChanged i' = false
      /\ resImgChanged i' = false
      /\ internalVideoImg i' = internalVideoImg (images st)
      /\ internalKFImg i' = internalKFImg (images st)
      /\ internalResImg i' = internalResImg (images st)
      /\ forall p',
           events_of is_upload (run_iteration p' (run_iteration p st).1).2
           = []).
Proof.
  split; [apply run_iteration_uploads | ].
  intros Hn. cbn zeta. rewrite run_iteration_state, Hn.
  destruct (before_reset_test_flags p st) as (Hv & Hk & Hr).
  destruct (before_reset_test_rest p st) as (_ & _ & Hvi & Hki & Hri & _).
  repeat split; try done.
  intros p'. rewrite run_iteration_uploads.
  unfold dirty_uploads. by rewrite Hv, Hk, Hr.
Qed.

(** X16. What a producer pushes is what the next iteration uploads: after
    [pushLiveFrame] (live video displayed) the iteration uploads the video
    buffer just written, first; after [pushDepthImage] (depth displayed)
    it uploads the depth buffer just written. *)
Theorem pushed_image_is_uploaded_next (p : Panel) (st : State) :
  disableAllDisplay (globals st) = false ->
  (forall image,
     setting_render_displayVideo (globals st) = true ->
     let st' := pushLiveFrame image st in
     exists others,
       events_of is_upload (run_iteration p st').2
       = Upload texVideo
           (write_live (Z.to_nat (w st * h st)) image
                       (data (internalVideoImg (images st))))
         :: others)
  /\ (forall image now,
        setting_render_displayDepth (globals st) = true ->
        let st' := pushDepthImage image now st in
        Upload texKFDepth
          (memcpy_pixels (Z.to_nat (w st * h st)) (data image)
                         (data (internalKFImg (images st))))
        ∈ events_of is_upload (run_iteration p st').2).
Proof.
  intros Hd. split.
  - intros image Hv. cbn zeta. rewrite run_iteration_uploads.
    unfold pushLiveFrame. rewrite Hd, Hv. cbn. by eexists.
  - intros image now Hk. cbn zeta. rewrite run_iteration_uploads.
    unfold pushDepthImage. rewrite Hd, Hk. unfold dirty_uploads. cbn.
    rewrite elem_of_app. right. apply list_elem_of_here.
Qed.

End Uploads.

(** ** The loop of [run] *)

Section RunLoop.
Context `{C : Collaborators} `{A : Allocator}.

Lemma run_iteration_balanced (p : Panel) (st : State) :
  balanced (run_iteration p st).2.
Proof.
  destruct (run_iteration_trace p st)
    as (t3D & st1 & st3 & tend & -> & H3D & Hend).
  apply balanced_app; [by split | ].
  apply balanced_app.
  { destruct H3D as [-> | ->]; [apply render3D_balanced | apply balanced_nil]. }
  apply balanced_app; [apply upload_images_balanced | ].
  apply balanced_app; [apply update_fps_balanced | ].
  apply balanced_app; [apply render_textures_balanced | ].
  apply balanced_app; [apply update_parameters_balanced | ].
  apply balanced_app; [by split | ].
  destruct Hend as [-> | ->];
    [apply reset_internal_events_balanced | apply balanced_nil].
Qed.

Lemma run_iteration_running (p : Panel) (st : State) :
  running (run_iteration p st).1 = running st.
Proof.
  rewrite run_iteration_state.
  destruct (before_reset_test_rest p st) as (_ & _ & _ & _ & _ & _ & Hr).
  by destruct (needReset st).
Qed.

Lemma run_loop_balanced (panels : list Panel) (st : State) :
  balanced (run_loop panels st).1.2.
Proof.
  revert st. induction panels as [ | p panels IH]; intros st; [by split | ].
  cbn [run_loop]. destruct (_ && _)%bool; [ | by split ].
  pose proof (run_iteration_balanced p st) as Hb.
  destruct (run_iteration p st) as [st1 tr1]. specialize (IH st1).
  destruct (run_loop panels st1) as [[st2 tr2] ex]. cbn [fst snd] in *.
  by apply balanced_app.
Qed.

Lemma run_loop_goes_on (panels : list Panel) (st : State) :
  running st = true ->
  Forall (fun p => ui_ShouldQuit p = false) panels ->
  (run_loop panels st).2 = false /\ running (run_loop panels st).1.1 = true.
Proof.
  intros Hr Hall. revert st Hr.
  induction Hall as [ | p panels Hp _ IH]; intros st Hr; [done | ].
  cbn [run_loop]. rewrite Hp, Hr. cbn [negb andb].
  pose proof (run_iteration_running p st) as Hr1.
  destruct (run_iteration p st) as [st1 tr1]. cbn [fst] in Hr1.
  destruct (IH st1) as [IH1 IH2]; [congruence | ].
  by destruct (run_loop panels st1) as [[st2 tr2] ex].
Qed.

(** X17. The loop of [run]. A stop is seen at the top of an iteration:
    once [close] was called, or when the presenter asks to quit, no
    further iteration runs, the viewer is left as it was and the loop is
    left for the two warnings and [exit(1)]. An iteration never clears
    [running], so without [close] and without a request to quit the loop
    goes on through every iteration. Over any number of iterations the
    trace follows the discipline of the code (a lock is taken only while
    none is held; the 3D drawing and the read-out of the tracking rate
    under [model3DMutex] alone, the uploads and the read-out of the
    mapping rate under [openImagesMutex] alone, every other call with no
    lock held), and no lock is held at the end. *)
Theorem run_loop_stops_only_on_request :
  (forall p rest st,
     running st = false \/ ui_ShouldQuit p = true ->
     run_loop (p :: rest) st = (st, [LogWarning; LogWarning], true))
  /\ (forall p rest st,
        run_loop (p :: rest) (close st)
        = (close st, [LogWarning; LogWarning], true))
  /\ (forall p st, running (run_iteration p st).1 = running st)
  /\ (forall panels st,
        running st = true ->
        Forall (fun p => ui_ShouldQuit p = false) panels ->
        (run_loop panels st).2 = false
        /\ running (run_loop panels st).1.1 = true)
  /\ (forall panels st,
        respects code_discipline no_lock (run_loop panels st).1.2 = true
        /\ held_after no_lock (run_loop panels st).1.2 = no_lock).
Proof.
  split; [ | split; [ | split; [ | split ] ] ].
  - intros p rest st [Hr | Hq]; cbn [run_loop]; rewrite ?Hr, ?Hq;
      by rewrite ?andb_false_r.
  - intros p rest st. cbn [run_loop]. by rewrite andb_false_r.
  - exact run_iteration_running.
  - exact run_loop_goes_on.
  - exact run_loop_balanced.
Qed.

(** *** The budget of point-cloud refreshes *)

Lemma draw_keyframes_budget (s : ViewerSettings) (l : list ptr)
    (acc : gmap ptr KeyFrameDisplay * Z * list event) :
  (forall a b c d e k, (refreshPC false a b c d e k).2 = false) ->
  0 <= acc.1.2 <= 10 ->
  0 <= (foldl (draw_keyframe s) acc l).1.2 <= 10.
Proof.
  intros Hno. revert acc. induction l as [ | fh l IH]; intros acc Hacc; [done | ].
  cbn [foldl]. apply IH. destruct acc as [[hp n] tr]. cbn [fst snd] in Hacc.
  unfold draw_keyframe.
  destruct (hp !! fh) as [k | ].
  - destruct (n <? 10) eqn:En.
    + apply Z.ltb_lt in En.
      destruct (refreshPC true _ _ _ _ _ k) as [k' r]. cbn [fst snd].
      unfold add_int32. rewrite to_int32_small; destruct r; lia.
    + pose proof (Hno (settings_scaledVarTH s) (settings_absVarTH s)
                      (settings_pointCloudMode s) (settings_minRelBS s)
                      (settings_sparsity s) k) as Hk.
      destruct (refreshPC false _ _ _ _ _ k) as [k' r]. cbn [fst snd] in *.
      subst r. unfold add_int32. rewrite to_int32_small; lia.
  - cbn [fst snd]. unfold add_int32. rewrite to_int32_small; lia.
Qed.

(** X18. If [refreshPC] reports no refresh when it is called with the
    permission to refresh withheld, the count [refreshed] of an iteration
    stays between 0 and 10 whatever the number of keyframes: at most ten
    point clouds are refreshed in one iteration, and once ten are, a
    keyframe is handled with the permission withheld and the count stays
    at ten. *)
Theorem at_most_ten_refreshes_per_iteration (s : ViewerSettings) :
  (forall a b c d e k, (refreshPC false a b c d e k).2 = false) ->
  (forall l hp, 0 <= (foldl (draw_keyframe s) (hp, 0, []) l).1.2 <= 10)
  /\ (forall hp tr fh k,
        hp !! fh = Some k ->
        (draw_keyframe s (hp, 10, tr) fh).1
        = (<[fh := (refreshPC false (settings_scaledVarTH s)
                              (settings_absVarTH s)
                              (settings_pointCloudMode s)
                              (settings_minRelBS s) (settings_sparsity s)
                              k).1]> hp,
           10)).
Proof.
  intros Hno. split.
  - intros l hp. by apply draw_keyframes_budget.
  - intros hp tr fh k Hk. unfold draw_keyframe. rewrite Hk.
    change (10 <? 10) with false.
    pose proof (Hno (settings_scaledVarTH s) (settings_absVarTH s)
                    (settings_pointCloudMode s) (settings_minRelBS s)
                    (settings_sparsity s) k) as Hr.
    destruct (refreshPC false _ _ _ _ _ k) as [k' r]. cbn [fst snd] in *.
    by subst r.
Qed.

End RunLoop.

(** ** The primitives of [drawConstraints] *)

Section Primitives.
Context `{C : Collaborators} `{A : Allocator}.

Lemma vertex_of_vertices hp q :
  Forall (fun e => is_vertex e = true) (vertex_of hp q).
Proof. unfold vertex_of. destruct (hp !! q); by repeat constructor. Qed.

Lemma constraint_lines_vertices wanted hp cs :
  Forall (fun e => is_vertex e = true)
         (concat (map (constraint_lines wanted hp) cs)).
Proof.
  apply Forall_concat, Forall_fmap, Forall_forall. intros c _.
  unfold compose, constraint_lines.
  destruct (_ || _)%bool; [constructor | ].
  destruct (wanted _ _); [ | constructor ].
  apply Forall_app; split; apply vertex_of_vertices.
Qed.

Lemma vertices_count (f : event -> bool) (tr : list event) :
  (forall e, is_vertex e = true -> f e = false) ->
  Forall (fun e => is_vertex e = true) tr -> count_events f tr = 0%nat.
Proof.
  intros Hf Hall. unfold count_events. rewrite events_of_none; [done | ].
  eapply Forall_impl; [exact Hall | ]. exact Hf.
Qed.

Lemma vertex_not_begin (e : event) : is_vertex e = true -> is_begin e = false.
Proof. by destruct e. Qed.

Lemma vertex_not_end (e : event) : is_vertex e = true -> is_end e = false.
Proof. by destruct e. Qed.

Lemma count_events_app (f : event -> bool) (t1 t2 : list event) :
  count_events f (t1 ++ t2) = (count_events f t1 + count_events f t2)%nat.
Proof. unfold count_events. by rewrite events_of_app, length_app. Qed.

(** X19. [drawConstraints] draws nothing when its four settings are off.
    Otherwise each of the four parts closes with one [glEnd] the one
    [glBegin] it opens, except the part of all constraints, which calls
    [glBegin(GL_LINES)] twice before its [glEnd]: over the whole call the
    [glBegin] outnumber the [glEnd] by one exactly when
    [settings_showAllConstraints] is set, whatever the keyframes and the
    connections. *)
Theorem drawConstraints_begin_end_count (st : State) :
  (settings_showAllConstraints (settings st) = false ->
   settings_showActiveConstraints (settings st) = false ->
   settings_showTrajectory (settings st) = false ->
   settings_showFullTrajectory (settings st) = false ->
   drawConstraints st = [])
  /\ count_events is_begin (drawConstraints st)
     = (count_events is_end (drawConstraints st)
        + if settings_showAllConstraints (settings st) then 1 else 0)%nat.
Proof.
  split.
  { intros H1 H2 H3 H4. unfold drawConstraints. by rewrite H1, H2, H3, H4. }
  unfold drawConstraints.
  pose proof (fun wanted =>
    vertices_count is_begin _ vertex_not_begin
      (constraint_lines_vertices wanted (heap (model st))
                                 (connections (model st)))) as Hb.
  pose proof (fun wanted =>
    vertices_count is_end _ vertex_not_end
      (constraint_lines_vertices wanted (heap (model st))
                                 (connections (model st)))) as He.
  assert (Hk : Forall (fun e => is_vertex e = true)
                 (concat (map (vertex_of (heap (model st)))
                              (keyframes (model st))))).
  { apply Forall_concat, Forall_fmap, Forall_forall. intros q _.
    apply vertex_of_vertices. }
  assert (Hp : Forall (fun e => is_vertex e = true)
                 (map GlVertex3f (allFramePoses (model st)))).
  { apply Forall_fmap, Forall_forall. by intros v _. }
  pose proof (vertices_count is_begin _ vertex_not_begin Hk) as Hkb.
  pose proof (vertices_count is_end _ vertex_not_end Hk) as Hke.
  pose proof (vertices_count is_begin _ vertex_not_begin Hp) as Hpb.
  pose proof (vertices_count is_end _ vertex_not_end Hp) as Hpe.
  destruct (settings_showAllConstraints _),
           (settings_showActiveConstraints _),
           (settings_showTrajectory _),
           (settings_showFullTrajectory _);
    repeat (rewrite count_events_app
            || rewrite (count_events_app _ (_ :: _))
            || rewrite Hb || rewrite He || rewrite Hkb || rewrite Hke
            || rewrite Hpb || rewrite Hpe);
    reflexivity.
Qed.

End Primitives.

(** ** The panel *)

Section PanelValues.
Context `{C : Collaborators} `{A : Allocator}.

Lemma render_textures_shown (st : State) :
  events_of is_texture_render (render_textures st)
  = textures_shown (setting_render_displayVideo (globals st))
                   (setting_render_displayDepth (globals st))
                   (setting_render_displayResidual (globals st)).
Proof.
  unfold render_textures.
  by destruct (setting_render_displayVideo _),
              (setting_render_displayDepth _),
              (setting_render_displayResidual _).
Qed.

Lemma reset_internal_globals (st : State) :
  globals (reset_internal st) = globals st
  /\ settings (reset_internal st) = settings st.
Proof. done. Qed.

Lemma run_iteration_globals (p : Panel) (st : State) :
  globals (run_iteration p st).1
  = globals (update_parameters p st).1
  /\ settings (run_iteration p st).1 = settings (update_parameters p st).1.
Proof.
  rewrite run_iteration_state.
  assert (H : globals (before_reset_test p st)
              = globals (update_parameters p st).1
              /\ settings (before_reset_test p st)
                 = settings (update_parameters p st).1).
  { unfold before_reset_test.
    destruct (setting_render_display3D (globals st)); [ | done ].
    destruct (render3D_frame st) as (_ & Hg & _). cbn.
    cbn in Hg. by rewrite Hg. }
  destruct (needReset st); [ | exact H ].
  by rewrite !(proj1 (reset_internal_globals _)),
             !(proj2 (reset_internal_globals _)).
Qed.

(** X20. What an iteration draws is decided by the display flags as they
    were when it began, whatever the panel says during it: the panel is
    read after the drawing. Its values are in force in the iteration after:
    that one draws the 3D view exactly when [show3D] was set, and the
    textures of the live video, the depth and the residual exactly for
    the boxes that were set, in this order. *)
Theorem panel_takes_effect_in_next_iteration (p p' : Panel) (st : State) :
  let g := globals st in
  let tr := (run_iteration p st).2 in
  let tr' := (run_iteration p' (run_iteration p st).1).2 in
  events_of is_texture_render tr
  = textures_shown (setting_render_displayVideo g)
                   (setting_render_displayDepth g)
                   (setting_render_displayResidual g)
  /\ count_events is_activate3D tr
     = (if setting_render_display3D g then 1 else 0)%nat
  /\ events_of is_texture_render tr'
     = textures_shown (ui_showVideo p) (ui_showDepth p) (ui_showResidual p)
  /\ count_events is_activate3D tr'
     = (if ui_show3D p then 1 else 0)%nat.
Proof.
  cbn zeta.
  assert (Ht : forall q s,
            events_of is_texture_render (run_iteration q s).2
            = textures_shown (setting_render_displayVideo (globals s))
                             (setting_render_displayDepth (globals s))
                             (setting_render_displayResidual (globals s))).
  { intros q s. rewrite run_iteration_events; try done; [ | by intros [] ].
    rewrite render_textures_shown.
    by destruct (setting_render_display3D _). }
  assert (Ha : forall q s,
            count_events is_activate3D (run_iteration q s).2
            = (if setting_render_display3D (globals s) then 1 else 0)%nat).
  { intros q s. unfold count_events.
    change (filter (fun e => is_activate3D e = true) (run_iteration q s).2)
      with (events_of is_activate3D (run_iteration q s).2).
    rewrite run_iteration_events; try done; [ | by intros [] ].
    rewrite length_app.
    replace (events_of is_activate3D (render_textures s)) with (@nil event).
    - by destruct (setting_render_display3D _).
    - unfold render_textures.
      by destruct (setting_render_displayVideo _),
                  (setting_render_displayDepth _),
                  (setting_render_displayResidual _). }
  split; [apply Ht | ]. split; [apply Ha | ].
  rewrite Ht, Ha, (proj1 (run_iteration_globals p st)). done.
Qed.

(** X21. The reset button of the panel does not reset the viewer: an
    iteration in which it is pressed raises the request for a full reset
    of the system and, unless [reset] was called before, keeps the
    keyframes, the map, the connections and the trajectory. No call of the
    viewer takes the request back. *)
Theorem reset_button_requests_but_does_not_reset :
  (forall p st,
     ui_Reset p = true ->
     setting_fullResetRequested (globals (run_iteration p st).1) = true
     /\ needReset (run_iteration p st).1 = false
     /\ (needReset st = false ->
         let m := model st in
         let m' := model (run_iteration p st).1 in
         keyframes m' = keyframes m
         /\ keyframesByKFID m' = keyframesByKFID m
         /\ connections m' = connections m
         /\ allFramePoses m' = allFramePoses m))
  /\ (forall c st st',
        step c st = Some st' ->
        setting_fullResetRequested (globals st) = true ->
        setting_fullResetRequested (globals st') = true).
Proof.
  split.
  - intros p st Hp. split; [ | split ].
    + rewrite (proj1 (run_iteration_globals p st)). cbn. by rewrite Hp.
    + rewrite run_iteration_state.
      destruct (needReset st) eqn:En; [done | ].
      unfold before_reset_test.
      destruct (setting_render_display3D (globals st)); [ | done ].
      cbn. by rewrite render3D_needReset.
    + intros Hn. cbn zeta. rewrite run_iteration_state, Hn.
      destruct (before_reset_test_frame p st) as (Hk & Hm & Hc & _).
      destruct (before_reset_test_rest p st) as (_ & Ha & _).
      done.
  - intros c st st' Hstep Hreq. destruct c; cbn in Hstep.
    + destruct (publishGraph connectivity st) as [s | | s] eqn:E; try done.
      injection Hstep as <-. unfold publishGraph in E.
      destruct (display3D_off st); [by injection E as <- | ].
      destruct (publishGraph_locked _ _ _); [by injection E as <- | done | done].
    + injection Hstep as <-. unfold publishKeyframes.
      by destruct (display3D_off st).
    + injection Hstep as <-. unfold publishCamPose.
      destruct (display3D_off st); [done | ]. by destruct (negb _).
    + injection Hstep as <-. unfold pushLiveFrame. by destruct (_ || _)%bool.
    + injection Hstep as <-. unfold pushDepthImage. by destruct (_ || _)%bool.
    + by injection Hstep as <-.
    + by injection Hstep as <-.
    + destruct (negb _ && _)%bool; [ | done ]. injection Hstep as <-.
      rewrite (proj1 (run_iteration_globals p st)). cbn. rewrite Hreq.
      by destruct (ui_Reset p).
Qed.

End PanelValues.

(** ** The rates before the first tick *)

Section EmptyWindows.
Context `{C : Collaborators} `{A : Allocator}.

Lemma step_keeps_tracking_window (c : call) (st st' : State) :
  is_pose_call c = false -> step c st = Some st' ->
  lastNTrackingMs (model st') = lastNTrackingMs (model st).
Proof.
  intros Hc Hstep. destruct c; cbn in Hstep; try done.
  - destruct (publishGraph connectivity st) as [s | | s] eqn:E; try done.
    injection Hstep as <-.
    by destruct (publishGraph_frame _ _ _ E) as [_ [cs ->]].
  - injection Hstep as <-. apply publishKeyframes_window.
  - injection Hstep as <-. unfold pushLiveFrame. by destruct (_ || _)%bool.
  - injection Hstep as <-. unfold pushDepthImage. by destruct (_ || _)%bool.
  - by injection Hstep as <-.
  - by injection Hstep as <-.
  - destruct (negb _ && _)%bool; [ | done ]. injection Hstep as <-.
    rewrite run_iteration_state.
    destruct (before_reset_test_frame p st) as (_ & _ & _ & Ht & _).
    destruct (needReset st);
      by rewrite ?reset_internal_window_tracking.
Qed.

Lemma step_keeps_mapping_window (c : call) (st st' : State) :
  is_depth_call c = false -> step c st = Some st' ->
  lastNMappingMs (images st') = lastNMappingMs (images st).
Proof.
  intros Hc Hstep. destruct c; cbn in Hstep; try done.
  - destruct (publishGraph connectivity st) as [s | | s] eqn:E; try done.
    injection Hstep as <-.
    by destruct (publishGraph_frame _ _ _ E) as [-> _].
  - injection Hstep as <-.
    by rewrite (proj2 (publishKeyframes_window frames final HCalib st)).
  - injection Hstep as <-. unfold publishCamPose.
    destruct (display3D_off st); [done | ]. by destruct (negb _).
  - injection Hstep as <-. unfold pushLiveFrame. by destruct (_ || _)%bool.
  - by injection Hstep as <-.
  - by injection Hstep as <-.
  - destruct (negb _ && _)%bool; [ | done ]. injection Hstep as <-.
    rewrite run_iteration_state.
    destruct (before_reset_test_frame p st) as (_ & _ & _ & _ & Hm & _).
    destruct (needReset st);
      by rewrite ?reset_internal_window_mapping.
Qed.

Lemma exec_keeps_window {T} (proj : State -> T) (f : call -> bool)
    (calls : list call) (st st' : State) :
  (forall c s s', f c = false -> step c s = Some s' -> proj s' = proj s) ->
  Forall (fun c => f c = false) calls ->
  exec calls st = Some st' -> proj st' = proj st.
Proof.
  intros Hkeep Hall. revert st.
  induction Hall as [ | c calls Hc _ IH]; intros st Hex.
  - by injection Hex as <-.
  - cbn in Hex. destruct (step c st) as [st1 | ] eqn:E; [ | done ].
    rewrite (IH _ Hex). by eapply Hkeep.
Qed.

(** X22. Until the first camera pose is published with the 3D display on,
    the window of the tracking rate is empty, and the rate an iteration
    computes is 0 * 1000 / 0: not a number. The same holds of the mapping
    rate until the first depth image. Resets, keyframes, graphs, live
    frames and iterations do not change this. *)
Theorem rates_are_nan_before_first_tick (calls : list call) (w h : Z)
    (cfg : ViewerSettings) (g : Globals) (track0 map0 : timeval)
    (st : State) (p : Panel) :
  exec calls (PangolinDSOViewer w h cfg g track0 map0) = Some st ->
  (Forall (fun c => is_pose_call c = false) calls ->
   lastNTrackingMs (model st) = []
   /\ settings_trackFps (run_iteration p st).1 = S754_nan)
  /\ (Forall (fun c => is_depth_call c = false) calls ->
      lastNMappingMs (images st) = []
      /\ settings_mapFps (run_iteration p st).1 = S754_nan).
Proof.
  intros Hex.
  assert (Hrate : settings_trackFps (run_iteration p st).1
                  = window_rate (lastNTrackingMs (model st))
                  /\ settings_mapFps (run_iteration p st).1
                     = window_rate (lastNMappingMs (images st))).
  { rewrite run_iteration_state.
    destruct (before_reset_test_frame p st) as (_ & _ & _ & _ & _ & Ht & Hm & _).
    by destruct (needReset st). }
  destruct Hrate as [Ht Hm]. split; intros Hall.
  - assert (Hw : lastNTrackingMs (model st) = []).
    { by rewrite (exec_keeps_window (fun s => lastNTrackingMs (model s))
                    is_pose_call calls _ st step_keeps_tracking_window Hall Hex). }
    split; [exact Hw | ]. rewrite Ht, Hw. reflexivity.
  - assert (Hw : lastNMappingMs (images st) = []).
    { by rewrite (exec_keeps_window (fun s => lastNMappingMs (images s))
                    is_depth_call calls _ st step_keeps_mapping_window Hall Hex). }
    split; [exact Hw | ]. rewrite Hm, Hw. reflexivity.
Qed.

End EmptyWindows.

(** * The viewer on explicit inputs *)

Section Runs.
Context `{C : Collaborators} `{A : Allocator}.

Lemma reachable_exec (calls : list call) (st st' : State) :
  reachable st -> exec calls st = Some st' -> reachable st'.
Proof.
  revert st. induction calls as [ | c calls IH]; intros st Hr Hex.
  - by injection Hex as <-.
  - cbn in Hex. destruct (step c st) as [st1 | ] eqn:E; [ | done ].
    eapply IH; [ | exact Hex ]. by eapply reach_step.
Qed.

End Runs.

Import Sample.

(** A property of every entry of an explicit map, entry by entry. *)
Ltac map_Forall_by_cases :=
  apply map_Forall_to_list;
  match goal with
  | |- Forall _ ?l => let l' := eval vm_compute in l in change l with l'
  end;
  repeat (apply Forall_cons; split; [cbn [uncurry fst snd] | ]);
  [ .. | apply Forall_nil_2 ].

Ltac nonnegative_ids_by_cases :=
  unfold nonnegative_ids; map_Forall_by_cases;
  vm_compute; split; discriminate.

Ltac inverse_keys_by_cases :=
  unfold inverse_keys_present; map_Forall_by_cases;
  first [ intros H; vm_compute in H; discriminate
        | intros _; vm_compute; by eexists ].

Lemma viewer_kf_reachable : reachable viewer_kf.
Proof.
  apply (reach_step
           (CallPublishKeyframes (C := collaborators)
                                 [frame 1; frame 2; frame 3] true tt)
           viewer_on); [apply reach_new | reflexivity].
Defined.

Lemma viewer_10_ticks_reachable : reachable viewer_10_ticks.
Proof.
  apply (reachable_exec ten_ticks viewer_on); [apply reach_new | ].
  vm_compute. reflexivity.
Defined.

(** ** C1 *)

(** Published after [graph_12_13], the map of the pair (1,2) leaves a list
    of two elements for one unordered pair, and the second element is the
    record of the pair (1,3) of the publish before. Published after the 3D
    display was switched off, it leaves the four elements that were there. *)
Lemma publishGraph_list_not_rebuilt_wholesale :
  (exists st',
     publishGraph graph_1_2 viewer_12_13 = Returned st'
     /\ length (connections (model st')) = 2%nat
     /\ size (unordered_pairs graph_1_2) = 1%nat
     /\ connections (model st') !! 1%nat
        = connections (model viewer_12_13) !! 1%nat
     /\ connections (model st') !! 1%nat = Some record_1_3
     /\ (record_1_3
         ∉ written_records (keyframesByKFID (model viewer_12_13)) graph_1_2)
     /\ ~ rebuilt_wholesale (keyframesByKFID (model viewer_12_13)) graph_1_2
                            (connections (model st')))
  /\ (publishGraph graph_1_2 viewer_12_13_hidden = Returned viewer_12_13_hidden
      /\ length (connections (model viewer_12_13_hidden)) = 4%nat
      /\ ~ rebuilt_wholesale (keyframesByKFID (model viewer_12_13_hidden))
                             graph_1_2
                             (connections (model viewer_12_13_hidden))).
Proof.
  split.
  - eexists. split; [vm_compute; reflexivity | ].
    assert (Hnot : record_1_3
                   ∉ written_records (keyframesByKFID (model viewer_12_13))
                                     graph_1_2).
    { rewrite graph_1_2_written. intros Hin.
      apply list_elem_of_singleton in Hin. vm_compute in Hin. discriminate. }
    repeat split; try (vm_compute; reflexivity); [exact Hnot | ].
    intros [Hlen _]. vm_compute in Hlen. lia.
  - split; [vm_compute; reflexivity | ].
    split; [vm_compute; reflexivity | ].
    intros [Hlen _]. vm_compute in Hlen. lia.
Qed.

Lemma publishGraph_writes_one_record_per_pair_witness :
  let st' := after_graph graph_1_2 viewer_kf in
  length (connections (model st')) = size graph_1_2
  /\ take 1 (connections (model st')) = [mkConn 2%N 3%N 0 1 3 0]
  /\ (1 <= size (unordered_pairs graph_1_2))%nat.
Proof.
  cbn zeta.
  assert (Hv : valid_keys graph_1_2).
  { unfold valid_keys. map_Forall_by_cases.
    all: vm_compute; split; [discriminate | reflexivity]. }
  destruct (proj2 (publishGraph_writes_one_record_per_pair graph_1_2 viewer_kf Hv)
              (after_graph graph_1_2 viewer_kf))
    as (Hlen & Htake & _ & Hcount & _); [reflexivity | vm_compute; reflexivity | ].
  split; [exact Hlen | ]. split; [ | exact Hcount ].
  vm_compute. reflexivity.
Defined.

(** ** C2 *)

(** In the first iteration of a viewer with three keyframes the point
    clouds are drawn while [model3DMutex] is held, the three buffers are
    uploaded while [openImagesMutex] is held, and the two read-outs of the
    panel are assigned while a lock is held. *)
Lemma render_iteration_calls_under_locks :
  respects calls_outside_locks no_lock (run_iteration panel0 viewer_kf).2
  = false
  /\ respects calls_outside_locks no_lock (render3D viewer_kf).2 = false
  /\ respects calls_outside_locks no_lock (upload_images viewer_kf).2 = false
  /\ respects calls_outside_locks no_lock (update_fps viewer_kf).2 = false.
Proof. repeat split; vm_compute; reflexivity. Qed.

(** ** C3 *)

(** On a viewer just constructed the publish of [graph_1_2] leaves two
    elements in the list; with all display disabled it leaves none. *)
Lemma publishGraph_pair_1_2_leaves_two_elements :
  (exists st',
     publishGraph graph_1_2 viewer_on = Returned st'
     /\ connections (model st') = [mkConn null null 0 1 3 0; conn0]
     /\ ~ exists c, connections (model st') = [c])
  /\ (publishGraph graph_1_2 viewer_off = Returned viewer_off
      /\ connections (model viewer_off) = []).
Proof.
  split.
  - eexists. split; [vm_compute; reflexivity | ].
    split; [vm_compute; reflexivity | ].
    intros [c Hc]. vm_compute in Hc. discriminate.
  - split; vm_compute; reflexivity.
Qed.

Lemma publishGraph_pair_1_2_witness :
  exists st' c second,
    publishGraph graph_1_2 viewer_kf = Returned st'
    /\ written_records (keyframesByKFID (model viewer_kf)) graph_1_2 = [c]
    /\ connections (model st') = [c; second]
    /\ (fwdAct c, fwdMarg c) = (3, 0)
    /\ (bwdAct c, bwdMarg c) = (0, 1)
    /\ from c = 2%N /\ to c = 3%N.
Proof.
  destruct (proj2 (publishGraph_pair_1_2 viewer_kf) eq_refl)
    as (st' & c & second & H1 & H2 & H3 & H4 & H5 & H6 & H7).
  exists st', c, second. repeat split; try done.
Defined.

(** ** C4 and C10 *)

Lemma registry_one_handle_per_identifier_witness :
  exists id,
    keyframesByKFID (model viewer_kf) !! id = Some 3%N
    /\ forall id', keyframesByKFID (model viewer_kf) !! id' = Some 3%N -> id' = id.
Proof.
  apply (proj1 (proj1 registry_one_handle_per_identifier viewer_kf
                      viewer_kf_reachable)).
  apply list_elem_of_lookup. exists 1%nat. vm_compute. reflexivity.
Defined.

Lemma keyframes_and_map_hold_same_handles_witness :
  same_handles (model viewer_kf).
Proof.
  exact (proj1 keyframes_and_map_hold_same_handles viewer_kf
               viewer_kf_reachable).
Defined.

(** ** C5 *)

Lemma reset_internal_clears_everything_witness :
  keyframes (model (reset_internal viewer_kf)) = []
  /\ keyframesByKFID (model (reset_internal viewer_kf)) = ∅.
Proof.
  destruct (reset_internal_clears_everything viewer_kf) as (H1 & H2 & _).
  by split.
Defined.

(** ** C6 *)

(** The three ways the check does not follow the self-pairs: a key whose
    host is negative dies on a check without any self-pair; with the
    display off nothing is checked; and a missing inverse key throws
    before the self-pair is reached. *)
Lemma publishGraph_fatal_not_iff_bad_self_pair :
  (publishGraph graph_negative_host viewer_on = CheckFailed
   /\ ~ map_Exists bad_self_pair graph_negative_host
   /\ ~ fatal_iff_bad_self_pair graph_negative_host viewer_on)
  /\ (publishGraph graph_self_nonzero viewer_off = Returned viewer_off
      /\ map_Exists bad_self_pair graph_self_nonzero
      /\ ~ fatal_iff_bad_self_pair graph_self_nonzero viewer_off)
  /\ ((exists st', publishGraph graph_missing_inverse viewer_on = OutOfRange st')
      /\ map_Exists bad_self_pair graph_missing_inverse
      /\ ~ fatal_iff_bad_self_pair graph_missing_inverse viewer_on).
Proof.
  assert (H1 : ~ map_Exists bad_self_pair graph_negative_host).
  { intros H. apply (bool_decide_pack _) in H. vm_compute in H. exact H. }
  assert (H2 : map_Exists bad_self_pair graph_self_nonzero).
  { apply (bool_decide_unpack _). vm_compute. exact I. }
  assert (H3 : map_Exists bad_self_pair graph_missing_inverse).
  { apply (bool_decide_unpack _). vm_compute. exact I. }
  split; [ | split ].
  - split; [vm_compute; reflexivity | ]. split; [exact H1 | ].
    intros [Hfwd _]. apply H1, Hfwd. vm_compute. reflexivity.
  - split; [vm_compute; reflexivity | ]. split; [exact H2 | ].
    intros [_ Hbwd]. specialize (Hbwd H2). vm_compute in Hbwd. discriminate.
  - split; [eexists; vm_compute; reflexivity | ]. split; [exact H3 | ].
    intros [_ Hbwd]. specialize (Hbwd H3). vm_compute in Hbwd. discriminate.
Qed.

Lemma publishGraph_fatal_on_bad_self_pair_witness :
  (publishGraph graph_self_zero viewer_on = CheckFailed
   <-> map_Exists bad_self_pair graph_self_zero)
  /\ (publishGraph graph_self_nonzero viewer_on = CheckFailed
      <-> map_Exists bad_self_pair graph_self_nonzero).
Proof.
  split.
  - apply (publishGraph_fatal_on_bad_self_pair graph_self_zero viewer_on).
    + reflexivity.
    + nonnegative_ids_by_cases.
    + inverse_keys_by_cases.
  - apply (publishGraph_fatal_on_bad_self_pair graph_self_nonzero viewer_on).
    + reflexivity.
    + nonnegative_ids_by_cases.
    + inverse_keys_by_cases.
Defined.

(** ** C7 *)

Lemma latency_window_fifo_and_rate_witness :
  windows_bounded viewer_10_ticks
  /\ lastNTrackingMs (model viewer_10_ticks) = replicate 10 (F32.of_Z 100)
  /\ settings_trackFps (run_iteration panel0 viewer_10_ticks).1 = F32.of_Z 10
  /\ lastNTrackingMs (model viewer_11_ticks)
     = replicate 9 (F32.of_Z 100) ++ [F32.of_Z 250].
Proof.
  destruct latency_window_fifo_and_rate
    as (Hb & _ & _ & Htick & _ & Hrate & _ & _ & Hten & Hpush).
  assert (Hw : lastNTrackingMs (model viewer_10_ticks)
               = replicate 10 (F32.of_Z 100)) by (vm_compute; reflexivity).
  split; [exact (Hb viewer_10_ticks viewer_10_ticks_reachable) | ].
  split; [exact Hw | ].
  split.
  - rewrite (proj1 (Hrate panel0 viewer_10_ticks)), Hw. exact Hten.
  - change viewer_11_ticks
      with (publishCamPose (frame 0) tt (clock 1250) viewer_10_ticks).
    rewrite (proj2 (Htick (frame 0) tt (clock 1250) viewer_10_ticks eq_refl)), Hw.
    rewrite Hpush. vm_compute. reflexivity.
Defined.

(** ** C9 *)

Lemma pushLiveFrame_disabled_is_noop_witness :
  pushLiveFrame (frame 1) viewer_off = viewer_off.
Proof.
  exact (proj1 (pushLiveFrame_disabled_is_noop (frame 1) viewer_off
                  (or_introl eq_refl))).
Defined.

(** With the display on the same frame is written, scaled by 0.8 and
    saturated at 255. *)
Example pushLiveFrame_enabled_writes :
  data (internalVideoImg (images (pushLiveFrame (frame 1) viewer_on)))
  = [mkVec3b 80 80 80; mkVec3b 255 255 255]
  /\ videoImgChanged (images (pushLiveFrame (frame 1) viewer_on)) = true.
Proof. split; vm_compute; reflexivity. Qed.

(** ** Further properties on explicit inputs *)

Ltac symmetric_keys_by_cases :=
  unfold symmetric_keys; map_Forall_by_cases;
  first [ intros H; vm_compute in H; by destruct H
        | intros _; vm_compute; by eexists ].

Ltac valid_keys_by_cases :=
  unfold valid_keys; map_Forall_by_cases;
  (split; by vm_compute).

Lemma viewer_12_13_reachable : reachable viewer_12_13.
Proof.
  apply (reachable_exec [CallPublishGraph graph_12_13] viewer_kf);
    [apply viewer_kf_reachable | ].
  vm_compute. reflexivity.
Qed.

Lemma viewer_off_after_calls_reachable : reachable viewer_off_after_calls.
Proof.
  apply (reachable_exec calls_while_disabled viewer_off); [apply reach_new | ].
  vm_compute. reflexivity.
Qed.

Lemma pushLiveFrame_writes_video_buffer_witness :
  data (internalVideoImg (images (pushLiveFrame (frame 1) viewer_on))) !! 0%nat
  = Some (live_pixel (frame 1) 0)
  /\ videoImgChanged (images (pushLiveFrame (frame 1) viewer_on)) = true.
Proof.
  destruct ((pushLiveFrame_writes_video_buffer (C := collaborators)) (frame 1) viewer_on
              eq_refl eq_refl) as (_ & Hpx & _ & Hflag & _).
  split; [ | exact Hflag ].
  apply Hpx; vm_compute; lia.
Defined.

Lemma live_pixel_scales_and_saturates_witness :
  live_pixel (frame 1) 0 = mkVec3b 80 80 80
  /\ live_pixel (frame 1) 1 = mkVec3b 255 255 255.
Proof.
  split.
  - apply ((live_pixel_scales_and_saturates (C := collaborators)) (frame 1) 0 100); [lia | reflexivity].
  - apply ((live_pixel_scales_and_saturates (C := collaborators)) (frame 1) 1 400); [lia | reflexivity].
Defined.

Lemma pushDepthImage_copies_when_wanted_witness :
  data (internalKFImg (images (pushDepthImage depth_image (clock 100) viewer_on)))
    !! 1%nat
  = Some (mkVec3b 40 50 60)
  /\ pushDepthImage depth_image (clock 100) viewer_off = viewer_off.
Proof.
  split.
  - destruct (proj2 ((pushDepthImage_copies_when_wanted (C := collaborators)) depth_image (clock 100)
                       viewer_on) eq_refl eq_refl)
      as (_ & Hpx & _).
    + vm_compute. lia.
    + vm_compute. lia.
    + rewrite Hpx; [reflexivity | vm_compute; lia].
  - apply (proj1 ((pushDepthImage_copies_when_wanted (C := collaborators)) depth_image (clock 100)
                    viewer_off)).
    right. reflexivity.
Defined.

Lemma publishKeyframes_registers_the_batch_witness :
  is_Some (keyframesByKFID (model viewer_kf) !! 2).
Proof.
  destruct (proj2 ((publishKeyframes_registers_the_batch (C := collaborators))
                     [frame 1; frame 2; frame 3] true tt viewer_on) eq_refl)
    as (Hall & _).
  apply (Hall (frame 2)). apply list_elem_of_further, list_elem_of_here.
Defined.

Lemma live_handles_are_camera_and_keyframes_witness :
  currentCam (model viewer_kf) <> null
  /\ dom (heap (model (reset_internal viewer_kf)))
     = {[ currentCam (model viewer_kf) ]}.
Proof.
  split.
  - apply (proj1 (live_handles_are_camera_and_keyframes (C := collaborators)) viewer_kf
                 viewer_kf_reachable).
  - apply (proj2 (live_handles_are_camera_and_keyframes (C := collaborators)) viewer_kf
                 viewer_kf_reachable).
Defined.

Lemma connection_endpoints_never_dangle_witness :
  (from record_1_3 = null
   \/ (from record_1_3 ∈ keyframes (model viewer_12_13)
       /\ is_Some (heap (model viewer_12_13) !! from record_1_3)))
  /\ (to record_1_3 = null
      \/ (to record_1_3 ∈ keyframes (model viewer_12_13)
          /\ is_Some (heap (model viewer_12_13) !! to record_1_3))).
Proof.
  destruct ((connection_endpoints_never_dangle (C := collaborators)) viewer_12_13
              viewer_12_13_reachable record_1_3) as (Hf & Ht & _).
  - apply list_elem_of_lookup. exists 1%nat. vm_compute. reflexivity.
  - by split.
Defined.

Lemma trajectory_strip_has_one_vertex_per_keyframe_witness :
  exists ks,
    Forall2 (fun p k => heap (model viewer_kf) !! p = Some k)
            (keyframes (model viewer_kf)) ks
    /\ concat (map (vertex_of (heap (model viewer_kf)))
                   (keyframes (model viewer_kf)))
       = map (fun k => GlVertex3f (kfd_translation k)) ks.
Proof.
  exact ((trajectory_strip_has_one_vertex_per_keyframe (C := collaborators)) viewer_kf
           viewer_kf_reachable).
Defined.

Lemma trajectory_is_append_only_witness :
  allFramePoses (model (publishCamPose (frame 0) tt (clock 100) viewer_on))
  = allFramePoses (model viewer_on) ++ [shell_translation (frame 0)].
Proof.
  apply (proj1 (proj2 (trajectory_is_append_only (C := collaborators))) (frame 0) tt (clock 100)
               viewer_on eq_refl).
Defined.

Lemma key_packing_round_trip_witness :
  inverseKey 1 2 = pair_key 2 1 /\ decode_host (inverseKey 1 2) = 2.
Proof.
  destruct (proj1 key_packing_round_trip 1 2) as (H1 & H2 & _); [lia | lia | ].
  by split.
Defined.

Lemma publishGraph_returns_iff_witness :
  (exists st', publishGraph graph_self_zero viewer_on = Returned st')
  /\ exists st', publishGraph graph_missing_inverse_only viewer_on
                 = OutOfRange st'.
Proof.
  split.
  - apply (proj1 ((publishGraph_returns_iff (C := collaborators)) graph_self_zero viewer_on eq_refl)).
    split; [nonnegative_ids_by_cases | ].
    split; [inverse_keys_by_cases | ].
    intros H. apply (bool_decide_pack _) in H. vm_compute in H. exact H.
  - apply (proj2 (proj2 ((publishGraph_returns_iff (C := collaborators)) graph_missing_inverse_only
                           viewer_on eq_refl))).
    + nonnegative_ids_by_cases.
    + intros H. apply (bool_decide_pack _) in H. vm_compute in H. exact H.
    + intros H. specialize (H (pair_key 1 2) (mkVector2i 1 1)).
      destruct H as [v Hv]; [vm_compute; reflexivity | vm_compute; reflexivity | ].
      vm_compute in Hv. discriminate.
Defined.

Lemma complete_map_one_record_per_pair_witness :
  length (filter forward_entry (entries_in_order graph_12_13))
  = size (unordered_pairs graph_12_13)
  /\ length (connections (model viewer_12_13)) = size graph_12_13
  /\ drop (size (unordered_pairs graph_12_13))
          (connections (model viewer_12_13))
     = drop (size (unordered_pairs graph_12_13))
            (resize (size graph_12_13) conn0 (connections (model viewer_kf))).
Proof.
  destruct ((complete_map_one_record_per_pair (C := collaborators))
              graph_12_13) as [Hn Hrun].
  - valid_keys_by_cases.
  - nonnegative_ids_by_cases.
  - symmetric_keys_by_cases.
  - split; [exact Hn | ].
    destruct (Hrun viewer_kf viewer_12_13) as (Hlen & _ & _ & Hdrop).
    + reflexivity.
    + vm_compute. reflexivity.
    + by split.
Defined.

Lemma window_holds_last_ten_intervals_witness :
  lastNTrackingMs (model (publish_poses tt eleven_poses viewer_on))
  = replicate 10 (F32.of_Z 100)
  /\ length (allFramePoses (model (publish_poses tt eleven_poses viewer_on)))
     = 11%nat.
Proof.
  destruct ((window_holds_last_ten_intervals (C := collaborators)) tt eleven_poses viewer_on eq_refl)
    as (Hw & _ & Hp).
  - vm_compute. lia.
  - split; [rewrite Hw | rewrite Hp]; vm_compute; reflexivity.
Defined.

Lemma disabled_viewer_stays_untouched_witness :
  untouched viewer_off_after_calls.
Proof.
  apply (proj2 (disabled_viewer_stays_untouched (C := collaborators)) viewer_off_after_calls
               viewer_off_after_calls_reachable).
  vm_compute. reflexivity.
Defined.

Lemma pushed_image_is_uploaded_next_witness :
  exists others,
    events_of is_upload (run_iteration panel0 (pushLiveFrame (frame 1) viewer_on)).2
    = Upload texVideo [mkVec3b 80 80 80; mkVec3b 255 255 255] :: others.
Proof.
  destruct (proj1 ((pushed_image_is_uploaded_next (C := collaborators)) panel0 viewer_on eq_refl)
              (frame 1) eq_refl) as [others Ho].
  exists others. rewrite Ho. f_equal.
Defined.

Lemma run_loop_stops_only_on_request_witness :
  run_loop [panel0; panel0] (close viewer_kf)
  = (close viewer_kf, [LogWarning; LogWarning], true)
  /\ (run_loop [panel0; panel0] viewer_kf).2 = false.
Proof.
  split.
  - apply (proj1 (proj2 (run_loop_stops_only_on_request (C := collaborators)))).
  - apply (proj1 (proj2 (proj2 (proj2 (run_loop_stops_only_on_request (C := collaborators)))))
                 [panel0; panel0] viewer_kf eq_refl).
    by repeat constructor.
Defined.

Lemma at_most_ten_refreshes_per_iteration_witness :
  0 <= (foldl (draw_keyframe settings0) (heap (model viewer_kf), 0, [])
              (keyframes (model viewer_kf))).1.2 <= 10.
Proof.
  apply (proj1 ((at_most_ten_refreshes_per_iteration (C := collaborators)) settings0
                  (fun a b c d e k => eq_refl))).
Defined.

Lemma reset_button_requests_but_does_not_reset_witness :
  setting_fullResetRequested
    (globals (run_iteration panel_reset viewer_kf).1) = true
  /\ keyframes (model (run_iteration panel_reset viewer_kf).1)
     = keyframes (model viewer_kf).
Proof.
  destruct (proj1 (reset_button_requests_but_does_not_reset (C := collaborators))
              panel_reset viewer_kf eq_refl) as (Hreq & _ & Hkeep).
  split; [exact Hreq | ]. by destruct (Hkeep eq_refl) as (Hk & _).
Defined.

Lemma rates_are_nan_before_first_tick_witness :
  settings_trackFps (run_iteration panel0 viewer_kf).1 = S754_nan
  /\ settings_mapFps (run_iteration panel0 viewer_kf).1 = S754_nan.
Proof.
  destruct ((rates_are_nan_before_first_tick (C := collaborators))
              [CallPublishKeyframes (C := collaborators)
                                    [frame 1; frame 2; frame 3] true tt]
              2 1 settings0 globals_on t0 t0 viewer_kf panel0 eq_refl)
    as [Ht Hm].
  split; [apply Ht | apply Hm]; by repeat constructor.
Defined.
